(** * git-lost: the branch clean-up assistant of [gitlostapi/__init__.py]

    The script talks to three collaborators: the [git] executable (through
    [subprocess.check_output]), the GitPython [Repo] object and the terminal
    (through [click]).  The embedding keeps the script's control flow as a
    tree of requests ([Prog]); a handler plays the collaborators.  Theorems
    that only concern the requests the script issues hold for every handler;
    those that concern the repository state are stated over the reference
    repository [Repo] defined below. *)

From Stdlib Require Import List String Ascii Bool Arith Lia Permutation.
Import ListNotations.
Local Open Scope list_scope.
Local Open Scope string_scope.

(** ** Python string built-ins used by the script *)

Module PyStr.

(** [s[n:]] *)
Fixpoint drop (n : nat) (s : string) : string :=
  match n, s with
  | O, _ => s
  | S n', String _ r => drop n' r
  | S _, EmptyString => EmptyString
  end.

(** [s.startswith(p)] *)
Definition startswith (s p : string) : bool := String.prefix p s.

(** [s.endswith(p)] *)
Definition endswith (s p : string) : bool :=
  Nat.leb (String.length p) (String.length s)
  && String.eqb (drop (String.length s - String.length p) s) p.

(** Characters [str.isspace] accepts, within ASCII: tab to carriage return,
    the four separators 28..31 and the blank. *)
Definition is_space (c : ascii) : bool :=
  let n := nat_of_ascii c in
  (Nat.leb 9 n && Nat.leb n 13) || (Nat.leb 28 n && Nat.leb n 31)
  || Nat.eqb n 32.

(** Line boundaries of [str.splitlines], within ASCII. *)
Definition is_linebreak (c : ascii) : bool :=
  let n := nat_of_ascii c in
  (Nat.leb 10 n && Nat.leb n 13) || (Nat.leb 28 n && Nat.leb n 30).

Definition is_empty (s : string) : bool :=
  match s with EmptyString => true | _ => false end.

(** [s.rstrip()] *)
Fixpoint rstrip (s : string) : string :=
  match s with
  | EmptyString => EmptyString
  | String c r =>
      let r' := rstrip r in
      if is_empty r' && is_space c then EmptyString else String c r'
  end.

(** [s.lstrip()] *)
Fixpoint lstrip (s : string) : string :=
  match s with
  | EmptyString => EmptyString
  | String c r => if is_space c then lstrip r else s
  end.

(** [s.strip()] *)
Definition strip (s : string) : string := lstrip (rstrip s).

(** [s.splitlines()]: [cur] is the line read so far; a carriage return
    followed by a line feed is one boundary; there is no empty last line. *)
Fixpoint splitlines_from (cur s : string) : list string :=
  match s with
  | EmptyString => if is_empty cur then [] else [cur]
  | String c r =>
      if is_linebreak c then
        match r with
        | String c' r' =>
            if Nat.eqb (nat_of_ascii c) 13 && Nat.eqb (nat_of_ascii c') 10
            then cur :: splitlines_from EmptyString r'
            else cur :: splitlines_from EmptyString r
        | EmptyString => [cur]
        end
      else splitlines_from (cur ++ String c EmptyString) r
  end.

Definition splitlines (s : string) : list string :=
  splitlines_from EmptyString s.

(** [s.split(sep)] for a one-character separator: never empty. *)
Fixpoint split (sep : ascii) (s : string) : list string :=
  match s with
  | EmptyString => [EmptyString]
  | String c r =>
      if Ascii.eqb c sep then EmptyString :: split sep r
      else match split sep r with
           | h :: t => String c h :: t
           | [] => [String c EmptyString]
           end
  end.

(** [s.split(sep, 1)]: [None] stands for the one-element list (no
    separator found), [Some (a, b)] for the two-element list. *)
Fixpoint split_once (sep : ascii) (s : string) : option (string * string) :=
  match s with
  | EmptyString => None
  | String c r =>
      if Ascii.eqb c sep then Some (EmptyString, r)
      else match split_once sep r with
           | Some (a, b) => Some (String c a, b)
           | None => None
           end
  end.

(** [sep.join(l)] *)
Definition join (sep : string) (l : list string) : string :=
  String.concat sep l.

End PyStr.

(** ** Python sets of strings

    A set the script iterates over is kept as the list of its elements in
    iteration order.  That order is fixed by the interpreter's string hash
    (seeded anew for each process) and by the sequence of insertions;
    [HashOrder] is this dependence: [set_of l] is the iteration order of the
    set into which the elements of [l] were inserted one after the other. *)

Class HashOrder : Type := {
  set_of : list string -> list string;
  set_of_NoDup : forall l, NoDup (set_of l);
  set_of_In : forall l x, In x (set_of l) <-> In x l
}.

(** [x in s] *)
Definition mem (x : string) (s : list string) : bool :=
  existsb (String.eqb x) s.

(** [s.add(x)] on a set that is never iterated: distinct insertions. *)
Definition set_add (x : string) (s : list string) : list string :=
  if mem x s then s else (s ++ [x])%list.

(** [s.remove(x)] keeps the order of the other elements. *)
Definition discard (x : string) (s : list string) : list string :=
  filter (fun y => negb (String.eqb x y)) s.

(** Two hash orders: one under which a set lists its elements as first
    inserted, one under which it lists them last inserted first. *)
Fixpoint dedup (l : list string) : list string :=
  match l with
  | [] => []
  | x :: rest => x :: discard x (dedup rest)
  end.

Definition insertion_order : HashOrder.
Proof.
  refine {| set_of := dedup |}.
  - intros l. induction l as [| y l IH]; simpl; constructor.
    + unfold discard. rewrite filter_In, String.eqb_refl. intros [_ H]. discriminate.
    + now apply NoDup_filter.
  - intros l x. induction l as [| y l IH]; simpl; [tauto |].
    unfold discard. rewrite filter_In, IH.
    destruct (String.eqb_spec y x); [subst; tauto |].
    cbn. intuition congruence.
Defined.

Definition reverse_order : HashOrder.
Proof.
  refine {| set_of := fun l => rev (@set_of insertion_order l) |}.
  - intros l. apply NoDup_rev, set_of_NoDup.
  - intros l x. rewrite <- in_rev. apply set_of_In.
Defined.

#[local] Existing Instance insertion_order.

(** ** Terminal output

    [click.style] wraps a text in terminal escape sequences; a message is
    kept as its sequence of styled pieces. *)

Record Style : Type := mkStyle {
  fg : option string;
  bold : option bool;
  dim : option bool
}.

Inductive Span : Type :=
| Plain (text : string)
| Styled (st : Style) (text : string).

Definition Message : Type := list Span.

(** [click.style(text, fg=.., bold=..)] *)
Definition style (text : string) (fg : string) (bold : option bool) : Span :=
  Styled (mkStyle (Some fg) bold None) text.

(** ** Configuration, as [_get_config] returns it *)

Record Config : Type := mkConfig {
  permanent_branches : list string;
  always_create_permanent_branches : bool;
  fetch_first : bool;
  fetch_tags : bool;
  fetch_prune : bool;
  auto_fast_forward : string;
  upstream_names : list string
}.

Definition DEFAULT_CONFIG : Config :=
  {| permanent_branches := ["master"; "main"];
     always_create_permanent_branches := true;
     fetch_first := true;
     fetch_tags := true;
     fetch_prune := true;
     auto_fast_forward := "ff_none";
     upstream_names := ["origin"] |}.

(** ** Exceptions the script can end with *)

Inductive Exn : Type :=
| CalledProcessError (cmd : list string)   (* [_run]: non-zero exit status *)
| GitCommandError (args : list string)     (* [repo.git.branch] failed *)
| InvalidGitRepositoryError                (* [git.Repo()] *)
| KeyError (key : string)                  (* [set.remove] of an absent element *)
| IndexError                               (* [permanent[0]] on an empty list *)
| ValueError                               (* tuple unpacking of a [split] *)
| AssertionError (what : string)
| ClickException (msg : string)
| PyException (msg : string).              (* [raise Exception(..)] *)

(** ** Requests to the collaborators

    [Answer] is what the user types at a [click.confirm] prompt once click
    has accepted it: yes, no, or an empty line. *)

Inductive Answer : Type := AnsYes | AnsNo | AnsEmpty.

Inductive Cmd : Type :=
| OpenRepo                                 (* [git.Repo()] *)
| GetConfig                                (* [_get_config()] *)
| Run (argv : list string)                 (* [subprocess.check_output(argv)] *)
| Confirm (msg : Message) (default : bool) (* [click.confirm(msg, default=..)] *)
| Echo (msg : Message) (nl : bool)         (* [click.echo] and [click.secho] *)
| ActiveBranch                             (* the active branch, if any *)
| CommitHexsha (head : string)             (* [head.commit.hexsha] *)
| RepoHeads                                (* names of [repo.heads] *)
| RepoRemotes                              (* [repo.remotes] with their [refs] *)
| GitBranch (args : list string).          (* [repo.git.branch(..)] *)

(** What each request returns; [None] from [Run] and [GitBranch] is a
    non-zero exit status, [false] from [OpenRepo] a directory that is not a
    repository.  [ActiveBranch] stands for [repo.head.is_detached] and
    [repo.active_branch.name] and returns [None] for a detached head;
    [RepoRemotes] returns each remote's name with the names of its refs. *)
Definition Resp (c : Cmd) : Type :=
  match c with
  | OpenRepo => bool
  | GetConfig => Config
  | Run _ => option string
  | Confirm _ _ => Answer
  | Echo _ _ => unit
  | ActiveBranch => option string
  | CommitHexsha _ => string
  | RepoHeads => list string
  | RepoRemotes => list (string * list string)
  | GitBranch _ => option string
  end.

Inductive Prog (A : Type) : Type :=
| Ret (a : A)
| Throw (e : Exn)
| Vis (c : Cmd) (k : Resp c -> Prog A).

Arguments Ret {A} a.
Arguments Throw {A} e.
Arguments Vis {A} c k.

Fixpoint bind {A B : Type} (p : Prog A) (f : A -> Prog B) : Prog B :=
  match p with
  | Ret a => f a
  | Throw e => Throw e
  | Vis c k => Vis c (fun r => bind (k r) f)
  end.

Declare Scope prog_scope.
Delimit Scope prog_scope with prog.
Notation "x <- p ;; q" := (bind p (fun x => q))
  (at level 61, p at next level, right associativity) : prog_scope.
Notation "p ;; q" := (bind p (fun _ => q))
  (at level 61, right associativity) : prog_scope.
Local Open Scope prog_scope.

(** [for x in l: body], where the body cannot leave the loop early. *)
Fixpoint for_each {X : Type} (l : list X) (body : X -> Prog unit) : Prog unit :=
  match l with
  | [] => Ret tt
  | x :: rest => body x ;; for_each rest body
  end.

(** [for x in l: body], where the body answers [true] when it executed the
    enclosing function's [return]. *)
Fixpoint for_until {X : Type} (l : list X) (body : X -> Prog bool) : Prog bool :=
  match l with
  | [] => Ret false
  | x :: rest =>
      returned <- body x ;;
      if returned then Ret true else for_until rest body
  end.

(** The value [click.confirm] returns for what was typed: an empty line
    takes the default. *)
Definition accepted (d : bool) (a : Answer) : bool :=
  match a with AnsYes => true | AnsNo => false | AnsEmpty => d end.

(** [click.confirm(msg, default=d)] *)
Definition confirm (msg : Message) (d : bool) : Prog bool :=
  Vis (Confirm msg d) (fun a => Ret (accepted d a)).

Definition echo (msg : Message) : Prog unit := Vis (Echo msg true) Ret.

(** [click.secho(text, fg=.., bold=.., dim=.., nl=..)] *)
Definition secho (text : string) (st : Style) (nl : bool) : Prog unit :=
  Vis (Echo [Styled st text] nl) Ret.

(** [_run(cmd)] *)
Definition _run (cmd : list string) : Prog string :=
  Vis (Run cmd)
      (fun r => match r with
                | Some out => Ret out
                | None => Throw (CalledProcessError cmd)
                end).

(** [None if repo.head.is_detached else repo.active_branch.name] *)
Definition current_branch : Prog (option string) := Vis ActiveBranch Ret.

(** ** Ref inventory: [_get_refs] *)

Record Refs : Type := mkRefs {
  local : list string;
  remote : list (string * list string);   (* a dict: keys in insertion order *)
  tags : list string
}.

(** [d.setdefault(name, set()).add(branch)] *)
Fixpoint dict_add (name branch : string) (d : list (string * list string))
  : list (string * list string) :=
  match d with
  | [] => [(name, [branch])]
  | (n, s) :: rest =>
      if String.eqb n name then (n, set_add branch s) :: rest
      else (n, s) :: dict_add name branch rest
  end.

(** One turn of the loop over the lines of [git show-ref]. *)
Definition get_refs_line (acc : Refs) (line : string) : Prog Refs :=
  match PyStr.split " " line with
  | [_; ref] =>
      if negb (PyStr.startswith ref "refs/") then Throw (AssertionError ref)
      else if PyStr.startswith ref "refs/heads/" then
        Ret (mkRefs (set_add (PyStr.drop 11 ref) (local acc)) (remote acc) (tags acc))
      else if PyStr.startswith ref "refs/tags/" then
        Ret (mkRefs (local acc) (remote acc) (set_add (PyStr.drop 10 ref) (tags acc)))
      else if PyStr.startswith ref "refs/remotes/" then
        if negb (PyStr.endswith ref "/HEAD") then
          match PyStr.split_once "/" (PyStr.drop 13 ref) with
          | Some (name, branch) =>
              Ret (mkRefs (local acc) (dict_add name branch (remote acc)) (tags acc))
          | None => Throw ValueError
          end
        else Ret acc
      else if String.eqb ref "refs/stash" then Ret acc
      else Throw (PyException ("Unexpected ref '" ++ ref ++ "'"))
  | _ => Throw ValueError
  end.

Fixpoint get_refs_lines (acc : Refs) (lines : list string) : Prog Refs :=
  match lines with
  | [] => Ret acc
  | line :: rest => acc' <- get_refs_line acc line ;; get_refs_lines acc' rest
  end.

Definition _get_refs : Prog Refs :=
  out <- _run ["git"; "show-ref"] ;;
  get_refs_lines (mkRefs [] [] []) (PyStr.splitlines out).

(** ** [_do_fast_forward] and [_createPermanent] *)

Definition _do_fast_forward (name remote : string) (mustExist : bool) : Prog unit :=
  Throw (PyException "TODO: not complete").

Definition _createPermanent (name : string) (remotes : list string) : Prog unit :=
  let _err := fun msg : string =>
    secho ("WARNING: Can't create permanent branch " ++ name ++ ": " ++ msg)
          (mkStyle (Some "red") None None) true in
  secho ("Creating permanent branch " ++ name)
        (mkStyle (Some "green") None (Some true)) true ;;
  match remotes with
  | [] => _err "No remotes configured"
  | _ =>
      rs <- Vis RepoRemotes Ret ;;
      let candidateRemotes :=
        filter (fun r : string * list string =>
                  mem (fst r) remotes
                  && existsb (fun ref => String.eqb ref (fst r ++ "/" ++ name)) (snd r))
               rs in
      match candidateRemotes with
      | [] => _err ("No remotes configured, or no remotes have branch " ++ name)
      | [r] =>
          let args := ["--track"; name; fst r ++ "/" ++ name] in
          Vis (GitBranch args)
              (fun o => match o with
                        | Some _ => Ret tt
                        | None => Throw (GitCommandError args)
                        end)
      | _ => _err ("Multiple remotes have a " ++ name ++ " branch")
      end
  end.

(** ** Deletion decision and executor *)

(** [x == current] for a [current] that is [None] or a name. *)
Definition is_current (x : string) (current : option string) : bool :=
  match current with
  | Some c => String.eqb x c
  | None => false
  end.

Definition removal_msg (head othername : string) : Message :=
  [style head "white" (Some true); Plain " is merged to ";
   style othername "white" (Some false); Plain ". Delete it?"].

Definition deleting_msg (head sha : string) : Message :=
  [style "Deleting local branch " "red" None;
   style head "red" (Some true);
   style " (was at " "red" None;
   style (String.substring 0 8 sha) "red" (Some true);
   style ")." "red" None].

Definition _request_removal (head othername defaultJump : string) : Prog bool :=
  current <- current_branch ;;
  ok <- confirm (removal_msg head othername) false ;;
  if ok then
    (if is_current head current
     then _run ["git"; "checkout"; defaultJump] ;; Ret tt
     else Ret tt) ;;
    sha <- Vis (CommitHexsha head) Ret ;;
    echo (deleting_msg head sha) ;;
    _run ["git"; "branch"; "-D"; head] ;;
    Ret true
  else Ret false.

Definition _attempt_removal (local : string) (remotename : option string)
  (other : string) : Prog bool :=
  let otherref :=
    match remotename with
    | None => other
    | Some r => PyStr.join "/" [r; other]
    end in
  current <- current_branch ;;
  if is_current local current && String.eqb local other then Ret false
  else
    out1 <- _run ["git"; "merge-base"; local; otherref] ;;
    let merge_base := PyStr.strip out1 in
    out2 <- _run ["git"; "rev-parse"; "--verify"; local] ;;
    let sha := PyStr.strip out2 in
    if String.eqb sha merge_base then
      ok <- confirm [Plain (local ++ " is merged to " ++ otherref ++ ". Delete it?")]
                    false ;;
      (if ok then
         (if is_current local current
          then _run ["git"; "checkout"; otherref] ;; Ret tt
          else Ret tt) ;;
         echo [Plain ("Deleting local branch " ++ local ++ " (was at " ++ sha ++ ").")] ;;
         _run ["git"; "branch"; "-D"; local] ;;
         Ret tt
       else Ret tt) ;;
      Ret true
    else Ret false.

(** ** Reachability analyzer: [_examine_branch] *)

(** [permanent[0]] *)
Definition first_of (permanent : list string) : Prog string :=
  match permanent with
  | p :: _ => Ret p
  | [] => Throw IndexError
  end.

(** [descendants.remove(head.name)] *)
Definition set_remove (x : string) (s : list string) : Prog (list string) :=
  if mem x s then Ret (discard x s) else Throw (KeyError x).

Definition qualified (remote perm : string) : string :=
  "remotes/" ++ remote ++ "/" ++ perm.

(** [['git', 'branch', '--all', '--contains=' + head.name]] *)
Definition contains_query (head : string) : list string :=
  ["git"; "branch"; "--all"; "--contains=" ++ head].

Section Analyzer.
Context {HO : HashOrder}.

(** The names printed by [git branch --all --contains=..], as a set. *)
Definition containing_set (lines : string) : list string :=
  set_of (map (fun line => PyStr.rstrip (PyStr.drop 2 line))
              (PyStr.splitlines lines)).

(** The loop over [permanent]. *)
Definition permanent_pass (head : string) (remotes permanent descendants : list string)
  : Prog bool :=
  for_until permanent (fun perm =>
    if mem perm descendants then
      dj <- first_of permanent ;;
      _request_removal head perm dj ;;
      Ret true
    else
      for_until remotes (fun remote =>
        let fullname := qualified remote perm in
        if mem fullname descendants then
          dj <- first_of permanent ;;
          _request_removal head fullname dj ;;
          Ret true
        else Ret false)).

(** The loop over [descendants]; [try_again] collects the names set
    aside, in the order of their insertion. *)
Fixpoint remote_pass (head : string) (permanent : list string)
  (others try_again : list string) : Prog (bool * list string) :=
  match others with
  | [] => Ret (false, try_again)
  | other :: rest =>
      if PyStr.startswith other "remotes/" then
        dj <- first_of permanent ;;
        ok <- _request_removal head other dj ;;
        if ok then Ret (true, try_again)
        else remote_pass head permanent rest try_again
      else remote_pass head permanent rest (try_again ++ [other])%list
  end.

(** The loop over [try_again]. *)
Definition local_pass (head : string) (permanent try_again : list string)
  : Prog bool :=
  for_until try_again (fun other =>
    dj <- first_of permanent ;;
    _request_removal head other dj).

(** What [_examine_branch] does once [descendants] is known. *)
Definition examine_descendants (head : string)
  (remotes permanent descendants : list string) : Prog unit :=
  returned <- permanent_pass head remotes permanent descendants ;;
  if returned then Ret tt
  else
    r <- remote_pass head permanent descendants [] ;;
    if fst r then Ret tt
    else local_pass head permanent (set_of (snd r)) ;; Ret tt.

Definition _examine_branch (head : string) (remotes permanent : list string)
  : Prog unit :=
  lines <- _run (contains_query head) ;;
  descendants <- set_remove head (containing_set lines) ;;
  examine_descendants head remotes permanent descendants.

(** ** Cleanup driver: [main] *)

Definition fetch_cmd (conf : Config) (remotes : list string) : list string :=
  (["git"; "fetch"; "--multiple"]
   ++ (if fetch_prune conf then ["--prune"] else [])
   ++ (if fetch_tags conf then ["--tags"] else [])
   ++ remotes)%list.

(** The loop over [repo.heads]. *)
Definition cleanup_loop (heads remotes permanent : list string) : Prog unit :=
  for_each heads (fun head =>
    if mem head permanent then
      secho "Not cleaning up permanent branch "
            (mkStyle (Some "blue") None None) false ;;
      secho head (mkStyle (Some "blue") (Some true) None) true
    else _examine_branch head remotes permanent).

(** [main(fetch, permanent, remote)]: the command-line argument [remote]
    is rebound to the dict of [_get_refs] before it is read.
    [hasattr(repo.heads, name)] is read as: [repo.heads] has a head of that
    name. *)
Definition main (fetch : option bool) (permanent remote_arg : list string)
  : Prog unit :=
  Vis OpenRepo (fun ok => if ok then Ret tt else Throw InvalidGitRepositoryError) ;;
  refs <- _get_refs ;;
  let remote := remote refs in
  conf <- Vis GetConfig Ret ;;
  let permanent :=
    match permanent with
    | [] => permanent_branches conf
    | _ => permanent
    end in
  let remotes :=
    match remote with
    | [] => upstream_names conf
    | _ => map fst remote
    end in
  match remotes with
  | [] => Throw (ClickException "No remotes nominated")
  | _ =>
      let fetch :=
        match fetch with
        | None => fetch_first conf
        | Some b => b
        end in
      (if fetch then
         secho ("Fetching from " ++ PyStr.join ", " remotes ++ " ...")
               (mkStyle (Some "cyan") None None) true ;;
         _run (fetch_cmd conf remotes) ;; Ret tt
       else Ret tt) ;;
      (if always_create_permanent_branches conf then
         for_each permanent (fun name =>
           heads <- Vis RepoHeads Ret ;;
           if mem name heads then Ret tt
           else _createPermanent name remotes)
       else Ret tt) ;;
      (if String.eqb (auto_fast_forward conf) "ff_permanent"
          || String.eqb (auto_fast_forward conf) "ff_all"
       then
         match remotes with
         | [r] => for_each permanent (fun name => _do_fast_forward name r false)
         | _ => Ret tt
         end
       else Ret tt) ;;
      (if String.eqb (auto_fast_forward conf) "ff_all"
       then Throw (PyException "TODO: auto-fast-forward other branches")
       else Ret tt) ;;
      heads <- Vis RepoHeads Ret ;;
      cleanup_loop heads remotes permanent
  end.

End Analyzer.

(** ** Running a program against its collaborators *)

Inductive Event : Type :=
| EvOpenRepo (ok : bool)
| EvGetConfig (conf : Config)
| EvRun (argv : list string) (out : option string)
| EvConfirm (msg : Message) (default : bool) (a : Answer)
| EvEcho (msg : Message) (nl : bool)
| EvActiveBranch (current : option string)
| EvCommitHexsha (head sha : string)
| EvRepoHeads (heads : list string)
| EvRepoRemotes (rs : list (string * list string))
| EvGitBranch (args : list string) (out : option string).

Definition event_of (c : Cmd) : Resp c -> Event :=
  match c with
  | OpenRepo => EvOpenRepo
  | GetConfig => EvGetConfig
  | Run argv => EvRun argv
  | Confirm msg d => EvConfirm msg d
  | Echo msg nl => fun _ => EvEcho msg nl
  | ActiveBranch => EvActiveBranch
  | CommitHexsha h => EvCommitHexsha h
  | RepoHeads => EvRepoHeads
  | RepoRemotes => EvRepoRemotes
  | GitBranch args => EvGitBranch args
  end.

Section Semantics.
Variable W : Type.
Variable handle : W -> forall c : Cmd, Resp c * W.

(** What a run leaves behind: each request with the state it was issued
    in and its answer, the last state, and the value returned or the
    exception that ended the run. *)
Record Outcome (A : Type) : Type := mkOutcome {
  trace : list (W * Event);
  final : W;
  result : Exn + A
}.
Arguments mkOutcome {A}.
Arguments trace {A}.
Arguments final {A}.
Arguments result {A}.

Fixpoint run {A : Type} (p : Prog A) (w : W) : Outcome A :=
  match p with
  | Ret a => mkOutcome [] w (inr a)
  | Throw e => mkOutcome [] w (inl e)
  | Vis c k =>
      let rw := handle w c in
      let o := run (k (fst rw)) (snd rw) in
      mkOutcome ((w, event_of c (fst rw)) :: trace o) (final o) (result o)
  end.

(** A run that starts with one more request. *)
Definition prepend {A : Type} (x : W * Event) (o : Outcome A) : Outcome A :=
  mkOutcome (x :: trace o) (final o) (result o).

(** A run whose returned value is dropped. *)
Definition ignore_value {A : Type} (o : Outcome A) : Outcome unit :=
  mkOutcome (trace o) (final o)
            match result o with
            | inl e => inl e
            | inr _ => inr tt
            end.

(** Sequencing two runs. *)
Definition then_run {A B : Type} (o : Outcome A) (f : A -> W -> Outcome B)
  : Outcome B :=
  match result o with
  | inl e => mkOutcome (trace o) (final o) (inl e)
  | inr a =>
      let o' := f a (final o) in
      mkOutcome (trace o ++ trace o')%list (final o') (result o')
  end.

End Semantics.

Arguments mkOutcome {W A}.
Arguments trace {W A}.
Arguments final {W A}.
Arguments result {W A}.
Arguments run {W} handle {A}.
Arguments then_run {W A B}.
Arguments prepend {W A}.
Arguments ignore_value {W A}.

(** ** Reading a trace *)

Definition events {W : Type} (tr : list (W * Event)) : list Event := map snd tr.

(** The prompts shown, each with the answer given. *)
Definition prompt_of (e : Event) : option (Message * bool * Answer) :=
  match e with
  | EvConfirm msg d a => Some (msg, d, a)
  | _ => None
  end.

Fixpoint prompts (es : list Event) : list (Message * bool * Answer) :=
  match es with
  | [] => []
  | e :: rest =>
      match prompt_of e with
      | Some p => p :: prompts rest
      | None => prompts rest
      end
  end.

(** The commands that change the repository: switching the checkout and
    deleting a local branch. *)
Inductive Mutation : Type :=
| Checkout (ref : string)
| Delete (branch : string).

Definition mutation_of (e : Event) : option Mutation :=
  match e with
  | EvRun ["git"; "checkout"; ref] _ => Some (Checkout ref)
  | EvRun ["git"; "branch"; "-D"; b] _ => Some (Delete b)
  | _ => None
  end.

Fixpoint mutations (es : list Event) : list Mutation :=
  match es with
  | [] => []
  | e :: rest =>
      match mutation_of e with
      | Some m => m :: mutations rest
      | None => mutations rest
      end
  end.

(** ** A reference repository

    The git side of the script is not in the source; this is a small model
    of the repository, the terminal and the configuration file to run the
    script against: local branches, the active branch, the remotes' refs,
    which refs contain which branch, and the answers the user will type. *)

Module Repo.

Record t : Type := mk {
  is_repo : bool;
  config : Config;
  heads : list string;          (* local branches, as [repo.heads] lists them *)
  active : option string;       (* the checked-out branch, [None] when detached *)
  remotes : list (string * list string);   (* each remote with its refs *)
  tag_names : list string;
  contains : string -> list string;        (* see below *)
  hexsha : string -> string;
  merge_base : string -> string -> string;
  fails : list string -> bool;  (* git commands that exit with an error *)
  answers : list Answer         (* what the user will type, prompt after prompt *)
}.

(** A remote's refs are named [remote/branch]; [contains w b] are the refs
    whose tip contains the tip of [b], [b] included, named the way
    [git branch --all] prints them. *)

Definition nl : string := String "010" EmptyString.

Definition unlines (l : list string) : string :=
  String.concat "" (map (fun s => s ++ nl) l).

Definition show_ref (w : t) : string :=
  let local_lines := map (fun h => hexsha w h ++ " refs/heads/" ++ h) (heads w) in
  let remote_lines :=
    flat_map (fun r : string * list string =>
                map (fun ref => hexsha w ("remotes/" ++ ref)
                                ++ " refs/remotes/" ++ ref) (snd r))
             (remotes w) in
  let tag_lines := map (fun g => hexsha w g ++ " refs/tags/" ++ g) (tag_names w) in
  unlines (app local_lines (app remote_lines tag_lines)).

(** [git branch --all --contains=b] lists the refs that exist. *)
Definition listed (w : t) (name : string) : bool :=
  if PyStr.startswith name "remotes/"
  then existsb (fun r : string * list string =>
                  mem (PyStr.drop 8 name) (snd r)) (remotes w)
  else mem name (heads w).

Definition branch_contains (w : t) (b : string) : string :=
  unlines
    (map (fun name => (if is_current name (active w) then "* " else "  ") ++ name)
         (filter (listed w) (contains w b))).

Fixpoint insert_sorted (x : string) (l : list string) : list string :=
  match l with
  | [] => [x]
  | y :: rest => if String.leb x y then x :: l else y :: insert_sorted x rest
  end.

Definition with_active (w : t) (a : option string) : t :=
  mk (is_repo w) (config w) (heads w) a (remotes w) (tag_names w)
     (contains w) (hexsha w) (merge_base w) (fails w) (answers w).

Definition with_heads (w : t) (hs : list string) : t :=
  mk (is_repo w) (config w) hs (active w) (remotes w) (tag_names w)
     (contains w) (hexsha w) (merge_base w) (fails w) (answers w).

Definition with_answers (w : t) (ans : list Answer) : t :=
  mk (is_repo w) (config w) (heads w) (active w) (remotes w) (tag_names w)
     (contains w) (hexsha w) (merge_base w) (fails w) ans.

(** The git executable. *)
Definition git (w : t) (argv : list string) : option string * t :=
  if fails w argv then (None, w)
  else
    match argv with
    | ["git"; "show-ref"] => (Some (show_ref w), w)
    | ["git"; "branch"; "--all"; arg] =>
        let b := PyStr.drop 11 arg in
        if PyStr.startswith arg "--contains=" && mem b (heads w)
        then (Some (branch_contains w b), w)
        else (None, w)
    | ["git"; "checkout"; ref] =>
        if mem ref (heads w) then (Some "", with_active w (Some ref))
        else if listed w ("remotes/" ++ ref) then (Some "", with_active w None)
        else (None, w)
    | ["git"; "branch"; "-D"; b] =>
        if mem b (heads w) && negb (is_current b (active w))
        then (Some "", with_heads w (discard b (heads w)))
        else (None, w)
    | ["git"; "merge-base"; a; b] => (Some (merge_base w a b ++ nl), w)
    | ["git"; "rev-parse"; "--verify"; a] => (Some (hexsha w a ++ nl), w)
    | "git" :: "fetch" :: _ => (Some "", w)
    | _ => (None, w)
    end.

Definition handle (w : t) (c : Cmd) : Resp c * t :=
  match c return Resp c * t with
  | OpenRepo => (is_repo w, w)
  | GetConfig => (config w, w)
  | Run argv => git w argv
  | Confirm _ _ =>
      match answers w with
      | a :: rest => (a, with_answers w rest)
      | [] => (AnsEmpty, w)
      end
  | Echo _ _ => (tt, w)
  | ActiveBranch => (active w, w)
  | CommitHexsha h => (hexsha w h, w)
  | RepoHeads => (heads w, w)
  | RepoRemotes => (remotes w, w)
  | GitBranch args =>
      match args with
      | ["--track"; name; start] =>
          if fails w ("git" :: "branch" :: args) || mem name (heads w)
             || negb (listed w ("remotes/" ++ start))
          then (None, w)
          else (Some "", with_heads w (insert_sorted name (heads w)))
      | _ => (None, w)
      end
  end.

End Repo.

(** ** The permanent-branch priority order, as specified

    For each permanent name in turn: the local ref first, then the ref of
    each remote in turn. *)

Definition permanent_candidates (remotes permanent : list string) : list string :=
  flat_map (fun perm => perm :: map (fun remote => qualified remote perm) remotes)
           permanent.

Definition first_permanent_match (remotes permanent descendants : list string)
  : option string :=
  find (fun c => mem c descendants) (permanent_candidates remotes permanent).

(** ** Scenarios

    A repository with two permanent branches and a feature branch merged
    into both, into a topic branch and into their copies on [origin]. *)

Definition merged_sha : string := "5f3c2a1b9d8e7f60".

Definition merged_repo (active : option string) (answers : list Answer) : Repo.t :=
  Repo.mk true
    (mkConfig ["main"; "develop"] false false true true "ff_none" ["origin"])
    ["develop"; "feature-x"; "main"; "topic"]
    active
    [("origin", ["origin/main"; "origin/topic"])]
    []
    (fun b => if String.eqb b "feature-x"
              then ["develop"; "feature-x"; "main"; "topic";
                    "remotes/origin/main"; "remotes/origin/topic"]
              else [b])
    (fun _ => merged_sha)
    (fun _ _ => merged_sha)
    (fun _ => false)
    answers.

(** ** Safe changes

    A deletion is safe when the branch is not the active checkout at the
    moment the command is issued; a checkout is the expected one when it
    goes to the fallback branch. *)

Definition safe_mutation (fallback : option string) (x : Repo.t * Event) : Prop :=
  match mutation_of (snd x) with
  | Some (Delete b) => Repo.active (fst x) <> Some b
  | Some (Checkout r) => fallback = Some r
  | None => True
  end.

(** ** The fallback pass, as specified

    The remaining descendants, remote-qualified ones first, are offered one
    after the other until the user confirms one. *)

Definition is_remote_qualified (name : string) : bool :=
  PyStr.startswith name "remotes/".

Definition fallback_candidates {HO : HashOrder} (descendants : list string)
  : list string :=
  (filter is_remote_qualified descendants
   ++ set_of (filter (fun name => negb (is_remote_qualified name)) descendants))%list.

Definition offer_in_turn (head p0 : string) (candidates : list string) : Prog bool :=
  for_until candidates (fun c => _request_removal head c p0).

(** The prompts [ps] are those for the candidates in their order, each with
    default "no", up to and including the first one accepted. *)
Fixpoint shown_in_turn (head : string) (candidates : list string)
  (ps : list (Message * bool * Answer)) : Prop :=
  match ps, candidates with
  | [], [] => True
  | (msg, d, a) :: ps', c :: rest =>
      msg = removal_msg head c /\ d = false
      /\ if accepted false a then ps' = [] else shown_in_turn head rest ps'
  | _, _ => False
  end.

Definition declined (p : Message * bool * Answer) : Prop :=
  accepted (snd (fst p)) (snd p) = false.

(** A repository where the feature branch is merged into no permanent
    branch, only into a topic branch and its copy on [origin]. *)
Definition topic_repo (active : option string) (answers : list Answer)
  (fails : list string -> bool) : Repo.t :=
  Repo.mk true
    (mkConfig ["main"] false false true true "ff_none" ["origin"])
    ["feature-x"; "main"; "topic"]
    active
    [("origin", ["origin/main"; "origin/topic"])]
    []
    (fun b => if String.eqb b "feature-x"
              then ["feature-x"; "topic"; "remotes/origin/topic"]
              else [b])
    (fun _ => merged_sha)
    (fun _ _ => merged_sha)
    fails
    answers.

(** ** Reading the driver's progress from a trace *)

(** The branches whose examination was started: those the
    containing-branches query was issued for. *)
Definition examined_of (e : Event) : option string :=
  match e with
  | EvRun ["git"; "branch"; "--all"; arg] _ => Some (PyStr.drop 11 arg)
  | _ => None
  end.

Fixpoint examined (es : list Event) : list string :=
  match es with
  | [] => []
  | e :: rest =>
      match examined_of e with
      | Some h => h :: examined rest
      | None => examined rest
      end
  end.

(** A run stops at the first git command that fails: the failed command is
    its last request and the run ends with the command's
    [CalledProcessError]. *)
Definition stops_at_failure {W A : Type} (o : Outcome W A) : Prop :=
  forall pre wi argv post,
    trace o = (pre ++ (wi, EvRun argv None) :: post)%list ->
    post = [] /\ result o = inl (CalledProcessError argv).

(** The feature branch cannot be queried (say its ref is damaged); the
    topic branch is fine. *)
Definition damaged_repo : Repo.t :=
  topic_repo None [AnsYes]
    (fun argv => if list_eq_dec string_dec argv (contains_query "feature-x")
                 then true else false).

(** The merge test of [_attempt_removal]: a [git merge-base] or a
    [git rev-parse] command. *)
Definition merge_check_of (e : Event) : bool :=
  match e with
  | EvRun ("git" :: "merge-base" :: _) _ => true
  | EvRun ("git" :: "rev-parse" :: _) _ => true
  | _ => false
  end.

Definition merge_checks (es : list Event) : list Event := filter merge_check_of es.

(** A prompt about [head] names one of [descendants] as the target. *)
Definition names_descendant (head : string) (descendants : list string)
  {W : Type} (x : W * Event) : Prop :=
  match snd x with
  | EvConfirm msg _ _ => exists t, In t descendants /\ msg = removal_msg head t
  | _ => True
  end.

(** A repository whose configuration file sets [permanent_branches] to
    the empty list. *)
Definition unprotected_repo : Repo.t :=
  Repo.mk true
    (mkConfig [] false false true true "ff_none" ["origin"])
    ["feature-x"; "topic"]
    None
    [("origin", ["origin/topic"])]
    []
    (fun b => if String.eqb b "feature-x" then ["feature-x"; "topic"] else [b])
    (fun _ => merged_sha)
    (fun _ _ => merged_sha)
    (fun _ => false)
    [AnsYes].

(** A repository without remotes, configured without upstream names. *)
Definition isolated_repo : Repo.t :=
  Repo.mk true
    (mkConfig ["main"] false false true true "ff_none" [])
    ["feature-x"; "main"]
    None
    []
    []
    (fun b => if String.eqb b "feature-x" then ["feature-x"; "main"] else [b])
    (fun _ => merged_sha)
    (fun _ _ => merged_sha)
    (fun _ => false)
    [AnsYes].

(** ** The driver's visits

    The loop of [main] either announces that it skips a branch or starts its
    examination. *)

Inductive Visit : Type :=
| Skipped (head : string)
| Examined (head : string).

Definition visit_of (e : Event) : option Visit :=
  match e with
  | EvEcho [Styled (mkStyle (Some "blue") (Some true) None) head] true =>
      Some (Skipped head)
  | EvRun ["git"; "branch"; "--all"; arg] _ => Some (Examined (PyStr.drop 11 arg))
  | _ => None
  end.

Fixpoint visits (es : list Event) : list Visit :=
  match es with
  | [] => []
  | e :: rest =>
      match visit_of e with
      | Some v => v :: visits rest
      | None => visits rest
      end
  end.

(** One visit for each listed branch, in the order of the listing. *)
Definition planned_visits (permanent heads : list string) : list Visit :=
  map (fun head => if mem head permanent then Skipped head else Examined head) heads.

(** A clone in which the permanent branch [develop] exists on [origin]
    only, configured to create permanent branches; the feature branch
    cannot be queried. *)
Definition fresh_clone : Repo.t :=
  Repo.mk true
    (mkConfig ["develop"] true false true true "ff_none" ["origin"])
    ["feature-x"; "topic"]
    (Some "topic")
    [("origin", ["origin/develop"; "origin/topic"])]
    []
    (fun b => if String.eqb b "feature-x" then ["feature-x"; "topic"] else [b])
    (fun _ => merged_sha)
    (fun _ _ => merged_sha)
    (fun argv => if list_eq_dec string_dec argv (contains_query "feature-x")
                 then true else false)
    [AnsYes].

(** ** Runs under two hash orders *)

(** A repository where the feature branch is merged into the topic branch
    of two remotes and into no permanent branch. *)
Definition forked_repo (answers : list Answer) : Repo.t :=
  Repo.mk true
    (mkConfig ["main"] false false true true "ff_none" ["origin"])
    ["feature-x"; "main"]
    (Some "main")
    [("fork", ["fork/topic"]); ("origin", ["origin/main"; "origin/topic"])]
    []
    (fun b => if String.eqb b "feature-x"
              then ["feature-x"; "remotes/fork/topic"; "remotes/origin/topic"]
              else [b])
    (fun _ => merged_sha)
    (fun _ _ => merged_sha)
    (fun _ => false)
    answers.

(** The messages of the prompts of a run, in the order shown. *)
Definition shown {W A : Type} (o : Outcome W A) : list Message :=
  map (fun p : Message * bool * Answer => fst (fst p))
      (prompts (events (trace o))).

(** A user who will refuse every prompt. *)
Definition declining (w : Repo.t) : Prop :=
  Forall (fun a => a <> AnsYes) (Repo.answers w).

(** Two runs that differ at most in the order of their prompts. *)
Definition same_up_to_prompt_order {A : Type} (o1 o2 : Outcome Repo.t A) : Prop :=
  Permutation (shown o1) (shown o2)
  /\ final o1 = final o2
  /\ result o1 = result o2.

(** ** Properties of runs *)

(** A property of every request of every run of a program. *)
Definition always {W : Type} (handle : W -> forall c : Cmd, Resp c * W)
  (P : W * Event -> Prop) {A : Type} (p : Prog A) : Prop :=
  forall w, Forall P (trace (run handle p w)).

(** Every run of a program stops at the first git command that fails. *)
Definition fail_stop {W : Type} (handle : W -> forall c : Cmd, Resp c * W)
  {A : Type} (p : Prog A) : Prop :=
  forall w, stops_at_failure (run handle p w).

Definition no_merge_check {W : Type} (x : W * Event) : Prop :=
  merge_check_of (snd x) = false.

Definition no_visit {W : Type} (x : W * Event) : Prop := visit_of (snd x) = None.

(** The request the permanent-branch pass makes on a match. *)
Definition report (head p0 target : string) : Prog bool :=
  _request_removal head target p0 ;; Ret true.

(** The reference repository once a prompt has been answered. *)
Definition answered (w : Repo.t) : Repo.t :=
  snd (Repo.handle w (Confirm [] false)).

Fixpoint answered_n (n : nat) (w : Repo.t) : Repo.t :=
  match n with
  | O => w
  | S n' => answered_n n' (answered w)
  end.

(** The permanent branches in force: the [-p] options, or else the
    configured ones. *)
Definition permanent_in_force (permanent_arg : list string) (conf : Config)
  : list string :=
  match permanent_arg with
  | [] => permanent_branches conf
  | _ => permanent_arg
  end.

Definition is_listing (e : Event) : bool :=
  match e with
  | EvRepoHeads _ => true
  | _ => false
  end.

(** The shape of a run of the driver, read from its requests [es] and its
    result: either it ended with an exception before visiting any branch, or
    its visits all follow one listing of [repo.heads], the last one, and go
    through the listed branches in order; [Q] is what is known of the
    requests before that listing. *)
Definition loop_follows_listing (Q : list Event -> Prop) (permanent : list string)
  (es : list Event) (res : Exn + unit) : Prop :=
  (visits es = [] /\ exists e, res = inl e)
  \/ exists pre heads post k,
       es = (pre ++ EvRepoHeads heads :: post)%list
       /\ Q pre
       /\ visits pre = []
       /\ Forall (fun e => is_listing e = false) post
       /\ visits post = firstn k (planned_visits permanent heads)
       /\ (res = inr tt -> visits post = planned_visits permanent heads).

Definition not_listing {W : Type} (x : W * Event) : Prop :=
  is_listing (snd x) = false.

(** A program whose every run has that shape, nothing being required of
    the requests before the listing. *)
Definition listing_then_loop {W : Type} (handle : W -> forall c : Cmd, Resp c * W)
  (permanent : list string) (p : Prog unit) : Prop :=
  forall w,
    loop_follows_listing (fun _ => True) permanent
      (events (trace (run handle p w))) (result (run handle p w)).

(** ** The driver after the configuration is read *)

(** The remotes in force: those that have refs in the inventory, or else
    the configured upstream names. *)
Definition remotes_in_force (refs : Refs) (conf : Config) : list string :=
  match remote refs with
  | [] => upstream_names conf
  | _ => map fst (remote refs)
  end.

(** The body of [main] from the check of the remote list on. *)
Definition after_config {HO : HashOrder} (fetch : option bool)
  (permanent remotes : list string) (conf : Config) : Prog unit :=
  match remotes with
  | [] => Throw (ClickException "No remotes nominated")
  | _ =>
      let fetch :=
        match fetch with
        | None => fetch_first conf
        | Some b => b
        end in
      (if fetch then
         secho ("Fetching from " ++ PyStr.join ", " remotes ++ " ...")
               (mkStyle (Some "cyan") None None) true ;;
         _run (fetch_cmd conf remotes) ;; Ret tt
       else Ret tt) ;;
      (if always_create_permanent_branches conf then
         for_each permanent (fun name =>
           heads <- Vis RepoHeads Ret ;;
           if mem name heads then Ret tt
           else _createPermanent name remotes)
       else Ret tt) ;;
      (if String.eqb (auto_fast_forward conf) "ff_permanent"
          || String.eqb (auto_fast_forward conf) "ff_all"
       then
         match remotes with
         | [r] => for_each permanent (fun name => _do_fast_forward name r false)
         | _ => Ret tt
         end
       else Ret tt) ;;
      (if String.eqb (auto_fast_forward conf) "ff_all"
       then Throw (PyException "TODO: auto-fast-forward other branches")
       else Ret tt) ;;
      heads <- Vis RepoHeads Ret ;;
      cleanup_loop heads remotes permanent
  end.

(** ** What the script asks for and what it raises

    The requests and the exceptions of [_request_removal], and those of the
    rest of [main]. *)

Inductive executor_request : Cmd -> Prop :=
| er_active : executor_request ActiveBranch
| er_confirm (head othername : string) :
    executor_request (Confirm (removal_msg head othername) false)
| er_checkout (defaultJump : string) :
    executor_request (Run ["git"; "checkout"; defaultJump])
| er_hexsha (head : string) : executor_request (CommitHexsha head)
| er_echo (head sha : string) : executor_request (Echo (deleting_msg head sha) true)
| er_delete (head : string) : executor_request (Run ["git"; "branch"; "-D"; head]).

Inductive driver_request : Cmd -> Prop :=
| dr_open : driver_request OpenRepo
| dr_show_ref : driver_request (Run ["git"; "show-ref"])
| dr_config : driver_request GetConfig
| dr_echo (text : string) (st : Style) (nl : bool) :
    driver_request (Echo [Styled st text] nl)
| dr_fetch (conf : Config) (remotes : list string) :
    driver_request (Run (fetch_cmd conf remotes))
| dr_heads : driver_request RepoHeads
| dr_remotes : driver_request RepoRemotes
| dr_track (name r : string) :
    driver_request (GitBranch ["--track"; name; r ++ "/" ++ name])
| dr_contains (head : string) : driver_request (Run (contains_query head)).

Inductive executor_exception : Exn -> Prop :=
| ee_checkout (defaultJump : string) :
    executor_exception (CalledProcessError ["git"; "checkout"; defaultJump])
| ee_delete (head : string) :
    executor_exception (CalledProcessError ["git"; "branch"; "-D"; head]).

Inductive driver_exception : Exn -> Prop :=
| de_repo : driver_exception InvalidGitRepositoryError
| de_show_ref : driver_exception (CalledProcessError ["git"; "show-ref"])
| de_value : driver_exception ValueError
| de_assert (ref : string) : driver_exception (AssertionError ref)
| de_unexpected (ref : string) :
    driver_exception (PyException ("Unexpected ref '" ++ ref ++ "'"))
| de_remotes : driver_exception (ClickException "No remotes nominated")
| de_fetch (conf : Config) (remotes : list string) :
    driver_exception (CalledProcessError (fetch_cmd conf remotes))
| de_track (name r : string) :
    driver_exception (GitCommandError ["--track"; name; r ++ "/" ++ name])
| de_todo_permanent : driver_exception (PyException "TODO: not complete")
| de_todo_all :
    driver_exception (PyException "TODO: auto-fast-forward other branches")
| de_contains (head : string) :
    driver_exception (CalledProcessError (contains_query head))
| de_key (head : string) : driver_exception (KeyError head)
| de_index : driver_exception IndexError.

(** ** Reading consent and deletions from a trace *)

(** What a run may ask of its collaborators: the five git commands of the
    script, [git branch --track] through GitPython, and prompts whose
    default answer is "no". *)
Definition expected_event (e : Event) : bool :=
  match e with
  | EvRun ["git"; "show-ref"] _ => true
  | EvRun ("git" :: "fetch" :: "--multiple" :: _) _ => true
  | EvRun ["git"; "branch"; "--all"; arg] _ => PyStr.startswith arg "--contains="
  | EvRun ["git"; "checkout"; _] _ => true
  | EvRun ["git"; "branch"; "-D"; _] _ => true
  | EvRun _ _ => false
  | EvGitBranch ["--track"; _; _] _ => true
  | EvGitBranch _ _ => false
  | EvConfirm _ d _ => negb d
  | _ => true
  end.

(** The branch an accepted removal prompt is about. *)
Definition consent_of (e : Event) : option string :=
  match e with
  | EvConfirm [Styled _ head; Plain " is merged to "; Styled _ _; Plain ". Delete it?"]
              d a =>
      if accepted d a then Some head else None
  | _ => None
  end.

Fixpoint consents (es : list Event) : list string :=
  match es with
  | [] => []
  | e :: rest =>
      match consent_of e with
      | Some h => h :: consents rest
      | None => consents rest
      end
  end.

(** The branch a [git branch -D] command is issued for. *)
Definition deletion_of (e : Event) : option string :=
  match mutation_of e with
  | Some (Delete b) => Some b
  | _ => None
  end.

Fixpoint deletions (es : list Event) : list string :=
  match es with
  | [] => []
  | e :: rest =>
      match deletion_of e with
      | Some b => b :: deletions rest
      | None => deletions rest
      end
  end.

(** The deletion commands of a run are those the user consented to, in the
    order of the consents; a consent is left [pending] only when the run
    ended with an exception right after it. *)
Definition consent_kept {W A : Type} (o : Outcome W A) : Prop :=
  exists pending,
    consents (events (trace o)) = (deletions (events (trace o)) ++ pending)%list
    /\ (forall a, result o = inr a -> pending = [])
    /\ List.length pending <= 1.

(** The requests of [main] before it reads the configuration. *)
Inductive early_event : Event -> Prop :=
| early_open (ok : bool) : early_event (EvOpenRepo ok)
| early_show_ref (out : option string) : early_event (EvRun ["git"; "show-ref"] out).

Definition is_config (e : Event) : bool :=
  match e with
  | EvGetConfig _ => true
  | _ => false
  end.

(** A program that ends with no other exception than those in [R]. *)
Definition raises {W : Type} (handle : W -> forall c : Cmd, Resp c * W)
  (R : Exn -> Prop) {A : Type} (p : Prog A) : Prop :=
  forall w e, result (run handle p w) = inl e -> R e.

(** No deletion of a branch of [permanent]. *)
Definition spares (permanent : list string) {W : Type} (x : W * Event) : Prop :=
  match deletion_of (snd x) with
  | Some b => ~ In b permanent
  | None => True
  end.

(** A request that is neither a visit of the driver, nor a prompt, nor a
    change of the repository. *)
Definition quiet {W : Type} (x : W * Event) : Prop :=
  visit_of (snd x) = None /\ prompt_of (snd x) = None /\ mutation_of (snd x) = None.

(** A program that always ends with an exception, after quiet requests. *)
Definition aborts {W : Type} (handle : W -> forall c : Cmd, Resp c * W)
  {A : Type} (p : Prog A) : Prop :=
  forall w,
    (exists e, result (run handle p w) = inl e)
    /\ Forall quiet (trace (run handle p w)).

(** The fast-forward step of [main] has something to do: the setting asks
    for all branches, or for the permanent ones and there is one remote and
    a permanent branch. *)
Definition fast_forward_due (conf : Config) (remotes permanent : list string)
  : bool :=
  String.eqb (auto_fast_forward conf) "ff_all"
  || (String.eqb (auto_fast_forward conf) "ff_permanent"
      && Nat.eqb (List.length remotes) 1
      && negb (Nat.eqb (List.length permanent) 0)).

(** A repository configured to fast-forward every branch. *)
Definition eager_repo : Repo.t :=
  Repo.mk true
    (mkConfig ["main"] false false true true "ff_all" ["origin"])
    ["feature-x"; "main"]
    None
    [("origin", ["origin/main"])]
    []
    (fun b => if String.eqb b "feature-x" then ["feature-x"; "main"] else [b])
    (fun _ => merged_sha)
    (fun _ _ => merged_sha)
    (fun _ => false)
    [AnsYes].

Definition is_fetch (e : Event) : bool :=
  match e with
  | EvRun ("git" :: "fetch" :: _) _ => true
  | _ => false
  end.

(** [fetch] after [if fetch is None: fetch = conf.get('fetch_first', True)]. *)
Definition fetch_in_force (fetch : option bool) (conf : Config) : bool :=
  match fetch with
  | None => fetch_first conf
  | Some b => b
  end.

(** The changes one examination may make: none, the deletion of the
    branch, or a checkout of the fallback branch followed or not by the
    deletion. *)
Definition one_change (head p0 : string) (ms : list Mutation) : Prop :=
  ms = [] \/ ms = [Delete head] \/ ms = [Checkout p0]
  \/ ms = [Checkout p0; Delete head].

(** [s] is [l] with some elements left out. *)
Fixpoint subseq (s l : list string) : bool :=
  match s, l with
  | [], _ => true
  | _ :: _, [] => false
  | x :: s', y :: l' => if String.eqb x y then subseq s' l' else subseq s l'
  end.

(** The listed branches the loop of [main] examines. *)
Definition examinable (permanent heads : list string) : list string :=
  filter (fun head => negb (mem head permanent)) heads.

(** [candidateRemotes] of [_createPermanent]: the nominated remotes that
    have a ref for the branch. *)
Definition candidate_remotes (name : string) (remotes : list string)
  (rs : list (string * list string)) : list (string * list string) :=
  filter (fun r : string * list string =>
            mem (fst r) remotes
            && existsb (fun ref => String.eqb ref (fst r ++ "/" ++ name)) (snd r))
         rs.

(** ** Well-formed listings *)












(** A clone whose remote cannot be reached. *)
Definition offline_repo : Repo.t :=
  Repo.mk true
    (mkConfig ["main"] false true true true "ff_none" ["origin"])
    ["feature-x"; "main"]
    (Some "main")
    [("origin", ["origin/main"])]
    []
    (fun b => if String.eqb b "feature-x" then ["feature-x"; "main"] else [b])
    (fun _ => merged_sha)
    (fun _ _ => merged_sha)
    (fun argv => match argv with
                 | "git" :: "fetch" :: _ => true
                 | _ => false
                 end)
    [AnsYes].

(** A program none of whose runs changes the repository when every prompt
    is declined. *)
Definition untouched {W : Type} (handle : W -> forall c : Cmd, Resp c * W)
  {A : Type} (p : Prog A) : Prop :=
  forall w,
    Forall declined (prompts (events (trace (run handle p w)))) ->
    mutations (events (trace (run handle p w))) = [].

(** * Properties *)

(** ** Sets *)

Lemma mem_In (x : string) (s : list string) : mem x s = true <-> In x s.
Proof.
  unfold mem. rewrite existsb_exists. split.
  - intros [y [Hy He]]. apply String.eqb_eq in He. now subst.
  - intros H. exists x. split; [assumption | apply String.eqb_refl].
Qed.

Lemma mem_false (x : string) (s : list string) : mem x s = false <-> ~ In x s.
Proof.
  rewrite <- mem_In. destruct (mem x s); split; congruence.
Qed.

Lemma discard_In (x y : string) (s : list string) :
  In y (discard x s) <-> In y s /\ y <> x.
Proof.
  unfold discard. rewrite filter_In. split.
  - intros [H Hn]. split; [assumption |].
    intros ->. rewrite String.eqb_refl in Hn. discriminate.
  - intros [H Hn]. split; [assumption |].
    destruct (String.eqb_spec x y); [congruence | reflexivity].
Qed.

Lemma discard_NoDup (x : string) (s : list string) :
  NoDup s -> NoDup (discard x s).
Proof. apply NoDup_filter. Qed.

(** ** Runs of composed programs *)

Section RunFacts.
Context {W : Type} (handle : W -> forall c : Cmd, Resp c * W).

Lemma run_bind {A B : Type} (p : Prog A) (f : A -> Prog B) (w : W) :
  run handle (bind p f) w = then_run (run handle p w) (fun a => run handle (f a)).
Proof.
  revert w. induction p as [a | e | c k IH]; intros w.
  - unfold then_run. simpl. now destruct (run handle (f a) w).
  - reflexivity.
  - simpl. rewrite IH. unfold then_run. simpl.
    now destruct (result (run handle (k (fst (handle w c))) (snd (handle w c)))).
Qed.

Lemma result_bind_inr {A B : Type} (p : Prog A) (f : A -> Prog B) (w : W) (b : B) :
  result (run handle (bind p f) w) = inr b ->
  exists a, result (run handle p w) = inr a
            /\ result (run handle (f a) (final (run handle p w))) = inr b.
Proof.
  rewrite run_bind. unfold then_run.
  destruct (result (run handle p w)) as [e | a]; cbn; [discriminate |].
  intros H. now exists a.
Qed.

Lemma then_run_assoc {A B C : Type} (o : Outcome W A)
  (f : A -> W -> Outcome W B) (g : B -> W -> Outcome W C) :
  then_run (then_run o f) g = then_run o (fun a w => then_run (f a w) g).
Proof.
  unfold then_run. destruct o as [tr w [e | a]]; cbn; [reflexivity |].
  destruct (f a w) as [tr' w' [e | b]]; cbn; [reflexivity |].
  now rewrite app_assoc.
Qed.

Lemma run_then_ret {A : Type} (p : Prog A) (w : W) :
  run handle (p ;; Ret tt) w = ignore_value (run handle p w).
Proof.
  rewrite run_bind. unfold then_run, ignore_value.
  destruct (run handle p w) as [tr w' [e | a]]; cbn; [reflexivity |].
  now rewrite app_nil_r.
Qed.

Lemma ignore_value_then_run {A B : Type} (o : Outcome W A)
  (f : A -> W -> Outcome W B) :
  ignore_value (then_run o f) = then_run o (fun a w => ignore_value (f a w)).
Proof.
  unfold then_run, ignore_value. now destruct o as [tr w [e | a]].
Qed.

Lemma always_ret (P : W * Event -> Prop) {A : Type} (a : A) : always handle P (Ret a).
Proof. intros w. constructor. Qed.

Lemma always_throw (P : W * Event -> Prop) {A : Type} (e : Exn) :
  always handle P (@Throw A e).
Proof. intros w. constructor. Qed.

Lemma always_vis (P : W * Event -> Prop) {A : Type} (c : Cmd)
  (k : Resp c -> Prog A) :
  (forall w, P (w, event_of c (fst (handle w c)))) ->
  (forall r, always handle P (k r)) ->
  always handle P (Vis c k).
Proof. intros Hc Hk w. simpl. constructor; [apply Hc | apply Hk]. Qed.

Lemma always_bind (P : W * Event -> Prop) {A B : Type} (p : Prog A)
  (f : A -> Prog B) :
  always handle P p -> (forall a, always handle P (f a)) -> always handle P (bind p f).
Proof.
  intros Hp Hf w. rewrite run_bind. unfold then_run.
  destruct (result (run handle p w)) as [e | a]; simpl.
  - apply Hp.
  - apply Forall_app. split; [apply Hp | apply Hf].
Qed.

Lemma always_bind_result (P : W * Event -> Prop) {A B : Type} (p : Prog A)
  (f : A -> Prog B) :
  always handle P p ->
  (forall a w, result (run handle p w) = inr a -> always handle P (f a)) ->
  always handle P (bind p f).
Proof.
  intros Hp Hf w. rewrite run_bind. unfold then_run.
  destruct (result (run handle p w)) as [e | a] eqn:Hr; simpl.
  - apply Hp.
  - apply Forall_app. split; [apply Hp | now apply (Hf a w)].
Qed.

Lemma always_for_each (P : W * Event -> Prop) {X : Type} (l : list X)
  (body : X -> Prog unit) :
  (forall x, In x l -> always handle P (body x)) -> always handle P (for_each l body).
Proof.
  induction l as [| x l IH]; intros H; simpl.
  - apply always_ret.
  - apply always_bind; [apply H; now left |].
    intros _. apply IH. intros y Hy. apply H. now right.
Qed.

Lemma always_for_until (P : W * Event -> Prop) {X : Type} (l : list X)
  (body : X -> Prog bool) :
  (forall x, In x l -> always handle P (body x)) -> always handle P (for_until l body).
Proof.
  induction l as [| x l IH]; intros H; simpl.
  - apply always_ret.
  - apply always_bind; [apply H; now left |].
    intros [|]; [apply always_ret |].
    apply IH. intros y Hy. apply H. now right.
Qed.

End RunFacts.

(** ** The descendants of a branch *)

Section Descendants.
Context {HO : HashOrder} {W : Type} (handle : W -> forall c : Cmd, Resp c * W).

Lemma run_examine_branch (w : W) (head : string) (remotes permanent : list string) :
  run handle (_examine_branch head remotes permanent) w
  = match fst (handle w (Run (contains_query head))) with
    | None =>
        mkOutcome [(w, EvRun (contains_query head) None)]
                  (snd (handle w (Run (contains_query head))))
                  (inl (CalledProcessError (contains_query head)))
    | Some lines =>
        prepend (w, EvRun (contains_query head) (Some lines))
          (if mem head (containing_set lines) then
             run handle (examine_descendants head remotes permanent
                           (discard head (containing_set lines)))
                 (snd (handle w (Run (contains_query head))))
           else
             mkOutcome [] (snd (handle w (Run (contains_query head))))
                       (inl (KeyError head)))
    end.
Proof.
  unfold _examine_branch, _run. cbn [bind run].
  destruct (handle w (Run (contains_query head))) as [[lines |] w1];
    cbn [fst snd bind run]; [| reflexivity].
  unfold set_remove.
  destruct (mem head (containing_set lines)); reflexivity.
Qed.

(** C10: when the names printed by the containing-branches query include
    the examined branch, the analysis proceeds on those names without the
    branch itself; when they do not, it stops with [KeyError] before any
    candidate is looked at. *)
Theorem descendants_exclude_head (w : W) (head : string)
  (remotes permanent : list string) (lines : string) :
  fst (handle w (Run (contains_query head))) = Some lines ->
  let names := containing_set lines in
  let w1 := snd (handle w (Run (contains_query head))) in
  let o := run handle (_examine_branch head remotes permanent) w in
  (In head names ->
   let descendants := discard head names in
   (forall x, In x descendants <-> In x names /\ x <> head)
   /\ ~ In head descendants
   /\ NoDup descendants
   /\ o = prepend (w, EvRun (contains_query head) (Some lines))
            (run handle (examine_descendants head remotes permanent descendants) w1))
  /\ (~ In head names ->
      o = mkOutcome [(w, EvRun (contains_query head) (Some lines))] w1
                    (inl (KeyError head))).
Proof.
  intros Hq names w1 o. subst o. rewrite run_examine_branch, Hq. fold names w1.
  split.
  - intros Hin descendants. split; [| split; [| split]].
    + intros x. apply discard_In.
    + subst descendants. rewrite discard_In. tauto.
    + apply discard_NoDup, set_of_NoDup.
    + apply mem_In in Hin. now rewrite Hin.
  - intros Hnin. apply mem_false in Hnin. now rewrite Hnin.
Qed.

End Descendants.

Lemma descendants_exclude_head_witness :
  let w := merged_repo None [AnsNo] in
  let lines := Repo.branch_contains w "feature-x" in
  fst (Repo.handle w (Run (contains_query "feature-x"))) = Some lines
  /\ containing_set lines
     = ["develop"; "feature-x"; "main"; "topic";
        "remotes/origin/main"; "remotes/origin/topic"]
  /\ (In "feature-x" (containing_set lines) ->
      (forall x, In x (discard "feature-x" (containing_set lines))
                 <-> In x (containing_set lines) /\ x <> "feature-x")
      /\ ~ In "feature-x" (discard "feature-x" (containing_set lines))
      /\ NoDup (discard "feature-x" (containing_set lines))
      /\ run Repo.handle (_examine_branch "feature-x" ["origin"] ["main"; "develop"]) w
         = prepend (w, EvRun (contains_query "feature-x") (Some lines))
             (run Repo.handle
                (examine_descendants "feature-x" ["origin"] ["main"; "develop"]
                   (discard "feature-x" (containing_set lines)))
                (snd (Repo.handle w (Run (contains_query "feature-x"))))))
  /\ (~ In "feature-x" (containing_set lines) ->
      run Repo.handle (_examine_branch "feature-x" ["origin"] ["main"; "develop"]) w
      = mkOutcome [(w, EvRun (contains_query "feature-x") (Some lines))]
          (snd (Repo.handle w (Run (contains_query "feature-x"))))
          (inl (KeyError "feature-x"))).
Proof.
  intros w lines.
  assert (Hq : fst (Repo.handle w (Run (contains_query "feature-x"))) = Some lines)
    by reflexivity.
  split; [exact Hq |]. split; [reflexivity |].
  exact (descendants_exclude_head Repo.handle w "feature-x" ["origin"]
           ["main"; "develop"] lines Hq).
Defined.

(** Follow a run one request at a time: name the answer to the next
    request and split on the exit status of a git command. *)
Ltac answer h :=
  match goal with
  | |- context [h ?w ?c] =>
      let r := fresh "r" in
      let w' := fresh "w" in
      destruct (h w c) as [r w'] eqn:?; cbn [fst snd] in *
  | |- context [match ?r with Some _ => _ | None => _ end] => is_var r; destruct r
  end; cbn [bind run].

Ltac answer_all h := repeat answer h.

(** ** The executor *)

Section Executor.
Context {W : Type} (handle : W -> forall c : Cmd, Resp c * W).

(** A declined prompt: two requests, the active branch and the prompt. *)
Lemma request_removal_declined (w : W) (head othername defaultJump : string) :
  let cur := fst (handle w ActiveBranch) in
  let w1 := snd (handle w ActiveBranch) in
  let a := fst (handle w1 (Confirm (removal_msg head othername) false)) in
  let w2 := snd (handle w1 (Confirm (removal_msg head othername) false)) in
  accepted false a = false ->
  run handle (_request_removal head othername defaultJump) w
  = mkOutcome [(w, EvActiveBranch cur);
               (w1, EvConfirm (removal_msg head othername) false a)]
              w2 (inr false).
Proof.
  intros cur w1 a w2 Ha. subst cur w1 a w2.
  unfold _request_removal, current_branch, confirm. cbn [bind run].
  destruct (handle w ActiveBranch) as [cur w1]; cbn [fst snd] in *.
  destruct (handle w1 (Confirm (removal_msg head othername) false)) as [a w2];
    cbn [fst snd] in *.
  rewrite Ha. reflexivity.
Qed.

(** Every call shows exactly one prompt, naming the branch and the target,
    with default "no". *)
Lemma request_removal_prompts (w : W) (head othername defaultJump : string) :
  let w1 := snd (handle w ActiveBranch) in
  let a := fst (handle w1 (Confirm (removal_msg head othername) false)) in
  prompts (events (trace (run handle (_request_removal head othername defaultJump) w)))
  = [(removal_msg head othername, false, a)].
Proof.
  intros w1 a. subst w1 a.
  unfold _request_removal, current_branch, confirm, _run, echo. cbn [bind run].
  destruct (handle w ActiveBranch) as [cur w1]; cbn [fst snd] in *.
  destruct (handle w1 (Confirm (removal_msg head othername) false)) as [a w2];
    cbn [fst snd] in *.
  destruct (accepted false a); [| reflexivity].
  destruct (is_current head cur); cbn [bind run]; answer_all handle; reflexivity.
Qed.

(** The value returned tells whether the user accepted. *)
Lemma request_removal_result (w : W) (head othername defaultJump : string) (b : bool) :
  let w1 := snd (handle w ActiveBranch) in
  let a := fst (handle w1 (Confirm (removal_msg head othername) false)) in
  result (run handle (_request_removal head othername defaultJump) w) = inr b ->
  b = accepted false a.
Proof.
  intros w1 a. subst w1 a.
  unfold _request_removal, current_branch, confirm, _run, echo. cbn [bind run].
  destruct (handle w ActiveBranch) as [cur w1]; cbn [fst snd] in *.
  destruct (handle w1 (Confirm (removal_msg head othername) false)) as [a w2];
    cbn [fst snd] in *.
  destruct (accepted false a); [| cbn; congruence].
  destruct (is_current head cur); cbn [bind run]; answer_all handle;
    cbn; congruence.
Qed.

(** The commands that change the repository, for each course a call can
    take. *)
Lemma request_removal_mutations (w : W) (head othername defaultJump : string) :
  let cur := fst (handle w ActiveBranch) in
  let w1 := snd (handle w ActiveBranch) in
  let a := fst (handle w1 (Confirm (removal_msg head othername) false)) in
  let w2 := snd (handle w1 (Confirm (removal_msg head othername) false)) in
  let switched := fst (handle w2 (Run ["git"; "checkout"; defaultJump])) in
  mutations (events (trace (run handle (_request_removal head othername defaultJump) w)))
  = if accepted false a then
      if is_current head cur then
        match switched with
        | Some _ => [Checkout defaultJump; Delete head]
        | None => [Checkout defaultJump]
        end
      else [Delete head]
    else [].
Proof.
  intros cur w1 a w2 switched. subst cur w1 a w2 switched.
  unfold _request_removal, current_branch, confirm, _run, echo. cbn [bind run].
  destruct (handle w ActiveBranch) as [cur w1]; cbn [fst snd] in *.
  destruct (handle w1 (Confirm (removal_msg head othername) false)) as [a w2];
    cbn [fst snd] in *.
  destruct (accepted false a); [| reflexivity].
  destruct (is_current head cur); cbn [bind run]; answer_all handle; reflexivity.
Qed.

End Executor.

(** ** The permanent-branch pass *)

Lemma find_app {X : Type} (f : X -> bool) (l1 l2 : list X) :
  find f (l1 ++ l2)%list
  = match find f l1 with
    | Some x => Some x
    | None => find f l2
    end.
Proof.
  induction l1 as [| x l1 IH]; simpl; [reflexivity |].
  now destruct (f x).
Qed.

Section PermanentPass.
Context {W : Type} (handle : W -> forall c : Cmd, Resp c * W).

(** A body that ends with the function's [return] ends the loop. *)
Lemma then_run_returned (o : Outcome W bool) (q : Prog bool) :
  result o <> inr false ->
  then_run o (fun returned => run handle (if returned then Ret true else q)) = o.
Proof.
  intros H. unfold then_run. destruct o as [tr w' [e | [|]]]; cbn in *.
  - reflexivity.
  - now rewrite app_nil_r.
  - congruence.
Qed.

Lemma result_then_return {A : Type} (p : Prog A) (w : W) :
  result (run handle (p ;; Ret true) w) <> inr false.
Proof.
  rewrite run_bind. unfold then_run.
  destruct (result (run handle p w)); cbn; congruence.
Qed.

Variables (head : string) (descendants : list string).
Variables (p0 : string) (others : list string).

Lemma run_remote_loop (perm : string) (remotes : list string) (w : W) :
  run handle
    (for_until remotes (fun remote =>
       let fullname := qualified remote perm in
       if mem fullname descendants then
         dj <- first_of (p0 :: others) ;;
         _request_removal head fullname dj ;;
         Ret true
       else Ret false)) w
  = match find (fun c => mem c descendants)
               (map (fun remote => qualified remote perm) remotes) with
    | Some t => run handle (report head p0 t) w
    | None => mkOutcome [] w (inr false)
    end.
Proof.
  induction remotes as [| remote remotes IH]; [reflexivity |].
  cbn [for_until map find].
  destruct (mem (qualified remote perm) descendants).
  - rewrite run_bind. cbn [first_of bind].
    apply then_run_returned, result_then_return.
  - cbn [bind]. apply IH.
Qed.

Lemma run_permanent_loop (remotes perms : list string) (w : W) :
  run handle
    (for_until perms (fun perm =>
       if mem perm descendants then
         dj <- first_of (p0 :: others) ;;
         _request_removal head perm dj ;;
         Ret true
       else
         for_until remotes (fun remote =>
           let fullname := qualified remote perm in
           if mem fullname descendants then
             dj <- first_of (p0 :: others) ;;
             _request_removal head fullname dj ;;
             Ret true
           else Ret false))) w
  = match first_permanent_match remotes perms descendants with
    | Some t => run handle (report head p0 t) w
    | None => mkOutcome [] w (inr false)
    end.
Proof.
  unfold first_permanent_match, permanent_candidates.
  induction perms as [| perm perms IH]; [reflexivity |].
  cbn [for_until flat_map]. rewrite <- app_comm_cons. cbn [find].
  destruct (mem perm descendants).
  - rewrite run_bind. cbn [first_of bind].
    apply then_run_returned, result_then_return.
  - rewrite find_app, run_bind, run_remote_loop.
    destruct (find _ (map _ remotes)) as [t |].
    + apply then_run_returned, result_then_return.
    + unfold then_run. cbn [result trace final app]. rewrite IH.
      now destruct (find _ _); [destruct (run handle (report head p0 s) w) |].
Qed.

End PermanentPass.

Section PermanentTarget.
Context {HO : HashOrder} {W : Type} (handle : W -> forall c : Cmd, Resp c * W).

Lemma run_permanent_pass (w : W) (head : string)
  (remotes permanent descendants : list string) :
  run handle (permanent_pass head remotes permanent descendants) w
  = match first_permanent_match remotes permanent descendants with
    | Some t => run handle (report head (hd "" permanent) t) w
    | None => mkOutcome [] w (inr false)
    end.
Proof.
  destruct permanent as [| p0 others]; [reflexivity |].
  apply run_permanent_loop.
Qed.

(** With a permanent match, the examination is the one request about it. *)
Lemma run_examine_matched (w : W) (head : string)
  (remotes permanent descendants : list string) (t : string) :
  first_permanent_match remotes permanent descendants = Some t ->
  run handle (examine_descendants head remotes permanent descendants) w
  = ignore_value (run handle (_request_removal head t (hd "" permanent)) w).
Proof.
  intros Hm. unfold examine_descendants.
  rewrite run_bind, run_permanent_pass, Hm.
  unfold report. rewrite run_bind. unfold then_run, ignore_value.
  destruct (run handle (_request_removal head t (hd "" permanent)) w)
    as [tr w' [e | b]]; cbn; [reflexivity |].
  now rewrite !app_nil_r.
Qed.

Lemma first_permanent_match_exists (remotes permanent descendants : list string)
  (c : string) :
  In c (permanent_candidates remotes permanent) -> In c descendants ->
  exists t, first_permanent_match remotes permanent descendants = Some t.
Proof.
  intros Hc Hd. unfold first_permanent_match.
  destruct (find _ _) as [t |] eqn:Hf; [now exists t |].
  apply (find_none _ _ Hf) in Hc. apply mem_In in Hd. congruence.
Qed.

Lemma permanent_candidates_nonempty (remotes permanent : list string) (c : string) :
  In c (permanent_candidates remotes permanent) ->
  exists p0 others, permanent = p0 :: others.
Proof.
  destruct permanent as [| p0 others]; [contradiction | eauto].
Qed.

(** C1: when a permanent branch, local or remote-qualified, is among the
    descendants of the examined branch, the one target the examination
    reports is the first match in the nested order (each permanent name in
    turn, its local ref before its ref on each remote in turn): the only
    prompt shown names that target, whatever else the descendants hold. *)
Theorem permanent_match_is_reported (w : W) (head : string)
  (remotes permanent : list string) (lines c : string) :
  fst (handle w (Run (contains_query head))) = Some lines ->
  In head (containing_set lines) ->
  let descendants := discard head (containing_set lines) in
  let w1 := snd (handle w (Run (contains_query head))) in
  let o := run handle (_examine_branch head remotes permanent) w in
  In c (permanent_candidates remotes permanent) -> In c descendants ->
  exists t p0 others a,
    first_permanent_match remotes permanent descendants = Some t
    /\ In t (permanent_candidates remotes permanent)
    /\ permanent = p0 :: others
    /\ o = prepend (w, EvRun (contains_query head) (Some lines))
             (ignore_value (run handle (_request_removal head t p0) w1))
    /\ prompts (events (trace o)) = [(removal_msg head t, false, a)].
Proof.
  intros Hq Hin descendants w1 o Hc Hd.
  destruct (first_permanent_match_exists _ _ _ _ Hc Hd) as [t Ht].
  destruct (permanent_candidates_nonempty _ _ _ Hc) as [p0 [others Hp]].
  exists t, p0, others.
  exists (fst (handle (snd (handle w1 ActiveBranch))
                      (Confirm (removal_msg head t) false))).
  assert (Ho : o = prepend (w, EvRun (contains_query head) (Some lines))
                 (ignore_value (run handle (_request_removal head t p0) w1))).
  { subst o. rewrite run_examine_branch, Hq.
    apply mem_In in Hin. rewrite Hin. fold descendants w1.
    rewrite (run_examine_matched _ _ _ _ _ t Ht). now rewrite Hp. }
  split; [assumption |]. split.
  { unfold first_permanent_match in Ht. now apply find_some in Ht. }
  split; [assumption |]. split; [assumption |].
  rewrite Ho. cbn [prepend ignore_value trace events map prompts prompt_of snd].
  apply (request_removal_prompts handle w1).
Qed.

End PermanentTarget.

Lemma permanent_match_is_reported_witness :
  let w := merged_repo None [AnsNo] in
  let lines := Repo.branch_contains w "feature-x" in
  (fst (Repo.handle w (Run (contains_query "feature-x"))) = Some lines
   /\ In "feature-x" (containing_set lines)
   /\ In "develop" (permanent_candidates ["origin"] ["main"; "develop"])
   /\ In "develop" (discard "feature-x" (containing_set lines)))
  /\ exists t p0 others a,
       first_permanent_match ["origin"] ["main"; "develop"]
         (discard "feature-x" (containing_set lines)) = Some t
       /\ In t (permanent_candidates ["origin"] ["main"; "develop"])
       /\ ["main"; "develop"] = p0 :: others
       /\ run Repo.handle (_examine_branch "feature-x" ["origin"] ["main"; "develop"]) w
          = prepend (w, EvRun (contains_query "feature-x") (Some lines))
              (ignore_value
                 (run Repo.handle (_request_removal "feature-x" t p0)
                    (snd (Repo.handle w (Run (contains_query "feature-x"))))))
       /\ prompts (events (trace
            (run Repo.handle (_examine_branch "feature-x" ["origin"] ["main"; "develop"]) w)))
          = [(removal_msg "feature-x" t, false, a)].
Proof.
  intros w lines.
  assert (H1 : fst (Repo.handle w (Run (contains_query "feature-x"))) = Some lines)
    by reflexivity.
  assert (H2 : In "feature-x" (containing_set lines))
    by (apply mem_In; reflexivity).
  assert (H3 : In "develop" (permanent_candidates ["origin"] ["main"; "develop"]))
    by (apply mem_In; reflexivity).
  assert (H4 : In "develop" (discard "feature-x" (containing_set lines)))
    by (apply mem_In; reflexivity).
  split; [now repeat split |].
  exact (permanent_match_is_reported Repo.handle w "feature-x" ["origin"]
           ["main"; "develop"] lines "develop" H1 H2 H3 H4).
Defined.

(** The priority order on the scenario: merged into both [main] and
    [develop], the branch is reported as merged to [main]. *)
Example priority_order_main_first :
  let w := merged_repo None [AnsNo] in
  first_permanent_match ["origin"] ["main"; "develop"]
    (discard "feature-x" (containing_set (Repo.branch_contains w "feature-x")))
  = Some "main"
  /\ prompts (events (trace
       (run Repo.handle (_examine_branch "feature-x" ["origin"] ["main"; "develop"]) w)))
     = [(removal_msg "feature-x" "main", false, AnsNo)].
Proof. split; reflexivity. Qed.

(** ** Declining a prompt *)

Lemma repo_active_branch (w : Repo.t) : Repo.handle w ActiveBranch = (Repo.active w, w).
Proof. reflexivity. Qed.

Lemma repo_confirm_state (w : Repo.t) (msg : Message) (d : bool) :
  Repo.heads (snd (Repo.handle w (Confirm msg d))) = Repo.heads w
  /\ Repo.active (snd (Repo.handle w (Confirm msg d))) = Repo.active w.
Proof. cbn. destruct (Repo.answers w); split; reflexivity. Qed.

(** C4: the prompt of the executor is issued with default "no", under which
    an empty answer counts as a refusal; after a refusal ("no" or empty) the
    call returns [false] having asked for nothing but the active branch and
    the answer: no checkout, no deletion, and in the reference repository the
    local branches and the active branch are what they were. *)
Theorem declined_prompt_changes_nothing :
  accepted false AnsEmpty = false
  /\ (forall (W : Type) (handle : W -> forall c : Cmd, Resp c * W) (w : W)
        (head othername defaultJump : string),
      let cur := fst (handle w ActiveBranch) in
      let w1 := snd (handle w ActiveBranch) in
      let a := fst (handle w1 (Confirm (removal_msg head othername) false)) in
      let w2 := snd (handle w1 (Confirm (removal_msg head othername) false)) in
      let o := run handle (_request_removal head othername defaultJump) w in
      prompts (events (trace o)) = [(removal_msg head othername, false, a)]
      /\ (a <> AnsYes ->
          o = mkOutcome [(w, EvActiveBranch cur);
                         (w1, EvConfirm (removal_msg head othername) false a)]
                        w2 (inr false)
          /\ mutations (events (trace o)) = []))
  /\ (forall (w : Repo.t) (head othername defaultJump : string),
      let o := run Repo.handle (_request_removal head othername defaultJump) w in
      fst (Repo.handle w (Confirm (removal_msg head othername) false)) <> AnsYes ->
      result o = inr false
      /\ Repo.heads (final o) = Repo.heads w
      /\ Repo.active (final o) = Repo.active w).
Proof.
  split; [reflexivity |]. split.
  - intros W handle w head othername defaultJump cur w1 a w2 o.
    split; [apply request_removal_prompts |].
    intros Ha.
    assert (Hd : accepted false a = false) by (destruct a; [congruence | | ]; reflexivity).
    subst o. rewrite (request_removal_declined handle w head othername defaultJump Hd).
    split; reflexivity.
  - intros w head othername defaultJump o Ha.
    assert (Hd : accepted false
                   (fst (Repo.handle (snd (Repo.handle w ActiveBranch))
                           (Confirm (removal_msg head othername) false))) = false).
    { rewrite repo_active_branch. cbn [snd].
      destruct (fst (Repo.handle w (Confirm (removal_msg head othername) false)));
        [congruence | | ]; reflexivity. }
    subst o.
    rewrite (request_removal_declined Repo.handle w head othername defaultJump Hd).
    cbn [result final]. split; [reflexivity |].
    rewrite repo_active_branch. cbn [snd]. apply repo_confirm_state.
Qed.

Lemma declined_prompt_changes_nothing_witness :
  let w := merged_repo (Some "feature-x") [AnsEmpty] in
  let o := run Repo.handle (_request_removal "feature-x" "main" "main") w in
  fst (Repo.handle w (Confirm (removal_msg "feature-x" "main") false)) <> AnsYes
  /\ result o = inr false
  /\ Repo.heads (final o) = ["develop"; "feature-x"; "main"; "topic"]
  /\ Repo.active (final o) = Some "feature-x".
Proof.
  intros w o.
  assert (Ha : fst (Repo.handle w (Confirm (removal_msg "feature-x" "main") false))
               <> AnsYes) by (vm_compute; discriminate).
  split; [exact Ha |].
  exact (proj2 (proj2 declined_prompt_changes_nothing) w "feature-x" "main" "main" Ha).
Defined.

(** ** Deleting the active branch *)

Lemma is_current_true (x : string) (current : option string) :
  is_current x current = true <-> current = Some x.
Proof.
  destruct current as [c |]; simpl; [| split; discriminate].
  rewrite String.eqb_eq. split; congruence.
Qed.

Lemma is_current_false (x : string) (current : option string) :
  is_current x current = false <-> current <> Some x.
Proof.
  rewrite <- is_current_true. destruct (is_current x current); split; congruence.
Qed.

Lemma first_of_result {W : Type} (handle : W -> forall c : Cmd, Resp c * W)
  (permanent : list string) (w : W) (p0 : string) :
  result (run handle (first_of permanent) w) = inr p0 -> hd_error permanent = Some p0.
Proof. destruct permanent; simpl; congruence. Qed.

Lemma always_first_of {W : Type} (handle : W -> forall c : Cmd, Resp c * W)
  (P : W * Event -> Prop) (permanent : list string) :
  always handle P (first_of permanent).
Proof. destruct permanent; [apply always_throw | apply always_ret]. Qed.

Lemma repo_commit_hexsha (w : Repo.t) (h : string) :
  Repo.handle w (CommitHexsha h) = (Repo.hexsha w h, w).
Proof. reflexivity. Qed.

(** After a checkout that succeeded, the active branch is the one asked
    for, or the head is detached. *)
Lemma repo_checkout (w w' : Repo.t) (ref out : string) :
  Repo.handle w (Run ["git"; "checkout"; ref]) = (Some out, w') ->
  Repo.active w' = Some ref \/ Repo.active w' = None.
Proof.
  cbn [Repo.handle]. unfold Repo.git.
  destruct (Repo.fails w _); [discriminate |].
  destruct (mem ref (Repo.heads w)); [intros [= _ <-]; now left |].
  destruct (Repo.listed w _); [intros [= _ <-]; now right | discriminate].
Qed.

(** One call of the executor on the reference repository. *)
Lemma request_removal_safe (head othername defaultJump : string) :
  head <> defaultJump ->
  always Repo.handle (safe_mutation (Some defaultJump))
         (_request_removal head othername defaultJump).
Proof.
  intros Hne w.
  unfold _request_removal, current_branch, confirm, _run, echo.
  cbn [bind run]. rewrite repo_active_branch. cbn [fst snd].
  destruct (repo_confirm_state w (removal_msg head othername) false) as [_ Hact].
  destruct (Repo.handle w (Confirm (removal_msg head othername) false))
    as [a w2]; cbn [fst snd] in *.
  constructor; [exact I |]. constructor; [exact I |].
  destruct (accepted false a); cbn [bind run trace]; [| constructor].
  destruct (is_current head (Repo.active w)) eqn:Hcur; cbn [bind run trace].
  - destruct (Repo.handle w2 (Run ["git"; "checkout"; defaultJump]))
      as [[out |] w3] eqn:Hco; cbn [fst snd bind run trace].
    + constructor; [reflexivity |].
      rewrite repo_commit_hexsha. cbn [fst snd bind run trace].
      constructor; [exact I |]. constructor; [exact I |].
      constructor.
      * unfold safe_mutation. cbn.
        destruct (repo_checkout _ _ _ _ Hco) as [H | H]; rewrite H; congruence.
      * destruct (fst (Repo.handle w3 _)); constructor.
    + constructor; [reflexivity | constructor].
  - apply is_current_false in Hcur.
    rewrite repo_commit_hexsha. cbn [fst snd bind run trace].
    constructor; [exact I |]. constructor; [exact I |].
    constructor.
    + unfold safe_mutation. cbn. congruence.
    + destruct (fst (Repo.handle w2 _)); constructor.
Qed.

Section Examination.
Context {HO : HashOrder} {W : Type} (handle : W -> forall c : Cmd, Resp c * W).
Variable P : W * Event -> Prop.
Variables (head : string) (remotes permanent descendants : list string).

(** What holds of every call of the executor on a descendant, with the
    first permanent branch as fallback, holds of the whole examination. *)
Hypothesis P_request :
  forall other p0,
    hd_error permanent = Some p0 -> In other descendants ->
    always handle P (_request_removal head other p0).

Lemma always_request_first (other : string) :
  In other descendants ->
  always handle P (dj <- first_of permanent ;; _request_removal head other dj).
Proof.
  intros Hin. apply always_bind_result; [apply always_first_of |].
  intros p0 w Hp0. apply P_request; [| assumption].
  now apply (first_of_result handle permanent w).
Qed.

Lemma always_permanent_pass :
  always handle P (permanent_pass head remotes permanent descendants).
Proof.
  unfold permanent_pass. apply always_for_until. intros perm _.
  destruct (mem perm descendants) eqn:Hm.
  - apply mem_In in Hm.
    apply always_bind_result; [apply always_first_of |].
    intros p0 w Hp0. apply always_bind; [| intros _; apply always_ret].
    apply P_request; [| assumption].
    now apply (first_of_result handle permanent w).
  - apply always_for_until. intros remote _. cbv zeta.
    destruct (mem (qualified remote perm) descendants) eqn:Hq;
      [| apply always_ret].
    apply mem_In in Hq.
    apply always_bind_result; [apply always_first_of |].
    intros p0 w Hp0. apply always_bind; [| intros _; apply always_ret].
    apply P_request; [| assumption].
    now apply (first_of_result handle permanent w).
Qed.

Lemma remote_pass_result (others try_again : list string) (w : W)
  (r : bool * list string) :
  result (run handle (remote_pass head permanent others try_again) w) = inr r ->
  incl (snd r) (try_again ++ others).
Proof.
  revert try_again w. induction others as [| other rest IH]; intros try_again w.
  - cbn. intros [= <-]. cbn. now rewrite app_nil_r.
  - cbn [remote_pass].
    destruct (PyStr.startswith other "remotes/").
    + intros H. apply result_bind_inr in H. destruct H as [p0 [_ H]].
      apply result_bind_inr in H. destruct H as [[|] [_ H]].
      * cbn in H. injection H as <-. cbn. apply incl_appl, incl_refl.
      * apply IH in H. intros x Hx. apply H in Hx.
        rewrite in_app_iff in *. cbn. tauto.
    + intros H. apply IH in H. intros x Hx. apply H in Hx.
      rewrite !in_app_iff in *. cbn in *. tauto.
Qed.

Lemma always_remote_pass (others try_again : list string) :
  incl others descendants ->
  always handle P (remote_pass head permanent others try_again).
Proof.
  revert try_again. induction others as [| other rest IH]; intros try_again Hincl.
  - apply always_ret.
  - cbn [remote_pass].
    assert (Hrest : incl rest descendants)
      by (intros x Hx; apply Hincl; now right).
    destruct (PyStr.startswith other "remotes/"); [| now apply IH].
    apply always_bind_result; [apply always_first_of |].
    intros p0 w Hp0. apply always_bind.
    + apply P_request; [now apply (first_of_result handle permanent w) |].
      apply Hincl. now left.
    + intros [|]; [apply always_ret | now apply IH].
Qed.

Lemma always_examine_descendants :
  always handle P (examine_descendants head remotes permanent descendants).
Proof.
  unfold examine_descendants.
  apply always_bind; [apply always_permanent_pass |].
  intros [|]; [apply always_ret |].
  apply always_bind_result; [apply always_remote_pass, incl_refl |].
  intros r w Hr. apply remote_pass_result in Hr. cbn in Hr.
  destruct (fst r); [apply always_ret |].
  apply always_bind; [| intros _; apply always_ret].
  unfold local_pass. apply always_for_until. intros other Hin.
  apply always_request_first. apply Hr.
  exact (proj1 (set_of_In _ _) Hin).
Qed.

End Examination.

Section ExaminationOfBranch.
Context {HO : HashOrder} {W : Type} (handle : W -> forall c : Cmd, Resp c * W).
Variable P : W * Event -> Prop.
Variables (head : string) (remotes permanent : list string).

Hypothesis P_query : forall w r, P (w, EvRun (contains_query head) r).
Hypothesis P_request :
  forall other p0,
    hd_error permanent = Some p0 ->
    always handle P (_request_removal head other p0).

Lemma always_examine_branch :
  always handle P (_examine_branch head remotes permanent).
Proof.
  unfold _examine_branch.
  apply always_bind.
  - unfold _run. apply always_vis; [intros w; apply P_query |].
    intros [out |]; [apply always_ret | apply always_throw].
  - intros lines. unfold set_remove.
    destruct (mem head (containing_set lines)); cbn [bind];
      [| apply always_throw].
    apply always_examine_descendants. intros other p0 Hp0 _.
    now apply P_request.
Qed.

End ExaminationOfBranch.

Lemma always_secho {W : Type} (handle : W -> forall c : Cmd, Resp c * W)
  (P : W * Event -> Prop) (text : string) (st : Style) (nl : bool) :
  (forall w, P (w, EvEcho [Styled st text] nl)) ->
  always handle P (secho text st nl).
Proof.
  intros H. unfold secho. apply always_vis; [apply H |].
  intros r. apply always_ret.
Qed.

(** Every change the clean-up loop makes to the reference repository is a
    safe one. *)
Lemma cleanup_loop_safe {HO : HashOrder} (heads remotes permanent : list string) :
  always Repo.handle (safe_mutation (hd_error permanent))
         (cleanup_loop heads remotes permanent).
Proof.
  unfold cleanup_loop. apply always_for_each. intros head _.
  destruct (mem head permanent) eqn:Hm.
  - apply always_bind; [| intros _]; apply always_secho; intros w; exact I.
  - apply mem_false in Hm. apply always_examine_branch.
    + intros w r. exact I.
    + intros other p0 Hp0. rewrite Hp0. apply request_removal_safe.
      intros ->. apply Hm. destruct permanent; [discriminate |].
      injection Hp0 as ->. now left.
Qed.

(** C2: deleting the active branch.  In every call of the executor the
    commands that change the repository are: nothing after a refusal; the
    deletion alone when the branch is not the active one; one checkout of
    the fallback followed by the deletion when it is (the deletion is not
    attempted when that checkout fails).  In the clean-up loop the fallback
    is the first permanent branch, and on the reference repository no
    [git branch -D] is ever issued for the branch that is checked out. *)
Theorem active_branch_left_before_deletion :
  (forall (W : Type) (handle : W -> forall c : Cmd, Resp c * W) (w : W)
     (head othername defaultJump : string),
   let cur := fst (handle w ActiveBranch) in
   let w1 := snd (handle w ActiveBranch) in
   let a := fst (handle w1 (Confirm (removal_msg head othername) false)) in
   let w2 := snd (handle w1 (Confirm (removal_msg head othername) false)) in
   let switched := fst (handle w2 (Run ["git"; "checkout"; defaultJump])) in
   mutations (events (trace (run handle (_request_removal head othername defaultJump) w)))
   = if accepted false a then
       if is_current head cur then
         match switched with
         | Some _ => [Checkout defaultJump; Delete head]
         | None => [Checkout defaultJump]
         end
       else [Delete head]
     else [])
  /\ (forall (HO : HashOrder) (heads remotes permanent : list string) (w : Repo.t),
      Forall (fun x : Repo.t * Event =>
                match mutation_of (snd x) with
                | Some (Delete b) => Repo.active (fst x) <> Some b
                | Some (Checkout r) => hd_error permanent = Some r
                | None => True
                end)
             (trace (run Repo.handle (cleanup_loop heads remotes permanent) w))).
Proof.
  split.
  - intros W handle w head othername defaultJump.
    apply request_removal_mutations.
  - intros HO heads remotes permanent w.
    apply (cleanup_loop_safe heads remotes permanent w).
Qed.

(** ** The fallback pass *)

Lemma events_app {W : Type} (t1 t2 : list (W * Event)) :
  events (t1 ++ t2) = (events t1 ++ events t2)%list.
Proof. apply map_app. Qed.

Lemma prompts_app (es1 es2 : list Event) :
  prompts (es1 ++ es2) = (prompts es1 ++ prompts es2)%list.
Proof.
  induction es1 as [| e es1 IH]; [reflexivity |].
  cbn. destruct (prompt_of e); cbn; now rewrite IH.
Qed.

Lemma mutations_app (es1 es2 : list Event) :
  mutations (es1 ++ es2) = (mutations es1 ++ mutations es2)%list.
Proof.
  induction es1 as [| e es1 IH]; [reflexivity |].
  cbn [mutations app]. destruct (mutation_of e); cbn; now rewrite IH.
Qed.

Lemma set_of_nil {HO : HashOrder} : set_of [] = [].
Proof.
  destruct (set_of []) as [| x l] eqn:E; [reflexivity |].
  exfalso. apply (proj1 (set_of_In [] x)). rewrite E. now left.
Qed.

Section Fallback.
Context {HO : HashOrder} {W : Type} (handle : W -> forall c : Cmd, Resp c * W).
Variables (head p0 : string) (others : list string).

Lemma run_fallback (ds try_again : list string) (w : W) :
  run handle
    (r <- remote_pass head (p0 :: others) ds try_again ;;
     if fst r then Ret tt
     else local_pass head (p0 :: others) (set_of (snd r)) ;; Ret tt) w
  = ignore_value
      (run handle
         (offer_in_turn head p0
            (filter is_remote_qualified ds
             ++ set_of (try_again
                        ++ filter (fun name => negb (is_remote_qualified name)) ds)))
         w).
Proof.
  revert try_again w. induction ds as [| other rest IH]; intros try_again w.
  - cbn [remote_pass bind fst snd filter app]. rewrite app_nil_r.
    apply run_then_ret.
  - cbn [remote_pass filter].
    change (PyStr.startswith other "remotes/") with (is_remote_qualified other).
    destruct (is_remote_qualified other); cbn [negb].
    + cbn [first_of bind app]. unfold offer_in_turn. cbn [for_until].
      rewrite !run_bind, then_run_assoc, ignore_value_then_run.
      unfold then_run at 1 3.
      destruct (run handle (_request_removal head other p0) w)
        as [tr w' [e | [|]]]; cbn [result trace final]; [reflexivity | |].
      * unfold then_run, ignore_value. cbn. reflexivity.
      * rewrite <- run_bind, IH. reflexivity.
    + rewrite IH. now rewrite <- app_assoc.
Qed.

(** Without a permanent match the examination offers the fallback
    candidates in turn. *)
Lemma run_examine_unmatched (remotes descendants : list string) (w : W) :
  first_permanent_match remotes (p0 :: others) descendants = None ->
  run handle (examine_descendants head remotes (p0 :: others) descendants) w
  = ignore_value
      (run handle (offer_in_turn head p0 (fallback_candidates descendants)) w).
Proof.
  intros Hm. unfold examine_descendants.
  rewrite run_bind, run_permanent_pass, Hm.
  unfold then_run. cbn [result trace final app].
  rewrite run_fallback. cbn [app].
  now destruct (ignore_value _).
Qed.

(** One call of the executor: its one prompt, and what its outcome tells. *)
Lemma request_removal_outcome (target : string) (w : W) :
  let o := run handle (_request_removal head target p0) w in
  exists a,
    prompts (events (trace o)) = [(removal_msg head target, false, a)]
    /\ (accepted false a = false ->
        result o = inr false /\ mutations (events (trace o)) = [])
    /\ (result o = inr false -> accepted false a = false).
Proof.
  intros o.
  exists (fst (handle (snd (handle w ActiveBranch))
                      (Confirm (removal_msg head target) false))).
  split; [apply request_removal_prompts |]. split.
  - intros Ha. subst o.
    rewrite (request_removal_declined handle w head target p0 Ha).
    split; reflexivity.
  - intros Hr. apply request_removal_result in Hr. now rewrite <- Hr.
Qed.

Lemma offer_in_turn_shown (candidates : list string) (w : W) :
  shown_in_turn head candidates
    (prompts (events (trace (run handle (offer_in_turn head p0 candidates) w)))).
Proof.
  revert w. induction candidates as [| c rest IH]; intros w; [exact I |].
  unfold offer_in_turn. cbn [for_until]. rewrite run_bind.
  destruct (request_removal_outcome c w) as [a [Hp [Hdecl Hfalse]]].
  unfold then_run.
  destruct (result (run handle (_request_removal head c p0) w))
    as [e | [|]] eqn:Hr; cbn [trace].
  - rewrite Hp. cbn. repeat split.
    destruct (accepted false a); [reflexivity |].
    destruct (Hdecl eq_refl). congruence.
  - rewrite events_app, prompts_app, Hp. cbn. repeat split.
    destruct (accepted false a); [reflexivity |].
    destruct (Hdecl eq_refl). congruence.
  - rewrite events_app, prompts_app, Hp. cbn [app shown_in_turn].
    repeat split. rewrite (Hfalse eq_refl). apply IH.
Qed.

Lemma offer_in_turn_declined (candidates : list string) (w : W) :
  let o := run handle (offer_in_turn head p0 candidates) w in
  Forall declined (prompts (events (trace o))) ->
  mutations (events (trace o)) = [] /\ result o = inr false.
Proof.
  revert w. induction candidates as [| c rest IH]; intros w o; subst o.
  - intros _. split; reflexivity.
  - unfold offer_in_turn. cbn [for_until]. rewrite run_bind.
    destruct (request_removal_outcome c w) as [a [Hp [Hdecl Hfalse]]].
    unfold then_run.
    destruct (result (run handle (_request_removal head c p0) w))
      as [e | [|]] eqn:Hr; cbn [trace result].
    + rewrite Hp. intros Hall. inversion Hall as [| ? ? Ha _]; subst.
      destruct (Hdecl Ha). congruence.
    + rewrite events_app, prompts_app, Hp. cbn [app].
      intros Hall. inversion Hall as [| ? ? Ha _]; subst.
      destruct (Hdecl Ha). congruence.
    + rewrite !events_app, prompts_app, mutations_app, Hp. cbn [app].
      intros Hall. inversion Hall as [| ? ? Ha Hrest]; subst.
      destruct (Hdecl Ha) as [_ Hmut]. rewrite Hmut. cbn [app].
      now apply IH.
Qed.

End Fallback.

Section EmptyPermanent.
Context {HO : HashOrder} {W : Type} (handle : W -> forall c : Cmd, Resp c * W).

Lemma set_of_nonempty (l : list string) : l <> [] -> set_of l <> [].
Proof.
  destruct l as [| x l]; [congruence |]. intros _ E.
  assert (H : In x (set_of (x :: l))) by (apply set_of_In; now left).
  now rewrite E in H.
Qed.

Lemma run_fallback_unprotected (head : string) (ds try_again : list string) (w : W) :
  (try_again ++ ds)%list <> [] ->
  run handle
    (r <- remote_pass head [] ds try_again ;;
     if fst r then Ret tt
     else local_pass head [] (set_of (snd r)) ;; Ret tt) w
  = mkOutcome [] w (inl IndexError).
Proof.
  revert try_again. induction ds as [| other rest IH]; intros try_again Hne.
  - rewrite app_nil_r in Hne. apply set_of_nonempty in Hne.
    cbn [remote_pass bind fst snd]. unfold local_pass.
    destruct (set_of try_again); [congruence | reflexivity].
  - cbn [remote_pass].
    destruct (PyStr.startswith other "remotes/"); [reflexivity |].
    apply IH. rewrite <- app_assoc. exact Hne.
Qed.

(** With no permanent branch configured, the examination of a branch that
    has a descendant ends in [IndexError] before any prompt. *)
Lemma examine_unprotected (head : string) (remotes descendants : list string) (w : W) :
  descendants <> [] ->
  run handle (examine_descendants head remotes [] descendants) w
  = mkOutcome [] w (inl IndexError).
Proof.
  intros Hne. unfold examine_descendants.
  rewrite run_bind. cbn [permanent_pass for_until run]. unfold then_run.
  cbn [result trace final app]. rewrite run_fallback_unprotected; [reflexivity |].
  exact Hne.
Qed.

End EmptyPermanent.

Section FallbackPass.
Context {HO : HashOrder} {W : Type} (handle : W -> forall c : Cmd, Resp c * W).

Lemma no_match_in_nothing (remotes permanent : list string) :
  first_permanent_match remotes permanent [] = None.
Proof.
  unfold first_permanent_match.
  induction (permanent_candidates remotes permanent) as [| c l IH];
    [reflexivity | exact IH].
Qed.

(** A branch without descendants is left alone. *)
Lemma examine_nothing (w : W) (head : string) (remotes permanent : list string) :
  run handle (examine_descendants head remotes permanent []) w
  = mkOutcome [] w (inr tt).
Proof.
  unfold examine_descendants.
  rewrite run_bind, run_permanent_pass, no_match_in_nothing.
  unfold then_run. cbn [result trace final remote_pass bind fst snd run app].
  now rewrite set_of_nil.
Qed.

Lemma fallback_candidates_In (descendants : list string) (c : string) :
  In c (fallback_candidates descendants) <-> In c descendants.
Proof.
  unfold fallback_candidates.
  rewrite in_app_iff, set_of_In, !filter_In.
  destruct (is_remote_qualified c); cbn; intuition congruence.
Qed.

(** C8: the fallback pass.  With a permanent match the only prompt is the
    one about it.  Without one, the candidates are the remote-qualified
    descendants followed by the local ones; they are offered in that order
    up to and including the first one the user accepts; when every prompt is
    refused, or there is no descendant at all, nothing is checked out or
    deleted and the examination ends normally.  (With no permanent branch
    configured nothing is offered at all.) *)
Theorem fallback_offers_remote_first (w : W) (head : string)
  (remotes permanent descendants : list string) :
  let o := run handle (examine_descendants head remotes permanent descendants) w in
  (forall t, first_permanent_match remotes permanent descendants = Some t ->
     exists a, prompts (events (trace o)) = [(removal_msg head t, false, a)])
  /\ (first_permanent_match remotes permanent descendants = None ->
      forall p0 others, permanent = p0 :: others ->
      let candidates := fallback_candidates descendants in
      (forall c, In c candidates <-> In c descendants)
      /\ o = ignore_value (run handle (offer_in_turn head p0 candidates) w)
      /\ shown_in_turn head candidates (prompts (events (trace o)))
      /\ (Forall declined (prompts (events (trace o))) ->
          mutations (events (trace o)) = [] /\ result o = inr tt))
  /\ (descendants = [] -> trace o = [] /\ result o = inr tt)
  /\ (permanent = [] -> trace o = []).
Proof.
  intros o. split; [| split; [| split]].
  - intros t Ht. subst o. rewrite (run_examine_matched handle w _ _ _ _ t Ht).
    cbn [ignore_value trace].
    eexists. apply request_removal_prompts.
  - intros Hm p0 others -> candidates.
    assert (Ho : o = ignore_value
                       (run handle (offer_in_turn head p0 candidates) w))
      by (apply run_examine_unmatched; assumption).
    split; [apply fallback_candidates_In |]. split; [assumption |].
    rewrite Ho. cbn [ignore_value trace result]. split.
    + apply offer_in_turn_shown.
    + intros Hall.
      destruct (offer_in_turn_declined handle head p0 candidates w Hall)
        as [Hmut Hres].
      split; [assumption | now rewrite Hres].
  - intros ->. subst o. rewrite examine_nothing. split; reflexivity.
  - intros ->. subst o. destruct descendants as [| d ds].
    + now rewrite examine_nothing.
    + now rewrite examine_unprotected.
Qed.

End FallbackPass.

Lemma fallback_offers_remote_first_witness :
  let w := topic_repo None [AnsNo; AnsNo] (fun _ => false) in
  let descendants := ["topic"; "remotes/origin/topic"] in
  let o := run Repo.handle
             (examine_descendants "feature-x" ["origin"] ["main"] descendants) w in
  first_permanent_match ["origin"] ["main"] descendants = None
  /\ fallback_candidates descendants = ["remotes/origin/topic"; "topic"]
  /\ prompts (events (trace o))
     = [(removal_msg "feature-x" "remotes/origin/topic", false, AnsNo);
        (removal_msg "feature-x" "topic", false, AnsNo)]
  /\ Forall declined (prompts (events (trace o)))
  /\ shown_in_turn "feature-x" (fallback_candidates descendants)
       (prompts (events (trace o)))
  /\ mutations (events (trace o)) = [] /\ result o = inr tt.
Proof.
  intros w descendants o.
  assert (Hm : first_permanent_match ["origin"] ["main"] descendants = None)
    by reflexivity.
  assert (Hall : Forall declined (prompts (events (trace o))))
    by (repeat constructor).
  destruct (fallback_offers_remote_first Repo.handle w "feature-x" ["origin"]
              ["main"] descendants) as [_ [H _]].
  destruct (H Hm "main" [] eq_refl) as [_ [_ [Hshown Hdecl]]].
  split; [exact Hm |]. split; [reflexivity |]. split; [reflexivity |].
  split; [exact Hall |]. split; [exact Hshown |]. exact (Hdecl Hall).
Defined.

(** ** Failures of the backend *)

Section FailStop.
Context {W : Type} (handle : W -> forall c : Cmd, Resp c * W).

Lemma fail_stop_silent {A : Type} (p : Prog A) :
  (forall w, trace (run handle p w) = []) -> fail_stop handle p.
Proof.
  intros H w pre wi argv post Htr. rewrite H in Htr.
  now destruct pre.
Qed.

Lemma fail_stop_ret {A : Type} (a : A) : fail_stop handle (Ret a).
Proof. now apply fail_stop_silent. Qed.

Lemma fail_stop_throw {A : Type} (e : Exn) : fail_stop handle (@Throw A e).
Proof. now apply fail_stop_silent. Qed.

Lemma fail_stop_bind {A B : Type} (p : Prog A) (f : A -> Prog B) :
  fail_stop handle p -> (forall a, fail_stop handle (f a)) -> fail_stop handle (bind p f).
Proof.
  intros Hp Hf w pre wi argv post. rewrite run_bind. unfold then_run.
  destruct (result (run handle p w)) as [e | a] eqn:Hr; cbn [trace result].
  - intros Htr. destruct (Hp w pre wi argv post Htr) as [-> Hres].
    split; [reflexivity | congruence].
  - intros Htr. apply app_eq_app in Htr. destruct Htr as [l [[H1 H2] | [H1 H2]]].
    + destruct l as [| x l].
      * cbn in H2. rewrite app_nil_r in H1.
        apply (Hf a (final (run handle p w)) [] wi argv post). now rewrite <- H2.
      * injection H2 as <- H2.
        destruct (Hp w pre wi argv l H1) as [_ Hres]. congruence.
    + apply (Hf a (final (run handle p w)) l wi argv post H2).
Qed.

Lemma fail_stop_vis {A : Type} (c : Cmd) (k : Resp c -> Prog A) :
  (forall r argv, event_of c r <> EvRun argv None) ->
  (forall r, fail_stop handle (k r)) ->
  fail_stop handle (Vis c k).
Proof.
  intros Hc Hk w pre wi argv post. cbn [run trace result].
  destruct pre as [| x pre]; cbn [app].
  - intros [= _ He _]. now apply Hc in He.
  - intros [= _ Htr]. now apply (Hk _ _ pre wi argv post).
Qed.

Lemma fail_stop_run (cmd : list string) : fail_stop handle (_run cmd).
Proof.
  intros w pre wi argv post. unfold _run. cbn [run trace result].
  destruct (fst (handle w (Run cmd))) as [out |] eqn:Hout; cbn [run trace result].
  - destruct pre as [| x pre]; cbn [app]; [| destruct pre]; discriminate.
  - destruct pre as [| x pre]; cbn [app].
    + intros [= _ <- <-]. now split.
    + destruct pre; discriminate.
Qed.

Lemma fail_stop_for_each {X : Type} (l : list X) (body : X -> Prog unit) :
  (forall x, fail_stop handle (body x)) -> fail_stop handle (for_each l body).
Proof.
  intros H. induction l as [| x l IH]; cbn [for_each].
  - apply fail_stop_ret.
  - apply fail_stop_bind; [apply H | intros _; apply IH].
Qed.

Lemma fail_stop_for_until {X : Type} (l : list X) (body : X -> Prog bool) :
  (forall x, fail_stop handle (body x)) -> fail_stop handle (for_until l body).
Proof.
  intros H. induction l as [| x l IH]; cbn [for_until].
  - apply fail_stop_ret.
  - apply fail_stop_bind; [apply H |].
    intros [|]; [apply fail_stop_ret | apply IH].
Qed.

End FailStop.

Ltac fail_stop_step :=
  first
    [ apply fail_stop_ret
    | apply fail_stop_throw
    | apply fail_stop_run
    | apply fail_stop_for_each; intros ?
    | apply fail_stop_for_until; intros ?
    | apply fail_stop_bind; [| intros ?]
    | apply fail_stop_vis; [intros ? ?; cbn; discriminate | intros ?]
    | match goal with
      | |- fail_stop _ (if ?b then _ else _) => destruct b
      | |- fail_stop _ (match ?x with _ => _ end) => destruct x
      end ].

Section FailStopDriver.
Context {HO : HashOrder} {W : Type} (handle : W -> forall c : Cmd, Resp c * W).

Lemma fail_stop_request_removal (head othername defaultJump : string) :
  fail_stop handle (_request_removal head othername defaultJump).
Proof.
  unfold _request_removal, current_branch, confirm, echo. repeat fail_stop_step.
Qed.

Lemma fail_stop_first_of (permanent : list string) :
  fail_stop handle (first_of permanent).
Proof. unfold first_of. repeat fail_stop_step. Qed.

Lemma fail_stop_remote_pass (head : string) (permanent others try_again : list string) :
  fail_stop handle (remote_pass head permanent others try_again).
Proof.
  revert try_again. induction others as [| other rest IH]; intros try_again;
    cbn [remote_pass]; [apply fail_stop_ret |].
  destruct (PyStr.startswith other "remotes/"); [| apply IH].
  apply fail_stop_bind; [apply fail_stop_first_of | intros dj].
  apply fail_stop_bind; [apply fail_stop_request_removal |].
  intros [|]; [apply fail_stop_ret | apply IH].
Qed.

Lemma fail_stop_examine_branch (head : string) (remotes permanent : list string) :
  fail_stop handle (_examine_branch head remotes permanent).
Proof.
  unfold _examine_branch, set_remove, examine_descendants, permanent_pass, local_pass.
  repeat first
    [ apply fail_stop_first_of
    | apply fail_stop_request_removal
    | apply fail_stop_remote_pass
    | fail_stop_step ].
Qed.

Lemma fail_stop_get_refs_lines (acc : Refs) (lines : list string) :
  fail_stop handle (get_refs_lines acc lines).
Proof.
  revert acc. induction lines as [| line rest IH]; intros acc; cbn [get_refs_lines].
  - apply fail_stop_ret.
  - apply fail_stop_bind; [| intros acc'; apply IH].
    unfold get_refs_line. repeat fail_stop_step.
Qed.

Lemma fail_stop_createPermanent (name : string) (remotes : list string) :
  fail_stop handle (_createPermanent name remotes).
Proof.
  unfold _createPermanent, secho. repeat fail_stop_step.
Qed.

Lemma fail_stop_cleanup_loop (heads remotes permanent : list string) :
  fail_stop handle (cleanup_loop heads remotes permanent).
Proof.
  unfold cleanup_loop, secho. apply fail_stop_for_each. intros head.
  destruct (mem head permanent); [repeat fail_stop_step |].
  apply fail_stop_examine_branch.
Qed.

Lemma fail_stop_main (fetch : option bool) (permanent remote_arg : list string) :
  fail_stop handle (main fetch permanent remote_arg).
Proof.
  unfold main, _get_refs, _do_fast_forward, secho. cbv zeta.
  repeat first
    [ apply fail_stop_get_refs_lines
    | apply fail_stop_createPermanent
    | apply fail_stop_cleanup_loop
    | fail_stop_step ].
Qed.

End FailStopDriver.

(** C3, as the code has it: a git command that fails during a branch's
    analysis or deletion is not caught anywhere.  The failed command is the
    last request of the run, which ends with its [CalledProcessError]; the
    branches after it are not examined. *)
Theorem backend_failure_ends_run {HO : HashOrder} {W : Type}
  (handle : W -> forall c : Cmd, Resp c * W) (w : W)
  (fetch : option bool) (permanent remote_arg : list string)
  (pre post : list (W * Event)) (wi : W) (argv : list string) :
  let o := run handle (main fetch permanent remote_arg) w in
  trace o = (pre ++ (wi, EvRun argv None) :: post)%list ->
  post = [] /\ result o = inl (CalledProcessError argv).
Proof.
  intros o. apply (fail_stop_main handle fetch permanent remote_arg w).
Qed.

Lemma backend_failure_ends_run_witness :
  let o := run Repo.handle (main None [] []) damaged_repo in
  trace o
  = (removelast (trace o)
     ++ (damaged_repo, EvRun (contains_query "feature-x") None) :: [])%list
  /\ result o = inl (CalledProcessError (contains_query "feature-x")).
Proof.
  intros o.
  assert (H : trace o
              = (removelast (trace o)
                 ++ (damaged_repo, EvRun (contains_query "feature-x") None) :: [])%list)
    by reflexivity.
  split; [exact H |].
  exact (proj2 (backend_failure_ends_run Repo.handle damaged_repo None [] []
                  (removelast (trace o)) [] damaged_repo
                  (contains_query "feature-x") H)).
Defined.

(** The run on the damaged repository: [topic], a local branch that is not
    permanent, comes after [feature-x] and is never examined. *)
Lemma failure_in_one_branch_ends_run :
  let o := run Repo.handle (main None [] []) damaged_repo in
  Repo.heads damaged_repo = ["feature-x"; "main"; "topic"]
  /\ permanent_branches (Repo.config damaged_repo) = ["main"]
  /\ result o = inl (CalledProcessError (contains_query "feature-x"))
  /\ examined (events (trace o)) = ["feature-x"]
  /\ prompts (events (trace o)) = [].
Proof. repeat split. Qed.

(** ** The merge test before a deletion *)

Ltac always_step :=
  first
    [ apply always_ret
    | apply always_throw
    | apply always_for_each; intros ? ?
    | apply always_for_until; intros ? ?
    | apply always_bind; [| intros ?]
    | apply always_vis; [intros ?; try reflexivity; try exact I | intros ?]
    | match goal with
      | |- always _ _ (if ?b then _ else _) => destruct b
      | |- always _ _ (match ?x with _ => _ end) => destruct x
      end ].

Section MergeTest.
Context {HO : HashOrder} {W : Type} (handle : W -> forall c : Cmd, Resp c * W).

Lemma request_removal_no_merge_check (head othername defaultJump : string) :
  always handle no_merge_check (_request_removal head othername defaultJump).
Proof.
  unfold _request_removal, current_branch, confirm, echo, _run.
  repeat always_step.
Qed.

Lemma examine_branch_no_merge_check (head : string) (remotes permanent : list string) :
  always handle no_merge_check (_examine_branch head remotes permanent).
Proof.
  apply always_examine_branch.
  - intros w r. reflexivity.
  - intros other p0 _. apply request_removal_no_merge_check.
Qed.

Lemma get_refs_lines_silent (P : W * Event -> Prop) (acc : Refs) (lines : list string) :
  always handle P (get_refs_lines acc lines).
Proof.
  revert acc. induction lines as [| line rest IH]; intros acc; cbn [get_refs_lines].
  - apply always_ret.
  - apply always_bind; [| intros acc'; apply IH].
    unfold get_refs_line. repeat always_step.
Qed.

Lemma main_no_merge_check (fetch : option bool) (permanent remote_arg : list string) :
  always handle no_merge_check (main fetch permanent remote_arg).
Proof.
  unfold main, _get_refs, _do_fast_forward, _createPermanent, cleanup_loop,
    secho, _run.
  cbv zeta.
  repeat first
    [ apply get_refs_lines_silent
    | apply examine_branch_no_merge_check
    | always_step ].
Qed.

Lemma no_merge_checks (tr : list (W * Event)) :
  Forall no_merge_check tr -> merge_checks (events tr) = [].
Proof.
  induction 1 as [| x tr Hx _ IH]; [reflexivity |].
  unfold merge_checks, events in *. cbn [map filter].
  unfold no_merge_check in Hx. now rewrite Hx.
Qed.

(** The executor's prompt names the target it was called with. *)
Lemma request_removal_names (head othername defaultJump : string)
  (descendants : list string) :
  In othername descendants ->
  always handle (names_descendant head descendants)
         (_request_removal head othername defaultJump).
Proof.
  intros Hin.
  unfold _request_removal, current_branch, confirm, echo, _run.
  apply always_bind; [apply always_vis; [intros w; exact I | intros r; apply always_ret] |].
  intros cur.
  apply always_bind.
  - apply always_vis; [| intros r; apply always_ret].
    intros w. now exists othername.
  - intros ok. repeat always_step.
Qed.

(** [_attempt_removal] changes nothing unless both queries succeeded and
    agreed. *)
Lemma attempt_removal_checks (w : W) (local : string) (remotename : option string)
  (other : string) :
  let otherref :=
    match remotename with
    | None => other
    | Some r => PyStr.join "/" [r; other]
    end in
  let o := run handle (_attempt_removal local remotename other) w in
  mutations (events (trace o)) <> [] ->
  exists cur out1 out2 rest,
    events (trace o)
    = EvActiveBranch cur
      :: EvRun ["git"; "merge-base"; local; otherref] (Some out1)
      :: EvRun ["git"; "rev-parse"; "--verify"; local] (Some out2)
      :: rest
    /\ PyStr.strip out1 = PyStr.strip out2.
Proof.
  intros otherref o. subst o. unfold _attempt_removal. fold otherref.
  unfold current_branch, _run, confirm, echo. cbn [bind run].
  destruct (handle w ActiveBranch) as [cur w1]; cbn [fst snd].
  destruct (is_current local cur && String.eqb local other);
    cbn [bind run]; [intros H; exfalso; apply H; reflexivity |].
  destruct (handle w1 (Run ["git"; "merge-base"; local; otherref]))
    as [[out1 |] w2]; cbn [fst snd bind run];
    [| intros H; exfalso; apply H; reflexivity].
  destruct (handle w2 (Run ["git"; "rev-parse"; "--verify"; local]))
    as [[out2 |] w3]; cbn [fst snd bind run];
    [| intros H; exfalso; apply H; reflexivity].
  destruct (String.eqb (PyStr.strip out2) (PyStr.strip out1)) eqn:Heq;
    cbn [bind run]; [| intros H; exfalso; apply H; reflexivity].
  intros _. apply String.eqb_eq in Heq.
  exists cur, out1, out2. eexists. split; [reflexivity | now symmetry].
Qed.

End MergeTest.

(** C5, as the code has it: the deletion path the driver uses makes no
    merge-base test.  [main] never issues [git merge-base] or
    [git rev-parse]; what it relies on is that every target it prompts about
    was printed by the containing-branches query for the branch.  Only
    [_attempt_removal], which [main] does not call, compares the merge base
    of branch and target with the branch's commit before it checks out or
    deletes anything. *)
Theorem merge_test_only_in_attempt_removal :
  (forall (HO : HashOrder) (W : Type) (handle : W -> forall c : Cmd, Resp c * W)
     (w : W) (fetch : option bool) (permanent remote_arg : list string),
   merge_checks (events (trace (run handle (main fetch permanent remote_arg) w))) = [])
  /\ (forall (HO : HashOrder) (W : Type) (handle : W -> forall c : Cmd, Resp c * W)
        (w : W) (head : string) (remotes permanent descendants : list string),
      Forall (names_descendant head descendants)
        (trace (run handle (examine_descendants head remotes permanent descendants) w)))
  /\ (forall (W : Type) (handle : W -> forall c : Cmd, Resp c * W) (w : W)
        (local : string) (remotename : option string) (other : string),
      let otherref :=
        match remotename with
        | None => other
        | Some r => PyStr.join "/" [r; other]
        end in
      let o := run handle (_attempt_removal local remotename other) w in
      mutations (events (trace o)) <> [] ->
      exists cur out1 out2 rest,
        events (trace o)
        = EvActiveBranch cur
          :: EvRun ["git"; "merge-base"; local; otherref] (Some out1)
          :: EvRun ["git"; "rev-parse"; "--verify"; local] (Some out2)
          :: rest
        /\ PyStr.strip out1 = PyStr.strip out2).
Proof.
  split; [| split].
  - intros HO W handle w fetch permanent remote_arg.
    apply no_merge_checks, main_no_merge_check.
  - intros HO W handle w head remotes permanent descendants.
    apply always_examine_descendants.
    intros other p0 _ Hin. now apply request_removal_names.
  - intros W handle w local remotename other.
    apply attempt_removal_checks.
Qed.

(** The driver deletes a merged branch without any merge-base test. *)
Lemma deletion_without_merge_test :
  let o := run Repo.handle (main None [] []) (merged_repo None [AnsYes]) in
  prompts (events (trace o)) = [(removal_msg "feature-x" "main", false, AnsYes)]
  /\ mutations (events (trace o)) = [Delete "feature-x"]
  /\ Repo.heads (final o) = ["develop"; "main"; "topic"]
  /\ merge_checks (events (trace o)) = [].
Proof. repeat split. Qed.

Lemma merge_test_only_in_attempt_removal_witness :
  let w := merged_repo None [AnsYes] in
  let o := run Repo.handle (_attempt_removal "feature-x" None "main") w in
  mutations (events (trace o)) <> []
  /\ exists cur out1 out2 rest,
       events (trace o)
       = EvActiveBranch cur
         :: EvRun ["git"; "merge-base"; "feature-x"; "main"] (Some out1)
         :: EvRun ["git"; "rev-parse"; "--verify"; "feature-x"] (Some out2)
         :: rest
       /\ PyStr.strip out1 = PyStr.strip out2.
Proof.
  intros w o.
  assert (H : mutations (events (trace o)) <> []) by (vm_compute; discriminate).
  split; [exact H |].
  exact (proj2 (proj2 merge_test_only_in_attempt_removal)
           Repo.t Repo.handle w "feature-x" None "main" H).
Defined.

(** ** An empty list of permanent branches or of remotes *)

(** C6 at the failing input: with [permanent_branches] empty in the
    configuration file, [main] reports no policy error; it starts examining
    [feature-x] and ends in [IndexError] there, without a prompt. *)
Theorem empty_permanent_list_fails_mid_run :
  let o := run Repo.handle (main None [] []) unprotected_repo in
  permanent_branches (Repo.config unprotected_repo) = []
  /\ examined (events (trace o)) = ["feature-x"]
  /\ prompts (events (trace o)) = []
  /\ result o = inl IndexError.
Proof. repeat split. Qed.

(** The remote list, by contrast, is checked before anything is fetched or
    examined. *)
Example empty_remote_list_is_rejected :
  let o := run Repo.handle (main None [] []) isolated_repo in
  events (trace o)
  = [EvOpenRepo true;
     EvRun ["git"; "show-ref"] (Some (Repo.show_ref isolated_repo));
     EvGetConfig (Repo.config isolated_repo)]
  /\ result o = inl (ClickException "No remotes nominated").
Proof. split; reflexivity. Qed.

(** ** The clean-up loop *)

Lemma visits_app (es1 es2 : list Event) :
  visits (es1 ++ es2) = (visits es1 ++ visits es2)%list.
Proof.
  induction es1 as [| e es1 IH]; [reflexivity |].
  cbn [visits app]. destruct (visit_of e); cbn; now rewrite IH.
Qed.

Lemma drop_contains_prefix (head : string) :
  PyStr.drop 11 ("--contains=" ++ head) = head.
Proof. reflexivity. Qed.

Section Loop.
Context {HO : HashOrder} {W : Type} (handle : W -> forall c : Cmd, Resp c * W).

Lemma no_visits (tr : list (W * Event)) :
  Forall no_visit tr -> visits (events tr) = [].
Proof.
  induction 1 as [| x tr Hx _ IH]; [reflexivity |].
  unfold events in *. cbn [map visits].
  unfold no_visit in Hx. now rewrite Hx.
Qed.

Lemma request_removal_no_visit (head othername defaultJump : string) :
  always handle no_visit (_request_removal head othername defaultJump).
Proof.
  unfold _request_removal, current_branch, confirm, echo, _run.
  repeat always_step.
Qed.

(** An examination is one visit, whatever its course. *)
Lemma visits_examine_branch (head : string) (remotes permanent : list string) (w : W) :
  visits (events (trace (run handle (_examine_branch head remotes permanent) w)))
  = [Examined head].
Proof.
  rewrite run_examine_branch.
  destruct (fst (handle w (Run (contains_query head)))) as [lines |];
    [| reflexivity].
  cbn [prepend trace events map visits visit_of snd contains_query].
  rewrite drop_contains_prefix. f_equal.
  destruct (mem head (containing_set lines)); [| reflexivity].
  apply no_visits. apply always_examine_descendants.
  intros other p0 _ _. apply request_removal_no_visit.
Qed.

Lemma visits_skip (head : string) (w : W) :
  visits (events (trace (run handle
    (secho "Not cleaning up permanent branch "
           (mkStyle (Some "blue") None None) false ;;
     secho head (mkStyle (Some "blue") (Some true) None) true) w)))
  = [Skipped head].
Proof. reflexivity. Qed.

Lemma result_skip (head : string) (w : W) :
  result (run handle
    (secho "Not cleaning up permanent branch "
           (mkStyle (Some "blue") None None) false ;;
     secho head (mkStyle (Some "blue") (Some true) None) true) w)
  = inr tt.
Proof.
  cbn.
  match goal with |- inr ?u = _ => now destruct u end.
Qed.

Lemma visits_cleanup_loop (heads remotes permanent : list string) (w : W) :
  let o := run handle (cleanup_loop heads remotes permanent) w in
  exists k,
    visits (events (trace o)) = firstn k (planned_visits permanent heads)
    /\ (result o = inr tt -> k = List.length heads).
Proof.
  revert w. induction heads as [| head rest IH]; intros w o; subst o.
  - exists 0. split; reflexivity.
  - unfold cleanup_loop in *. cbn [for_each]. rewrite run_bind.
    unfold then_run.
    set (body := if mem head permanent then _ else _).
    assert (Hv : visits (events (trace (run handle body w)))
                 = [if mem head permanent then Skipped head else Examined head]).
    { subst body. destruct (mem head permanent);
        [apply visits_skip | apply visits_examine_branch]. }
    destruct (result (run handle body w)) as [e | []] eqn:Hr; cbn [trace result].
    + exists 1. rewrite Hv. split; [reflexivity | discriminate].
    + destruct (IH (final (run handle body w))) as [k [Hk Hlen]].
      exists (S k). rewrite events_app, visits_app, Hv, Hk.
      split; [reflexivity |]. intros H. cbn [List.length]. f_equal. now apply Hlen.
Qed.

End Loop.

(** The loop visits the branches it is given, in order, each once; it stops
    short only when an exception ends it. *)
Lemma cleanup_loop_visits {HO : HashOrder} {W : Type}
  (handle : W -> forall c : Cmd, Resp c * W) (w : W)
  (heads remotes permanent : list string) :
  let o := run handle (cleanup_loop heads remotes permanent) w in
  exists k,
    visits (events (trace o)) = firstn k (planned_visits permanent heads)
    /\ (result o = inr tt -> visits (events (trace o)) = planned_visits permanent heads).
Proof.
  intros o.
  destruct (visits_cleanup_loop handle heads remotes permanent w) as [k [Hk Hlen]].
  exists k. split; [exact Hk |].
  intros Hr. subst o. rewrite Hk, (Hlen Hr).
  unfold planned_visits.
  rewrite <- (length_map (fun head => if mem head permanent
                                      then Skipped head else Examined head) heads).
  apply firstn_all.
Qed.

Section Driver.
Context {HO : HashOrder} {W : Type} (handle : W -> forall c : Cmd, Resp c * W).

Lemma request_removal_not_listing (head othername defaultJump : string) :
  always handle not_listing (_request_removal head othername defaultJump).
Proof.
  unfold _request_removal, current_branch, confirm, echo, _run.
  repeat always_step.
Qed.

Lemma cleanup_loop_not_listing (heads remotes permanent : list string) :
  always handle not_listing (cleanup_loop heads remotes permanent).
Proof.
  unfold cleanup_loop. apply always_for_each. intros head _.
  destruct (mem head permanent).
  - unfold secho. repeat always_step.
  - apply always_examine_branch.
    + intros w r. reflexivity.
    + intros other p0 _. apply request_removal_not_listing.
Qed.

Lemma not_listing_events (tr : list (W * Event)) :
  Forall not_listing tr -> Forall (fun e => is_listing e = false) (events tr).
Proof.
  induction 1 as [| x tr Hx _ IH]; [constructor |].
  unfold events. cbn [map]. now constructor.
Qed.

(** Requests that visit no branch may come before. *)
Lemma loop_follows_listing_extend (Q Q' : list Event -> Prop)
  (permanent : list string) (es0 es : list Event) (res : Exn + unit) :
  visits es0 = [] ->
  (forall pre, Q pre -> Q' (es0 ++ pre)%list) ->
  loop_follows_listing Q permanent es res ->
  loop_follows_listing Q' permanent (es0 ++ es)%list res.
Proof.
  intros H0 HQ [[Hv He] | [pre [heads [post [k [-> [Hq [Hp [Hl [Hk Hall]]]]]]]]]].
  - left. split; [| exact He]. now rewrite visits_app, H0, Hv.
  - right. exists (es0 ++ pre)%list, heads, post, k.
    split; [now rewrite app_assoc |]. split; [now apply HQ |].
    split; [now rewrite visits_app, H0, Hp |]. now repeat split.
Qed.

Lemma listing_then_loop_throw (permanent : list string) (e : Exn) :
  listing_then_loop handle permanent (Throw e).
Proof. intros w. left. split; [reflexivity | now exists e]. Qed.

Lemma listing_then_loop_bind (permanent : list string) {A : Type}
  (p : Prog A) (f : A -> Prog unit) :
  always handle no_visit p ->
  (forall a, listing_then_loop handle permanent (f a)) ->
  listing_then_loop handle permanent (bind p f).
Proof.
  intros Hp Hf w. rewrite run_bind. unfold then_run.
  pose proof (no_visits _ (Hp w)) as Hv.
  destruct (result (run handle p w)) as [e | a]; cbn [trace result].
  - left. split; [exact Hv | now exists e].
  - rewrite events_app.
    apply (loop_follows_listing_extend (fun _ => True) (fun _ => True));
      [exact Hv | trivial | apply Hf].
Qed.

Lemma listing_then_loop_here (remotes permanent : list string) :
  listing_then_loop handle permanent
    (heads <- Vis RepoHeads Ret ;; cleanup_loop heads remotes permanent).
Proof.
  intros w. cbn [bind run trace result events map snd].
  set (heads := fst (handle w RepoHeads)).
  set (o := run handle (cleanup_loop heads remotes permanent) (snd (handle w RepoHeads))).
  destruct (cleanup_loop_visits handle (snd (handle w RepoHeads)) heads remotes permanent)
    as [k [Hk Hall]].
  right. exists [], heads, (events (trace o)), k.
  split; [reflexivity |]. split; [exact I |]. split; [reflexivity |].
  split; [apply not_listing_events, cleanup_loop_not_listing |].
  split; [exact Hk | exact Hall].
Qed.

Lemma get_refs_no_visit : always handle no_visit _get_refs.
Proof.
  unfold _get_refs, _run.
  repeat first [apply get_refs_lines_silent | always_step].
Qed.

Lemma createPermanent_no_visit (name : string) (remotes : list string) :
  always handle no_visit (_createPermanent name remotes).
Proof. unfold _createPermanent, secho. repeat always_step. Qed.

(** What [main] does once the configuration is read. *)
Lemma main_after_config (fetch : option bool) (remotes permanent : list string)
  (conf : Config) :
  listing_then_loop handle permanent
    (match remotes with
     | [] => Throw (ClickException "No remotes nominated")
     | _ =>
         let fetch :=
           match fetch with
           | None => fetch_first conf
           | Some b => b
           end in
         (if fetch then
            secho ("Fetching from " ++ PyStr.join ", " remotes ++ " ...")
                  (mkStyle (Some "cyan") None None) true ;;
            _run (fetch_cmd conf remotes) ;; Ret tt
          else Ret tt) ;;
         (if always_create_permanent_branches conf then
            for_each permanent (fun name =>
              heads <- Vis RepoHeads Ret ;;
              if mem name heads then Ret tt
              else _createPermanent name remotes)
          else Ret tt) ;;
         (if String.eqb (auto_fast_forward conf) "ff_permanent"
             || String.eqb (auto_fast_forward conf) "ff_all"
          then
            match remotes with
            | [r] => for_each permanent (fun name => _do_fast_forward name r false)
            | _ => Ret tt
            end
          else Ret tt) ;;
         (if String.eqb (auto_fast_forward conf) "ff_all"
          then Throw (PyException "TODO: auto-fast-forward other branches")
          else Ret tt) ;;
         heads <- Vis RepoHeads Ret ;;
         cleanup_loop heads remotes permanent
     end).
Proof.
  destruct remotes as [| r0 rs]; [apply listing_then_loop_throw |].
  cbv zeta.
  repeat (apply listing_then_loop_bind;
          [unfold secho, _run, _do_fast_forward;
           repeat first [apply createPermanent_no_visit | always_step]
          | intros _]).
  apply listing_then_loop_here.
Qed.

End Driver.

(** C9, as the code has it: the loop of [main] runs over the branches that
    [repo.heads] lists when the loop starts (the local set of the ref
    inventory is not used), in the order of that listing: for each one in
    turn it either announces that the branch is permanent and skips it, or
    starts its examination, once.  A run that an exception ends stops
    short; a run that ends normally has visited every listed branch exactly
    once.  The permanent branches are those in force for the
    configuration read earlier in the run. *)
Theorem driver_visits_repo_heads {HO : HashOrder} {W : Type}
  (handle : W -> forall c : Cmd, Resp c * W) (w : W)
  (fetch : option bool) (permanent remote_arg : list string) :
  let o := run handle (main fetch permanent remote_arg) w in
  exists conf,
    loop_follows_listing (fun pre => In (EvGetConfig conf) pre)
      (permanent_in_force permanent conf)
      (events (trace o)) (result o).
Proof.
  intros o. subst o. unfold main.
  rewrite run_bind. unfold then_run.
  set (o1 := run handle (Vis OpenRepo _) w).
  assert (H1 : visits (events (trace o1)) = []).
  { apply no_visits. subst o1. generalize w. change (always handle no_visit
      (Vis OpenRepo (fun ok : bool =>
         if ok then Ret tt else Throw InvalidGitRepositoryError))).
    repeat always_step. }
  destruct (result o1) as [e | []] eqn:E1; cbn [trace result final].
  { exists DEFAULT_CONFIG. left. split; [exact H1 | now exists e]. }
  rewrite run_bind. unfold then_run.
  set (o2 := run handle _get_refs (final o1)).
  assert (H2 : visits (events (trace o2)) = [])
    by apply no_visits, get_refs_no_visit.
  destruct (result o2) as [e | refs] eqn:E2; cbn [trace result final].
  { exists DEFAULT_CONFIG. left. split; [| now exists e].
    now rewrite events_app, visits_app, H1, H2. }
  cbv zeta. cbn [bind run trace result final].
  set (conf := fst (handle (final o2) GetConfig)).
  exists conf.
  pose proof (main_after_config handle fetch
                match remote refs with
                | [] => upstream_names conf
                | _ :: _ => map fst (remote refs)
                end
                (permanent_in_force permanent conf) conf
                (snd (handle (final o2) GetConfig))) as H.
  unfold permanent_in_force in *. cbv zeta in H.
  rewrite !events_app.
  apply (loop_follows_listing_extend (fun pre => In (EvGetConfig conf) pre)
           (fun pre => In (EvGetConfig conf) pre)); [exact H1 | |].
  { intros pre Hin. apply in_or_app. now right. }
  apply (loop_follows_listing_extend (fun pre => In (EvGetConfig conf) pre)
           (fun pre => In (EvGetConfig conf) pre)); [exact H2 | |].
  { intros pre Hin. apply in_or_app. now right. }
  change (events ((final o2, event_of GetConfig conf) :: ?t))
    with ([EvGetConfig conf] ++ events t)%list.
  apply (loop_follows_listing_extend (fun _ => True)
           (fun pre => In (EvGetConfig conf) pre)); [reflexivity | |].
  { intros pre _. now left. }
  exact H.
Qed.

(** A run that ends normally: every listed branch is visited once. *)
Lemma driver_visits_repo_heads_witness :
  let o := run Repo.handle (main None [] []) (merged_repo (Some "main") [AnsNo]) in
  result o = inr tt
  /\ visits (events (trace o))
     = [Skipped "develop"; Examined "feature-x"; Skipped "main"; Examined "topic"]
  /\ exists conf,
       loop_follows_listing (fun pre => In (EvGetConfig conf) pre)
         (permanent_in_force [] conf)
         (events (trace o)) (result o).
Proof.
  intros o. split; [reflexivity |]. split; [reflexivity |].
  exact (driver_visits_repo_heads Repo.handle (merged_repo (Some "main") [AnsNo])
           None [] []).
Defined.

(** The ref inventory lists [feature-x] and [topic]; the loop visits
    [develop], created in between and not in the inventory, and never gets
    to [topic]. *)
Lemma loop_is_over_repo_heads :
  let o := run Repo.handle (main None [] []) fresh_clone in
  result (run Repo.handle _get_refs fresh_clone)
  = inr (mkRefs ["feature-x"; "topic"]
                [("origin", ["develop"; "topic"])] [])
  /\ visits (events (trace o)) = [Skipped "develop"; Examined "feature-x"]
  /\ result o = inl (CalledProcessError (contains_query "feature-x")).
Proof. repeat split. Qed.

(** ** Runs under two hash orders *)

Lemma find_pointwise {X : Type} (f g : X -> bool) (l : list X) :
  (forall x, f x = g x) -> find f l = find g l.
Proof.
  intros H. induction l as [| x l IH]; [reflexivity |].
  cbn. now rewrite H, IH.
Qed.

Lemma mem_same_elements (d1 d2 : list string) (x : string) :
  (forall y, In y d1 <-> In y d2) -> mem x d1 = mem x d2.
Proof.
  intros H. destruct (mem x d2) eqn:E.
  - apply mem_In. apply H. now apply mem_In.
  - apply mem_false. rewrite H. now apply mem_false.
Qed.

Lemma first_permanent_match_same (remotes permanent d1 d2 : list string) :
  (forall y, In y d1 <-> In y d2) ->
  first_permanent_match remotes permanent d1
  = first_permanent_match remotes permanent d2.
Proof.
  intros H. unfold first_permanent_match. apply find_pointwise.
  intros c. now apply mem_same_elements.
Qed.

Lemma containing_set_same (HO1 HO2 : HashOrder) (lines : string) (y : string) :
  In y (@containing_set HO1 lines) <-> In y (@containing_set HO2 lines).
Proof. unfold containing_set. now rewrite !set_of_In. Qed.

Lemma descendants_same (HO1 HO2 : HashOrder) (head lines : string) (y : string) :
  In y (discard head (@containing_set HO1 lines))
  <-> In y (discard head (@containing_set HO2 lines)).
Proof. rewrite !discard_In. now rewrite (containing_set_same HO1 HO2). Qed.

Lemma descendants_Permutation (HO1 HO2 : HashOrder) (head lines : string) :
  Permutation (discard head (@containing_set HO1 lines))
              (discard head (@containing_set HO2 lines)).
Proof.
  apply NoDup_Permutation.
  - apply discard_NoDup, set_of_NoDup.
  - apply discard_NoDup, set_of_NoDup.
  - apply descendants_same.
Qed.

Lemma fallback_candidates_NoDup {HO : HashOrder} (descendants : list string) :
  NoDup descendants -> NoDup (fallback_candidates descendants).
Proof.
  intros Hnd. unfold fallback_candidates. apply NoDup_app.
  - now apply NoDup_filter.
  - apply set_of_NoDup.
  - intros x H1 H2. apply filter_In in H1. apply set_of_In, filter_In in H2.
    destruct H1 as [_ H1]. destruct H2 as [_ H2]. rewrite H1 in H2. discriminate.
Qed.

Lemma fallback_candidates_Permutation (HO1 HO2 : HashOrder) (d1 d2 : list string) :
  NoDup d1 -> NoDup d2 -> (forall y, In y d1 <-> In y d2) ->
  Permutation (@fallback_candidates HO1 d1) (@fallback_candidates HO2 d2).
Proof.
  intros H1 H2 H. apply NoDup_Permutation.
  - now apply fallback_candidates_NoDup.
  - now apply fallback_candidates_NoDup.
  - intros x. now rewrite !fallback_candidates_In.
Qed.

(** With a permanent match, the examination does not depend on the hash
    order. *)
Lemma examine_matched_same (HO1 HO2 : HashOrder) {W : Type}
  (handle : W -> forall c : Cmd, Resp c * W) (w : W) (head : string)
  (remotes permanent d1 d2 : list string) (t : string) :
  (forall y, In y d1 <-> In y d2) ->
  first_permanent_match remotes permanent d1 = Some t ->
  run handle (@examine_descendants HO1 head remotes permanent d1) w
  = run handle (@examine_descendants HO2 head remotes permanent d2) w.
Proof.
  intros H Ht.
  rewrite (run_examine_matched (HO := HO1) handle w _ _ _ _ t Ht).
  rewrite (first_permanent_match_same _ _ _ _ H) in Ht.
  now rewrite (run_examine_matched (HO := HO2) handle w _ _ _ _ t Ht).
Qed.

(** *** On the reference repository, with a user who refuses everything *)

Lemma git_answers (w : Repo.t) (argv : list string) :
  Repo.answers (snd (Repo.git w argv)) = Repo.answers w.
Proof.
  unfold Repo.git.
  repeat match goal with
    | |- context [match ?x with _ => _ end] => destruct x; try reflexivity
    end.
Qed.

Lemma declining_handle (w : Repo.t) (c : Cmd) :
  declining w -> declining (snd (Repo.handle w c)).
Proof.
  unfold declining. intros H. destruct c; try exact H.
  - cbn [Repo.handle]. now rewrite git_answers.
  - cbn. destruct (Repo.answers w) as [| a rest] eqn:E; cbn [snd].
    + rewrite E. constructor.
    + cbn. now inversion H.
  - cbn [Repo.handle].
    repeat match goal with
      | |- context [match ?x with _ => _ end] => destruct x; try exact H
      end.
Qed.

Lemma declining_run {A : Type} (p : Prog A) (w : Repo.t) :
  declining w -> declining (final (run Repo.handle p w)).
Proof.
  revert w. induction p as [a | e | c k IH]; intros w H; [exact H | exact H |].
  cbn [run final]. apply IH. now apply declining_handle.
Qed.

Lemma declining_answer (w : Repo.t) (msg : Message) :
  declining w -> accepted false (fst (Repo.handle w (Confirm msg false))) = false.
Proof.
  unfold declining. intros H. cbn.
  destruct (Repo.answers w) as [| a rest]; [reflexivity |].
  inversion H as [| ? ? Ha _]; subst. now destruct a.
Qed.

Lemma repo_offer_declining (head p0 : string) (candidates : list string)
  (w : Repo.t) :
  declining w ->
  let o := run Repo.handle (offer_in_turn head p0 candidates) w in
  shown o = map (removal_msg head) candidates
  /\ final o = answered_n (List.length candidates) w
  /\ result o = inr false.
Proof.
  revert w. induction candidates as [| c rest IH]; intros w Hw o; subst o.
  - repeat split.
  - unfold offer_in_turn. cbn [for_until]. rewrite run_bind.
    assert (Ha : accepted false
                   (fst (Repo.handle (snd (Repo.handle w ActiveBranch))
                           (Confirm (removal_msg head c) false))) = false)
      by (rewrite repo_active_branch; now apply declining_answer).
    rewrite (request_removal_declined Repo.handle w head c p0 Ha).
    unfold then_run. cbn [result trace final].
    rewrite repo_active_branch. cbn [fst snd].
    change (snd (Repo.handle w (Confirm (removal_msg head c) false)))
      with (answered w).
    assert (Hw' : declining (answered w)) by now apply declining_handle.
    destruct (IH (answered w) Hw') as [Hs [Hf Hr]].
    unfold shown in *. cbn [trace app events map prompts prompt_of snd fst].
    split; [| split].
    + cbn [map fst]. f_equal. exact Hs.
    + exact Hf.
    + exact Hr.
Qed.

Lemma same_refl {A : Type} (o : Outcome Repo.t A) : same_up_to_prompt_order o o.
Proof. repeat split. apply Permutation_refl. Qed.

Lemma shown_app {A B : Type} (o1 : Outcome Repo.t A) (o2 : Outcome Repo.t B)
  (r : Exn + B) :
  shown (mkOutcome (trace o1 ++ trace o2)%list (final o2) r)
  = (shown o1 ++ shown o2)%list.
Proof. unfold shown. cbn [trace]. now rewrite events_app, prompts_app, map_app. Qed.

Lemma same_then_run {A B : Type} (o1 o2 : Outcome Repo.t A)
  (f1 f2 : A -> Repo.t -> Outcome Repo.t B) :
  same_up_to_prompt_order o1 o2 ->
  (forall a, result o1 = inr a ->
             same_up_to_prompt_order (f1 a (final o1)) (f2 a (final o1))) ->
  same_up_to_prompt_order (then_run o1 f1) (then_run o2 f2).
Proof.
  intros [Hs [Hf Hr]] H. unfold then_run. rewrite <- Hr, <- Hf.
  destruct (result o1) as [e | a].
  - repeat split; assumption.
  - destruct (H a eq_refl) as [Hs' [Hf' Hr']].
    split; [| split; assumption].
    rewrite !shown_app. now apply Permutation_app.
Qed.

Lemma same_bind_prefix {A B : Type} (p : Prog A) (f1 f2 : A -> Prog B)
  (w : Repo.t) :
  declining w ->
  (forall a w', declining w' ->
     same_up_to_prompt_order (run Repo.handle (f1 a) w') (run Repo.handle (f2 a) w')) ->
  same_up_to_prompt_order (run Repo.handle (bind p f1) w)
                          (run Repo.handle (bind p f2) w).
Proof.
  intros Hw H. rewrite !run_bind. apply same_then_run; [apply same_refl |].
  intros a _. apply H. now apply declining_run.
Qed.

Lemma same_prepend {A : Type} (x : Repo.t * Event) (o1 o2 : Outcome Repo.t A) :
  same_up_to_prompt_order o1 o2 ->
  same_up_to_prompt_order (prepend x o1) (prepend x o2).
Proof.
  intros [Hs [Hf Hr]]. split; [| split; assumption].
  unfold shown in *. cbn [prepend trace events map prompts].
  destruct (prompt_of (snd x)); cbn [map]; [now constructor | assumption].
Qed.

Lemma same_ignore_value {A : Type} (o1 o2 : Outcome Repo.t A) :
  same_up_to_prompt_order o1 o2 ->
  same_up_to_prompt_order (ignore_value o1) (ignore_value o2).
Proof.
  intros [Hs [Hf Hr]]. split; [exact Hs |]. split; [exact Hf |].
  cbn. now rewrite Hr.
Qed.

Lemma examine_descendants_same (HO1 HO2 : HashOrder) (head : string)
  (remotes permanent d1 d2 : list string) (w : Repo.t) :
  declining w -> NoDup d1 -> NoDup d2 -> (forall y, In y d1 <-> In y d2) ->
  same_up_to_prompt_order
    (run Repo.handle (@examine_descendants HO1 head remotes permanent d1) w)
    (run Repo.handle (@examine_descendants HO2 head remotes permanent d2) w).
Proof.
  intros Hw Hn1 Hn2 H.
  destruct (first_permanent_match remotes permanent d1) as [t |] eqn:Hm.
  - rewrite (examine_matched_same HO1 HO2 Repo.handle w head remotes permanent
               d1 d2 t H Hm).
    apply same_refl.
  - assert (Hm2 : first_permanent_match remotes permanent d2 = None)
      by now rewrite <- (first_permanent_match_same _ _ _ _ H).
    destruct permanent as [| p0 others].
    + destruct d1 as [| x d1].
      * assert (d2 = []) as ->.
        { destruct d2 as [| y d2]; [reflexivity |].
          exfalso. apply (proj2 (H y)). now left. }
        rewrite (examine_nothing (HO := HO1)), (examine_nothing (HO := HO2)).
        apply same_refl.
      * rewrite (examine_unprotected (HO := HO1)) by discriminate.
        rewrite (examine_unprotected (HO := HO2)).
        -- apply same_refl.
        -- intros ->. apply (proj1 (H x)). now left.
    + rewrite (run_examine_unmatched (HO := HO1)) by assumption.
      rewrite (run_examine_unmatched (HO := HO2)) by assumption.
      apply same_ignore_value.
      pose proof (fallback_candidates_Permutation HO1 HO2 d1 d2 Hn1 Hn2 H) as Hp.
      destruct (repo_offer_declining head p0 (@fallback_candidates HO1 d1) w Hw)
        as [S1 [F1 R1]].
      destruct (repo_offer_declining head p0 (@fallback_candidates HO2 d2) w Hw)
        as [S2 [F2 R2]].
      split; [| split].
      * rewrite S1, S2. now apply Permutation_map.
      * rewrite F1, F2. now rewrite (Permutation_length Hp).
      * now rewrite R1, R2.
Qed.

Lemma examine_branch_same (HO1 HO2 : HashOrder) (head : string)
  (remotes permanent : list string) (w : Repo.t) :
  declining w ->
  same_up_to_prompt_order
    (run Repo.handle (@_examine_branch HO1 head remotes permanent) w)
    (run Repo.handle (@_examine_branch HO2 head remotes permanent) w).
Proof.
  intros Hw.
  rewrite (run_examine_branch (HO := HO1)), (run_examine_branch (HO := HO2)).
  pose proof (declining_handle w (Run (contains_query head)) Hw) as Hw1.
  destruct (fst (Repo.handle w (Run (contains_query head)))) as [lines |];
    [| apply same_refl].
  apply same_prepend.
  rewrite (mem_same_elements _ _ head (containing_set_same HO1 HO2 lines)).
  destruct (mem head (@containing_set HO2 lines)); [| apply same_refl].
  apply examine_descendants_same.
  - exact Hw1.
  - apply discard_NoDup, set_of_NoDup.
  - apply discard_NoDup, set_of_NoDup.
  - apply descendants_same.
Qed.

Lemma cleanup_loop_same (HO1 HO2 : HashOrder) (heads remotes permanent : list string)
  (w : Repo.t) :
  declining w ->
  same_up_to_prompt_order
    (run Repo.handle (@cleanup_loop HO1 heads remotes permanent) w)
    (run Repo.handle (@cleanup_loop HO2 heads remotes permanent) w).
Proof.
  revert w. induction heads as [| head rest IH]; intros w Hw.
  - apply same_refl.
  - unfold cleanup_loop in *. cbn [for_each]. rewrite !run_bind.
    apply same_then_run.
    + destruct (mem head permanent); [apply same_refl |].
      now apply examine_branch_same.
    + intros [] _. apply IH. now apply declining_run.
Qed.

Ltac same_step :=
  first
    [ apply same_bind_prefix; [assumption | intros ? ? ?]
    | match goal with
      | |- same_up_to_prompt_order (run _ (match ?x with _ => _ end) _) _ =>
          destruct x
      end
    | apply cleanup_loop_same; assumption
    | apply same_refl ].

Lemma main_same (HO1 HO2 : HashOrder) (fetch : option bool)
  (permanent remote_arg : list string) (w : Repo.t) :
  declining w ->
  same_up_to_prompt_order
    (run Repo.handle (@main HO1 fetch permanent remote_arg) w)
    (run Repo.handle (@main HO2 fetch permanent remote_arg) w).
Proof.
  intros Hw. unfold main. cbv zeta.
  repeat same_step.
Qed.

(** C7, as the code has it: the prompts of a run depend on the order in
    which Python iterates over the sets [descendants] and [try_again], which
    changes with the hash seed of the process.  What is the same in every
    run: the examination of a branch that has a permanent match; and, on one
    repository with a user who refuses every prompt, the prompts of [main]
    up to their order, the final state and the result. *)
Theorem prompts_up_to_hash_order :
  (forall (HO1 HO2 : HashOrder) (W : Type)
     (handle : W -> forall c : Cmd, Resp c * W) (w : W) (head : string)
     (remotes permanent : list string) (lines t : string),
   fst (handle w (Run (contains_query head))) = Some lines ->
   first_permanent_match remotes permanent
     (discard head (@containing_set HO1 lines)) = Some t ->
   run handle (@_examine_branch HO1 head remotes permanent) w
   = run handle (@_examine_branch HO2 head remotes permanent) w)
  /\ (forall (HO1 HO2 : HashOrder) (fetch : option bool)
        (permanent remote_arg : list string) (w : Repo.t),
      Forall (fun a => a <> AnsYes) (Repo.answers w) ->
      let o1 := run Repo.handle (@main HO1 fetch permanent remote_arg) w in
      let o2 := run Repo.handle (@main HO2 fetch permanent remote_arg) w in
      Permutation (shown o1) (shown o2)
      /\ final o1 = final o2
      /\ result o1 = result o2).
Proof.
  split.
  - intros HO1 HO2 W handle w head remotes permanent lines t Hq Hm.
    rewrite (run_examine_branch (HO := HO1)), (run_examine_branch (HO := HO2)), Hq.
    rewrite (mem_same_elements _ _ head (containing_set_same HO1 HO2 lines)).
    destruct (mem head (@containing_set HO2 lines)); [| reflexivity].
    f_equal.
    apply (examine_matched_same HO1 HO2 handle _ head remotes permanent _ _ t);
      [apply descendants_same | exact Hm].
  - intros HO1 HO2 fetch permanent remote_arg w Hw.
    apply (main_same HO1 HO2 fetch permanent remote_arg w Hw).
Qed.

Lemma prompts_up_to_hash_order_witness :
  let w := forked_repo [AnsNo; AnsEmpty] in
  let o1 := run Repo.handle (@main insertion_order None [] []) w in
  let o2 := run Repo.handle (@main reverse_order None [] []) w in
  Forall (fun a => a <> AnsYes) (Repo.answers w)
  /\ shown o1 = [removal_msg "feature-x" "remotes/fork/topic";
                 removal_msg "feature-x" "remotes/origin/topic"]
  /\ shown o2 = [removal_msg "feature-x" "remotes/origin/topic";
                 removal_msg "feature-x" "remotes/fork/topic"]
  /\ Permutation (shown o1) (shown o2)
  /\ final o1 = final o2
  /\ result o1 = result o2.
Proof.
  intros w o1 o2.
  assert (Hw : Forall (fun a => a <> AnsYes) (Repo.answers w))
    by (repeat constructor; discriminate).
  split; [exact Hw |]. split; [reflexivity |]. split; [reflexivity |].
  exact (proj2 prompts_up_to_hash_order insertion_order reverse_order
           None [] [] w Hw).
Defined.

(** One repository, one sequence of answers, two hash seeds: the prompts
    come in a different order, and with them the answers land on different
    targets. *)
Lemma prompts_differ_between_runs :
  let w := forked_repo [AnsNo; AnsEmpty] in
  let o1 := run Repo.handle (@main insertion_order None [] []) w in
  let o2 := run Repo.handle (@main reverse_order None [] []) w in
  prompts (events (trace o1))
  = [(removal_msg "feature-x" "remotes/fork/topic", false, AnsNo);
     (removal_msg "feature-x" "remotes/origin/topic", false, AnsEmpty)]
  /\ prompts (events (trace o2))
     = [(removal_msg "feature-x" "remotes/origin/topic", false, AnsNo);
        (removal_msg "feature-x" "remotes/fork/topic", false, AnsEmpty)]
  /\ prompts (events (trace o1)) <> prompts (events (trace o2)).
Proof.
  intros w o1 o2. split; [reflexivity |]. split; [reflexivity |].
  vm_compute. discriminate.
Qed.

(** ** The scenarios of the specification *)

(** [feature-x] is merged into [main], is not the active branch, and the
    user confirms: it is deleted without any checkout. *)
Example confirmed_deletion_without_switch :
  let o := run Repo.handle (main None [] []) (merged_repo (Some "main") [AnsYes]) in
  mutations (events (trace o)) = [Delete "feature-x"]
  /\ Repo.heads (final o) = ["develop"; "main"; "topic"]
  /\ Repo.active (final o) = Some "main"
  /\ result o = inr tt.
Proof. repeat split. Qed.

(** The same with [feature-x] checked out: one checkout of [main], the
    first permanent branch, comes before the deletion. *)
Example confirmed_deletion_after_switch :
  let o := run Repo.handle (main None [] []) (merged_repo (Some "feature-x") [AnsYes]) in
  mutations (events (trace o)) = [Checkout "main"; Delete "feature-x"]
  /\ Repo.heads (final o) = ["develop"; "main"; "topic"]
  /\ Repo.active (final o) = Some "main"
  /\ result o = inr tt.
Proof. repeat split. Qed.

(** An empty answer is a refusal: nothing changes. *)
Example empty_answer_declines :
  let o := run Repo.handle (main None [] []) (merged_repo (Some "feature-x") [AnsEmpty]) in
  prompts (events (trace o)) = [(removal_msg "feature-x" "main", false, AnsEmpty)]
  /\ mutations (events (trace o)) = []
  /\ Repo.heads (final o) = ["develop"; "feature-x"; "main"; "topic"]
  /\ Repo.active (final o) = Some "feature-x".
Proof. repeat split. Qed.

(** ** The string built-ins on the texts the script meets *)

Example splitlines_branch_output :
  PyStr.splitlines ("  feature-x" ++ Repo.nl ++ "* main" ++ Repo.nl)
  = ["  feature-x"; "* main"].
Proof. reflexivity. Qed.

Example splitlines_mixed_boundaries :
  PyStr.splitlines ("a" ++ String "013" (String "010" (String "010" "b")))
  = ["a"; ""; "b"].
Proof. reflexivity. Qed.

Example branch_name_of_line :
  PyStr.rstrip (PyStr.drop 2 "* remotes/origin/main  ") = "remotes/origin/main".
Proof. reflexivity. Qed.

Example split_show_ref_line :
  PyStr.split " " "5f3c2a1b refs/heads/main" = ["5f3c2a1b"; "refs/heads/main"].
Proof. reflexivity. Qed.

Example split_remote_ref :
  PyStr.split_once "/" "origin/topic/one" = Some ("origin", "topic/one").
Proof. reflexivity. Qed.

Example remote_head_pointer :
  PyStr.endswith "refs/remotes/origin/HEAD" "/HEAD" = true.
Proof. reflexivity. Qed.

Example get_refs_of_reference_repository :
  result (run Repo.handle _get_refs (merged_repo None []))
  = inr (mkRefs ["develop"; "feature-x"; "main"; "topic"]
                [("origin", ["main"; "topic"])] []).
Proof. reflexivity. Qed.

(** * Further properties of the script *)

(** ** [main] in two parts *)

Lemma main_unfold {HO : HashOrder} (fetch : option bool)
  (permanent remote_arg : list string) :
  main fetch permanent remote_arg
  = (Vis OpenRepo (fun ok => if ok then Ret tt else Throw InvalidGitRepositoryError) ;;
     refs <- _get_refs ;;
     conf <- Vis GetConfig Ret ;;
     after_config fetch (permanent_in_force permanent conf)
                  (remotes_in_force refs conf) conf).
Proof. reflexivity. Qed.

(** ** Induction over the script

    A property of programs that holds of [Ret], is kept by [bind], and holds
    of the requests ([asked]) and of the exceptions ([raised]) the script
    makes, holds of each function of the script, once it holds of the calls
    of the executor. *)

Section ScriptInduction.
Context {HO : HashOrder}.
Variable T : forall A : Type, Prog A -> Prop.
Variable asked : Cmd -> Prop.
Variable raised : Exn -> Prop.

Hypothesis T_ret : forall (A : Type) (a : A), T A (Ret a).
Hypothesis T_bind :
  forall (A B : Type) (p : Prog A) (f : A -> Prog B),
    T A p -> (forall a, T B (f a)) -> T B (bind p f).
Hypothesis T_throw : forall (A : Type) (e : Exn), raised e -> T A (Throw e).
Hypothesis T_vis :
  forall (A : Type) (c : Cmd) (k : Resp c -> Prog A),
    asked c -> (forall r, T A (k r)) -> T A (Vis c k).

Lemma script_run (cmd : list string) :
  asked (Run cmd) -> raised (CalledProcessError cmd) -> T string (_run cmd).
Proof.
  intros Ha Hr. unfold _run. apply T_vis; [exact Ha |].
  intros [out |]; [apply T_ret | now apply T_throw].
Qed.

Lemma script_secho (text : string) (st : Style) (nl : bool) :
  asked (Echo [Styled st text] nl) -> T unit (secho text st nl).
Proof. intros Ha. unfold secho. apply T_vis; [exact Ha | apply T_ret]. Qed.

Lemma script_for_each {X : Type} (l : list X) (body : X -> Prog unit) :
  (forall x, In x l -> T unit (body x)) -> T unit (for_each l body).
Proof.
  induction l as [| x l IH]; intros H; cbn [for_each]; [apply T_ret |].
  apply T_bind; [apply H; now left |].
  intros _. apply IH. intros y Hy. apply H. now right.
Qed.

Lemma script_for_until {X : Type} (l : list X) (body : X -> Prog bool) :
  (forall x, In x l -> T bool (body x)) -> T bool (for_until l body).
Proof.
  induction l as [| x l IH]; intros H; cbn [for_until]; [apply T_ret |].
  apply T_bind; [apply H; now left |].
  intros [|]; [apply T_ret |]. apply IH. intros y Hy. apply H. now right.
Qed.

(** *** The examination of one branch *)

Section OneBranch.
Variables (head : string) (remotes permanent : list string).

Hypothesis T_request :
  forall other p0,
    hd_error permanent = Some p0 -> T bool (_request_removal head other p0).
Hypothesis raised_index : permanent = [] -> raised IndexError.

Lemma script_request_first (other : string) :
  T bool (dj <- first_of permanent ;; _request_removal head other dj).
Proof.
  destruct permanent as [| p0 others] eqn:E; cbn [first_of bind].
  - apply T_throw. now apply raised_index.
  - now apply T_request.
Qed.

Lemma script_request_return (other : string) :
  T bool (dj <- first_of permanent ;; _request_removal head other dj ;; Ret true).
Proof.
  destruct permanent as [| p0 others] eqn:E; cbn [first_of bind].
  - apply T_throw. now apply raised_index.
  - apply T_bind; [now apply T_request | intros _; apply T_ret].
Qed.

Lemma script_permanent_pass (descendants : list string) :
  T bool (permanent_pass head remotes permanent descendants).
Proof.
  unfold permanent_pass. apply script_for_until. intros perm _.
  destruct (mem perm descendants); [apply script_request_return |].
  apply script_for_until. intros remote _. cbv zeta.
  destruct (mem (qualified remote perm) descendants);
    [apply script_request_return | apply T_ret].
Qed.

Lemma script_remote_pass (others try_again : list string) :
  T (bool * list string) (remote_pass head permanent others try_again).
Proof.
  revert try_again. induction others as [| other rest IH]; intros try_again;
    cbn [remote_pass]; [apply T_ret |].
  destruct (PyStr.startswith other "remotes/"); [| apply IH].
  destruct permanent as [| p0 others'] eqn:E; cbn [first_of bind].
  - apply T_throw. now apply raised_index.
  - apply T_bind; [now apply T_request |].
    intros [|]; [apply T_ret | apply IH].
Qed.

Lemma script_examine_descendants (descendants : list string) :
  T unit (examine_descendants head remotes permanent descendants).
Proof.
  unfold examine_descendants.
  apply T_bind; [apply script_permanent_pass |].
  intros [|]; [apply T_ret |].
  apply T_bind; [apply script_remote_pass |].
  intros r. destruct (fst r); [apply T_ret |].
  apply T_bind; [| intros _; apply T_ret].
  unfold local_pass. apply script_for_until. intros other _.
  apply script_request_first.
Qed.

Hypothesis asked_contains : asked (Run (contains_query head)).
Hypothesis raised_contains : raised (CalledProcessError (contains_query head)).
Hypothesis raised_key : raised (KeyError head).

Lemma script_examine_branch : T unit (_examine_branch head remotes permanent).
Proof.
  unfold _examine_branch.
  apply T_bind; [now apply script_run |].
  intros lines. apply T_bind; [| intros d; apply script_examine_descendants].
  unfold set_remove. destruct (mem head (containing_set lines));
    [apply T_ret | now apply T_throw].
Qed.

End OneBranch.

(** *** The loop *)

Section TheLoop.
Variables (heads remotes permanent : list string).

Hypothesis T_request :
  forall head other p0,
    In head heads -> ~ In head permanent -> hd_error permanent = Some p0 ->
    T bool (_request_removal head other p0).
Hypothesis raised_index : permanent = [] -> raised IndexError.
Hypothesis asked_contains : forall head, In head heads -> asked (Run (contains_query head)).
Hypothesis raised_contains :
  forall head, In head heads -> raised (CalledProcessError (contains_query head)).
Hypothesis raised_key : forall head, In head heads -> raised (KeyError head).
Hypothesis asked_echo : forall text st nl, asked (Echo [Styled st text] nl).

Lemma script_cleanup_loop : T unit (cleanup_loop heads remotes permanent).
Proof.
  unfold cleanup_loop. apply script_for_each. intros head Hin.
  destruct (mem head permanent) eqn:Hm.
  - apply T_bind; [| intros _]; now apply script_secho.
  - apply mem_false in Hm. apply script_examine_branch; auto.
Qed.

End TheLoop.

(** *** The inventory and the creation of permanent branches *)

Lemma script_get_refs_lines (acc : Refs) (lines : list string) :
  raised ValueError ->
  (forall ref, raised (AssertionError ref)) ->
  (forall ref, raised (PyException ("Unexpected ref '" ++ ref ++ "'"))) ->
  T Refs (get_refs_lines acc lines).
Proof.
  intros Hv Ha He. revert acc.
  induction lines as [| line rest IH]; intros acc; cbn [get_refs_lines];
    [apply T_ret |].
  apply T_bind; [| intros acc'; apply IH].
  unfold get_refs_line.
  repeat match goal with
    | |- T _ (Ret _) => apply T_ret
    | |- T _ (Throw _) => apply T_throw; auto
    | |- T _ (if ?b then _ else _) => destruct b
    | |- T _ (match ?x with _ => _ end) => destruct x
    end.
Qed.

Lemma script_get_refs :
  asked (Run ["git"; "show-ref"]) ->
  raised (CalledProcessError ["git"; "show-ref"]) ->
  raised ValueError ->
  (forall ref, raised (AssertionError ref)) ->
  (forall ref, raised (PyException ("Unexpected ref '" ++ ref ++ "'"))) ->
  T Refs _get_refs.
Proof.
  intros. unfold _get_refs.
  apply T_bind; [now apply script_run |].
  intros out. now apply script_get_refs_lines.
Qed.

Lemma script_createPermanent (name : string) (remotes : list string) :
  (forall text st nl, asked (Echo [Styled st text] nl)) ->
  asked RepoRemotes ->
  (forall r, In r remotes ->
             asked (GitBranch ["--track"; name; r ++ "/" ++ name])
             /\ raised (GitCommandError ["--track"; name; r ++ "/" ++ name])) ->
  T unit (_createPermanent name remotes).
Proof.
  intros He Hr Hb. unfold _createPermanent. cbv zeta.
  apply T_bind; [now apply script_secho |]. intros _.
  destruct remotes as [| r0 rs0] eqn:E; [now apply script_secho |].
  rewrite <- E in *.
  apply T_bind; [apply T_vis; [exact Hr | apply T_ret] |].
  intros rs.
  destruct (filter _ rs) as [| r [| r' l]] eqn:Hf; try now apply script_secho.
  assert (Hin : In r (filter
            (fun r : string * list string =>
               mem (fst r) remotes
               && existsb (fun ref => String.eqb ref (fst r ++ "/" ++ name)) (snd r))
            rs)) by (rewrite Hf; now left).
  apply filter_In in Hin. destruct Hin as [_ Hin].
  apply andb_prop in Hin. destruct Hin as [Hin _]. apply mem_In in Hin.
  destruct (Hb (fst r) Hin) as [Ha Hg].
  apply T_vis; [exact Ha |].
  intros [out |]; [apply T_ret | now apply T_throw].
Qed.

(** *** The driver *)

Section AfterConfig.
Variable permanent : list string.

Hypothesis T_request :
  forall head other p0,
    ~ In head permanent -> hd_error permanent = Some p0 ->
    T bool (_request_removal head other p0).
Hypothesis asked_driver : forall c, driver_request c -> asked c.
Hypothesis raised_driver :
  forall e, driver_exception e -> e <> IndexError -> raised e.
Hypothesis raised_index : permanent = [] -> raised IndexError.

Lemma script_after_config (fetch : option bool) (remotes : list string)
  (conf : Config) :
  T unit (after_config fetch permanent remotes conf).
Proof.
  assert (Hr : forall e, driver_exception e -> e <> IndexError -> raised e)
    by exact raised_driver.
  unfold after_config.
  destruct remotes as [| r0 rs0] eqn:E;
    [apply T_throw; apply Hr; [constructor | discriminate] |].
  rewrite <- E. cbv zeta.
  apply T_bind.
  { destruct (match fetch with None => fetch_first conf | Some b => b end);
      [| apply T_ret].
    apply T_bind; [apply script_secho; auto using driver_request |].
    intros _. apply T_bind; [| intros _; apply T_ret].
    apply script_run; [auto using driver_request |].
    apply Hr; [constructor | discriminate]. }
  intros _. apply T_bind.
  { destruct (always_create_permanent_branches conf); [| apply T_ret].
    apply script_for_each. intros name _.
    apply T_bind; [apply T_vis; [auto using driver_request | apply T_ret] |].
    intros heads. destruct (mem name heads); [apply T_ret |].
    apply script_createPermanent; auto using driver_request.
    intros r _. split; [auto using driver_request |].
    apply Hr; [constructor | discriminate]. }
  intros _. apply T_bind.
  { destruct (_ || _); [| apply T_ret].
    destruct rs0; try apply T_ret.
    apply script_for_each. intros name _. unfold _do_fast_forward.
    apply T_throw. apply Hr; [constructor | discriminate]. }
  intros _. apply T_bind.
  { destruct (String.eqb _ _); [| apply T_ret].
    apply T_throw. apply Hr; [constructor | discriminate]. }
  intros _. apply T_bind; [apply T_vis; [auto using driver_request | apply T_ret] |].
  intros heads. apply script_cleanup_loop; auto using driver_request.
  - intros head _. apply Hr; [constructor | discriminate].
  - intros head _. apply Hr; [constructor | discriminate].
Qed.

End AfterConfig.

Section TheDriver.
Hypothesis T_request :
  forall head other p0, T bool (_request_removal head other p0).
Hypothesis asked_driver : forall c, driver_request c -> asked c.
Hypothesis raised_driver : forall e, driver_exception e -> raised e.

Lemma script_main (fetch : option bool) (permanent remote_arg : list string) :
  T unit (main fetch permanent remote_arg).
Proof.
  rewrite main_unfold.
  apply T_bind.
  { apply T_vis; [auto using driver_request |].
    intros [|]; [apply T_ret | apply T_throw; auto using driver_exception]. }
  intros _. apply T_bind.
  { apply script_get_refs; auto using driver_request, driver_exception. }
  intros refs. apply T_bind; [apply T_vis; [auto using driver_request | apply T_ret] |].
  intros conf. apply script_after_config; auto using driver_exception.
Qed.

End TheDriver.

End ScriptInduction.

(** ** What [main] asks for *)

(** X1: whatever the collaborators answer, [main] runs no other git command
    than [git show-ref], [git fetch --multiple ..], [git branch --all
    --contains=..], [git checkout ..] and [git branch -D ..]; it calls
    GitPython's [branch] with [--track] only; and each of its prompts has
    the default answer "no". *)
Theorem main_runs_known_commands {HO : HashOrder} {W : Type}
  (handle : W -> forall c : Cmd, Resp c * W) (w : W)
  (fetch : option bool) (permanent remote_arg : list string) :
  Forall (fun x => expected_event (snd x) = true)
         (trace (run handle (main fetch permanent remote_arg) w)).
Proof.
  revert w.
  change (always handle (fun x : W * Event => expected_event (snd x) = true)
                 (main fetch permanent remote_arg)).
  apply (script_main
           (fun A p => @always W handle
                         (fun x : W * Event => expected_event (snd x) = true) A p)
           (fun c => forall r, expected_event (event_of c r) = true)
           (fun _ => True)).
  - intros; apply always_ret.
  - intros; now apply always_bind.
  - intros; apply always_throw.
  - intros A c k Ha Hk. apply always_vis; [intros w; apply Ha | exact Hk].
  - intros head other p0. unfold _request_removal, current_branch, confirm, echo, _run.
    repeat always_step.
  - intros c Hc r. destruct Hc; try reflexivity. cbn. now destruct head.
  - trivial.
Qed.

(** ** Consent *)

Lemma consents_app (es1 es2 : list Event) :
  consents (es1 ++ es2) = (consents es1 ++ consents es2)%list.
Proof.
  induction es1 as [| e es1 IH]; [reflexivity |].
  cbn [app consents]. destruct (consent_of e); [cbn; now f_equal | exact IH].
Qed.

Lemma deletions_app (es1 es2 : list Event) :
  deletions (es1 ++ es2) = (deletions es1 ++ deletions es2)%list.
Proof.
  induction es1 as [| e es1 IH]; [reflexivity |].
  cbn [app deletions]. destruct (deletion_of e); [cbn; now f_equal | exact IH].
Qed.

Lemma run_vis_eq {W : Type} (handle : W -> forall c : Cmd, Resp c * W)
  {A : Type} (c : Cmd) (k : Resp c -> Prog A) (w : W) :
  run handle (Vis c k) w
  = prepend (w, event_of c (fst (handle w c)))
            (run handle (k (fst (handle w c))) (snd (handle w c))).
Proof. reflexivity. Qed.

(** Symbolic execution that keeps the run linear in the number of requests. *)
Ltac exec h :=
  repeat first
    [ rewrite (run_vis_eq h)
    | progress cbn [bind fst snd]
    | match goal with
      | |- context [h ?w ?c] =>
          let r := fresh "r" in
          let w' := fresh "w" in
          destruct (h w c) as [r w'] eqn:?
      | |- context [match ?r with Some _ => _ | None => _ end] => is_var r; destruct r
      end ].

Section Consent.
Context {W : Type} (handle : W -> forall c : Cmd, Resp c * W).

Lemma consent_kept_bind {A B : Type} (p : Prog A) (f : A -> Prog B) (w : W) :
  consent_kept (run handle p w) ->
  (forall a w', consent_kept (run handle (f a) w')) ->
  consent_kept (run handle (bind p f) w).
Proof.
  intros (pending & Hc & Hok & Hlen) Hf. rewrite run_bind. unfold then_run.
  destruct (result (run handle p w)) as [e | a] eqn:Hr.
  - exists pending. cbn. repeat split; [exact Hc | discriminate | exact Hlen].
  - rewrite (Hok a eq_refl), app_nil_r in Hc.
    destruct (Hf a (final (run handle p w))) as (pending' & Hc' & Hok' & Hlen').
    exists pending'. cbn [trace result].
    rewrite events_app, consents_app, deletions_app, Hc, Hc', app_assoc.
    repeat split; assumption.
Qed.

Lemma consent_kept_vis {A : Type} (c : Cmd) (k : Resp c -> Prog A) (w : W) :
  (forall r, consent_of (event_of c r) = None /\ deletion_of (event_of c r) = None) ->
  (forall r w', consent_kept (run handle (k r) w')) ->
  consent_kept (run handle (Vis c k) w).
Proof.
  intros Hc Hk. cbn [run].
  destruct (Hk (fst (handle w c)) (snd (handle w c))) as (pending & H1 & H2 & H3).
  destruct (Hc (fst (handle w c))) as [Hc1 Hc2].
  exists pending. cbn [trace result events map snd consents deletions].
  rewrite Hc1, Hc2. repeat split; assumption.
Qed.

Lemma consent_kept_request_removal (head othername defaultJump : string) (w : W) :
  consent_kept (run handle (_request_removal head othername defaultJump) w).
Proof.
  set (Q := @consent_kept W bool).
  unfold _request_removal, current_branch, confirm, echo, _run.
  exec handle.
  destruct r0; cbn [accepted]; [destruct (is_current head r) | |];
    exec handle; subst Q; unfold consent_kept, prepend;
    cbn [run trace result events map snd event_of];
    first [ exists []; split; [vm_compute; reflexivity |];
            split; [first [intros; reflexivity | discriminate] | cbn; lia]
          | exists [head]; split; [vm_compute; reflexivity |];
            split; [first [intros; reflexivity | discriminate] | cbn; lia] ].
Qed.

End Consent.

(** X2: the [git branch -D] commands of a run of [main] are for the branches
    of the accepted prompts, in the order of the prompts; an accepted prompt
    is without its deletion command only if it is the last one and the run
    ended with an exception. *)
Theorem deletions_follow_consent {HO : HashOrder} {W : Type}
  (handle : W -> forall c : Cmd, Resp c * W) (w : W)
  (fetch : option bool) (permanent remote_arg : list string) :
  consent_kept (run handle (main fetch permanent remote_arg) w).
Proof.
  revert w.
  apply (script_main
           (fun A p => forall w, consent_kept (run handle p w))
           (fun c => forall r, consent_of (event_of c r) = None
                               /\ deletion_of (event_of c r) = None)
           (fun _ => True)).
  - intros A a w. exists []. repeat split; cbn; lia.
  - intros A B p f Hp Hf w. apply consent_kept_bind; [apply Hp | intros; apply Hf].
  - intros A e _ w. exists []. repeat split; first [discriminate | cbn; lia].
  - intros A c k Ha Hk w. apply consent_kept_vis; [exact Ha | intros; apply Hk].
  - intros head other p0 w. apply consent_kept_request_removal.
  - intros c Hc r. destruct Hc; split; reflexivity.
  - trivial.
Qed.

(** ** Declining every prompt *)

Section Declining.
Context {W : Type} (handle : W -> forall c : Cmd, Resp c * W).

Lemma untouched_bind {A B : Type} (p : Prog A) (f : A -> Prog B) :
  untouched handle p -> (forall a, untouched handle (f a)) ->
  untouched handle (bind p f).
Proof.
  intros Hp Hf w. rewrite run_bind. unfold then_run.
  destruct (result (run handle p w)) as [e | a]; cbn [trace]; [apply Hp |].
  rewrite events_app, prompts_app, mutations_app. intros H.
  apply Forall_app in H. destruct H as [H1 H2].
  now rewrite (Hp w H1), (Hf a _ H2).
Qed.

Lemma untouched_vis {A : Type} (c : Cmd) (k : Resp c -> Prog A) :
  (forall r, mutation_of (event_of c r) = None) ->
  (forall r, untouched handle (k r)) -> untouched handle (Vis c k).
Proof.
  intros Hc Hk w. cbn [run trace events map snd prompts mutations].
  rewrite Hc. intros H. apply Hk.
  destruct (prompt_of _); [now apply Forall_inv_tail in H | exact H].
Qed.

Lemma untouched_request_removal (head othername defaultJump : string) :
  untouched handle (_request_removal head othername defaultJump).
Proof.
  intros w H.
  destruct (request_removal_outcome handle head defaultJump othername w)
    as (a & Hp & Hd & _).
  cbv zeta in Hp, Hd. rewrite Hp in H. apply Forall_inv in H.
  now apply Hd.
Qed.

End Declining.

(** X3: a run of [main] in which every prompt is declined issues neither a
    checkout nor a deletion. *)
Theorem declining_everything_changes_nothing {HO : HashOrder} {W : Type}
  (handle : W -> forall c : Cmd, Resp c * W) (w : W)
  (fetch : option bool) (permanent remote_arg : list string) :
  let o := run handle (main fetch permanent remote_arg) w in
  Forall declined (prompts (events (trace o))) ->
  mutations (events (trace o)) = [].
Proof.
  cbv zeta. revert w.
  apply (script_main
           (fun A p => @untouched W handle A p)
           (fun c => forall r, mutation_of (event_of c r) = None)
           (fun _ => True)).
  - intros A a w _. reflexivity.
  - intros A B p f. apply untouched_bind.
  - intros A e _ w _. reflexivity.
  - intros A c k. apply untouched_vis.
  - intros head other p0. apply untouched_request_removal.
  - intros c Hc r. destruct Hc; reflexivity.
  - trivial.
Qed.

Lemma declining_everything_changes_nothing_witness :
  let o := run Repo.handle (main None [] [])
               (topic_repo (Some "feature-x") [AnsNo; AnsEmpty] (fun _ => false)) in
  Forall declined (prompts (events (trace o)))
  /\ List.length (prompts (events (trace o))) = 2
  /\ mutations (events (trace o)) = [].
Proof.
  cbv zeta.
  assert (H : Forall declined
                (prompts (events (trace (run Repo.handle (main None [] [])
                   (topic_repo (Some "feature-x") [AnsNo; AnsEmpty] (fun _ => false))))))).
  { vm_compute. repeat constructor. }
  split; [exact H |]. split; [vm_compute; reflexivity |].
  exact (declining_everything_changes_nothing Repo.handle _ None [] [] H).
Defined.

(** ** The exceptions of [main] *)

Section Raises.
Context {W : Type} (handle : W -> forall c : Cmd, Resp c * W).
Variable R : Exn -> Prop.

Lemma raises_ret {A : Type} (a : A) : raises handle R (Ret a).
Proof. intros w e H. discriminate. Qed.

Lemma raises_throw {A : Type} (e : Exn) : R e -> raises handle R (@Throw A e).
Proof. intros He w e' H. cbn in H. now injection H as <-. Qed.

Lemma raises_bind {A B : Type} (p : Prog A) (f : A -> Prog B) :
  raises handle R p -> (forall a, raises handle R (f a)) ->
  raises handle R (bind p f).
Proof.
  intros Hp Hf w e. rewrite run_bind. unfold then_run.
  destruct (result (run handle p w)) as [e' | a] eqn:Hr; cbn [result].
  - intros H. injection H as <-. now apply (Hp w).
  - apply Hf.
Qed.

Lemma raises_vis {A : Type} (c : Cmd) (k : Resp c -> Prog A) :
  (forall r, raises handle R (k r)) -> raises handle R (Vis c k).
Proof. intros Hk w e. cbn [run result]. apply Hk. Qed.

Lemma raises_request_removal (head othername defaultJump : string) :
  (forall e, executor_exception e -> R e) ->
  raises handle R (_request_removal head othername defaultJump).
Proof.
  intros HR w e.
  unfold _request_removal, current_branch, confirm, echo, _run.
  exec handle.
  destruct r0; cbn [accepted]; [destruct (is_current head r) | |];
    exec handle; unfold prepend; cbn [run result]; intros H;
    try discriminate; injection H as <-; apply HR; constructor.
Qed.

End Raises.



(** ** The run of [main] around the reading of the configuration *)

Section Split.
Context {HO : HashOrder} {W : Type} (handle : W -> forall c : Cmd, Resp c * W).

Lemma get_refs_early :
  always handle (fun x => early_event (snd x)) _get_refs.
Proof.
  unfold _get_refs, _run. apply always_bind.
  - apply always_vis; [intros w; constructor |].
    intros [out |]; [apply always_ret | apply always_throw].
  - intros out. apply get_refs_lines_silent.
Qed.

Lemma main_run (w : W) (fetch : option bool) (permanent remote_arg : list string) :
  let o := run handle (main fetch permanent remote_arg) w in
  ((exists e, result o = inl e)
   /\ Forall (fun x => early_event (snd x)) (trace o))
  \/ exists pre w1 refs conf,
       let o' := run handle
                   (after_config fetch (permanent_in_force permanent conf)
                                 (remotes_in_force refs conf) conf)
                   (snd (handle w1 GetConfig)) in
       Forall (fun x => early_event (snd x)) pre
       /\ trace o = (pre ++ (w1, EvGetConfig conf) :: trace o')%list
       /\ result o = result o'
       /\ final o = final o'.
Proof.
  cbv zeta. rewrite main_unfold.
  set (rest := fun refs : Refs => bind (Vis GetConfig Ret) _).
  cbn [bind]. rewrite run_vis_eq.
  destruct (handle w OpenRepo) as [[|] w0]; cbn [fst snd event_of bind].
  - rewrite run_bind. unfold then_run.
    pose proof (get_refs_early w0) as He.
    destruct (result (run handle _get_refs w0)) as [e | refs] eqn:Hr.
    + left. cbn [prepend trace result]. split; [now exists e |].
      constructor; [constructor | exact He].
    + right. exists ((w, EvOpenRepo true) :: trace (run handle _get_refs w0)).
      exists (final (run handle _get_refs w0)), refs.
      exists (fst (handle (final (run handle _get_refs w0)) GetConfig)).
      subst rest. cbn [bind run prepend trace result final event_of].
      repeat split. constructor; [constructor | exact He].
  - left. cbn. split; [eexists; reflexivity | repeat constructor].
Qed.

Lemma after_config_reads_no_config (fetch : option bool)
  (permanent remotes : list string) (conf : Config) :
  always handle (fun x => is_config (snd x) = false)
         (after_config fetch permanent remotes conf).
Proof.
  unfold after_config, _do_fast_forward, _createPermanent, cleanup_loop,
    secho, _run.
  cbv zeta.
  repeat first
    [ apply always_examine_branch;
      [ intros ? ?; reflexivity
      | intros ? ? _;
        unfold _request_removal, current_branch, confirm, echo, _run;
        repeat always_step ]
    | always_step ].
Qed.

(** The run of [main] once it has read the configuration [conf]. *)
Lemma main_splits (w : W) (fetch : option bool) (permanent remote_arg : list string)
  (conf : Config) :
  let o := run handle (main fetch permanent remote_arg) w in
  In (EvGetConfig conf) (events (trace o)) ->
  exists pre w1 refs,
    let o' := run handle
                (after_config fetch (permanent_in_force permanent conf)
                              (remotes_in_force refs conf) conf)
                (snd (handle w1 GetConfig)) in
    Forall (fun x => early_event (snd x)) pre
    /\ trace o = (pre ++ (w1, EvGetConfig conf) :: trace o')%list
    /\ result o = result o'
    /\ final o = final o'.
Proof.
  cbv zeta. intros Hin.
  destruct (main_run w fetch permanent remote_arg)
    as [[_ He] | (pre & w1 & refs & conf0 & He & Ht & Hr & Hf)].
  - exfalso. unfold events in Hin. apply in_map_iff in Hin.
    destruct Hin as (x & Hx & Hin).
    rewrite Forall_forall in He. specialize (He x Hin). rewrite Hx in He. inversion He.
  - cbv zeta in Ht, Hr, Hf. rewrite Ht in Hin.
    unfold events in Hin. rewrite map_app in Hin. apply in_app_or in Hin.
    destruct Hin as [Hin | [Hin | Hin]].
    + exfalso. apply in_map_iff in Hin. destruct Hin as (x & Hx & Hin).
      rewrite Forall_forall in He. specialize (He x Hin). rewrite Hx in He. inversion He.
    + cbn in Hin. injection Hin as ->. now exists pre, w1, refs.
    + exfalso. apply in_map_iff in Hin. destruct Hin as (x & Hx & Hin).
      pose proof (after_config_reads_no_config fetch
                    (permanent_in_force permanent conf0)
                    (remotes_in_force refs conf0) conf0
                    (snd (handle w1 GetConfig))) as Hn.
      rewrite Forall_forall in Hn. specialize (Hn x Hin). now rewrite Hx in Hn.
Qed.

End Split.

(** ** Permanent branches *)

Lemma deletions_In {W : Type} (tr : list (W * Event)) (b : string) :
  In b (deletions (events tr)) ->
  exists x, In x tr /\ deletion_of (snd x) = Some b.
Proof.
  induction tr as [| x tr IH]; cbn [events map deletions]; [intros [] |].
  destruct (deletion_of (snd x)) as [b' |] eqn:Hd.
  - intros [<- | H].
    + exists x. split; [now left | exact Hd].
    + destruct (IH H) as (y & Hy & Hb). exists y. split; [now right | exact Hb].
  - intros H. destruct (IH H) as (y & Hy & Hb).
    exists y. split; [now right | exact Hb].
Qed.

Section Permanent.
Context {HO : HashOrder} {W : Type} (handle : W -> forall c : Cmd, Resp c * W).

Lemma after_config_spares (fetch : option bool) (permanent remotes : list string)
  (conf : Config) :
  always handle (spares permanent) (after_config fetch permanent remotes conf).
Proof.
  apply (script_after_config
           (fun A p => @always W handle (spares permanent) A p)
           (fun c => forall r, deletion_of (event_of c r) = None)
           (fun _ => True)).
  - intros; apply always_ret.
  - intros; now apply always_bind.
  - intros; apply always_throw.
  - intros A c k Ha Hk. apply always_vis; [| exact Hk].
    intros w. unfold spares. cbn [snd]. now rewrite Ha.
  - intros head other p0 Hnot _.
    unfold _request_removal, current_branch, confirm, echo, _run.
    repeat always_step; exact Hnot.
  - intros c Hc r. destruct Hc; reflexivity.
  - trivial.
  - trivial.
Qed.

Lemma after_config_index_error (fetch : option bool)
  (permanent remotes : list string) (conf : Config) :
  raises handle (fun e => e = IndexError -> permanent = [])
         (after_config fetch permanent remotes conf).
Proof.
  apply (script_after_config
           (fun A p => @raises W handle
                         (fun e => e = IndexError -> permanent = []) A p)
           (fun _ => True)
           (fun e => e = IndexError -> permanent = [])).
  - intros; apply raises_ret.
  - intros; now apply raises_bind.
  - intros; now apply raises_throw.
  - intros; now apply raises_vis.
  - intros head other p0 _ _. apply raises_request_removal.
    intros e He. destruct He; discriminate.
  - trivial.
  - intros e _ Hne He. contradiction.
  - trivial.
Qed.

End Permanent.

(** X5: [main] issues no [git branch -D] for a permanent branch in force:
    one of the [-p] options, or of the configured ones when no option is
    given. *)
Theorem main_spares_permanent_branches {HO : HashOrder} {W : Type}
  (handle : W -> forall c : Cmd, Resp c * W) (w : W)
  (fetch : option bool) (permanent remote_arg : list string)
  (conf : Config) (b : string) :
  let o := run handle (main fetch permanent remote_arg) w in
  In (EvGetConfig conf) (events (trace o)) ->
  In b (deletions (events (trace o))) ->
  ~ In b (permanent_in_force permanent conf).
Proof.
  cbv zeta. intros Hc Hb.
  destruct (main_splits handle w fetch permanent remote_arg conf Hc)
    as (pre & w1 & refs & He & Ht & _).
  cbv zeta in Ht. rewrite Ht in Hb.
  apply deletions_In in Hb. destruct Hb as (x & Hx & Hd).
  apply in_app_or in Hx. destruct Hx as [Hx | [<- | Hx]].
  - rewrite Forall_forall in He. specialize (He x Hx).
    destruct He; discriminate.
  - discriminate.
  - pose proof (after_config_spares handle fetch
                  (permanent_in_force permanent conf)
                  (remotes_in_force refs conf) conf
                  (snd (handle w1 GetConfig))) as Hs.
    rewrite Forall_forall in Hs. specialize (Hs x Hx).
    unfold spares in Hs. now rewrite Hd in Hs.
Qed.

Lemma main_spares_permanent_branches_witness :
  let w := merged_repo None [AnsYes] in
  let o := run Repo.handle (main None [] []) w in
  In (EvGetConfig (Repo.config w)) (events (trace o))
  /\ In "feature-x" (deletions (events (trace o)))
  /\ ~ In "feature-x" (permanent_in_force [] (Repo.config w)).
Proof.
  cbv zeta.
  assert (Hc : In (EvGetConfig (Repo.config (merged_repo None [AnsYes])))
                  (events (trace (run Repo.handle (main None [] [])
                                      (merged_repo None [AnsYes])))))
    by (vm_compute; repeat first [left; reflexivity | right]).
  assert (Hb : In "feature-x"
                  (deletions (events (trace (run Repo.handle (main None [] [])
                                                 (merged_repo None [AnsYes]))))))
    by (vm_compute; now left).
  split; [exact Hc |]. split; [exact Hb |].
  exact (main_spares_permanent_branches Repo.handle _ None [] [] _ _ Hc Hb).
Defined.

(** X6: [main] ends with [IndexError] only when no permanent branch is in
    force. *)
Theorem index_error_without_permanent_branch {HO : HashOrder} {W : Type}
  (handle : W -> forall c : Cmd, Resp c * W) (w : W)
  (fetch : option bool) (permanent remote_arg : list string) (conf : Config) :
  let o := run handle (main fetch permanent remote_arg) w in
  In (EvGetConfig conf) (events (trace o)) ->
  result o = inl IndexError ->
  permanent_in_force permanent conf = [].
Proof.
  cbv zeta. intros Hc Hr.
  destruct (main_splits handle w fetch permanent remote_arg conf Hc)
    as (pre & w1 & refs & _ & _ & Hr' & _).
  cbv zeta in Hr'. rewrite Hr' in Hr.
  exact (after_config_index_error handle fetch _ _ conf _ _ Hr eq_refl).
Qed.

Lemma index_error_without_permanent_branch_witness :
  let o := run Repo.handle (main None [] []) unprotected_repo in
  In (EvGetConfig (Repo.config unprotected_repo)) (events (trace o))
  /\ result o = inl IndexError
  /\ permanent_in_force [] (Repo.config unprotected_repo) = [].
Proof.
  cbv zeta.
  assert (Hc : In (EvGetConfig (Repo.config unprotected_repo))
                  (events (trace (run Repo.handle (main None [] [])
                                      unprotected_repo))))
    by (vm_compute; repeat first [left; reflexivity | right]).
  assert (Hr : result (run Repo.handle (main None [] []) unprotected_repo)
               = inl IndexError)
    by (vm_compute; reflexivity).
  split; [exact Hc |]. split; [exact Hr |].
  exact (index_error_without_permanent_branch Repo.handle _ None [] [] _ Hc Hr).
Defined.

(** ** The fast-forward settings *)

Lemma quiet_trace {W : Type} (tr : list (W * Event)) :
  Forall quiet tr ->
  visits (events tr) = [] /\ prompts (events tr) = [] /\ mutations (events tr) = [].
Proof.
  induction 1 as [| x tr (Hv & Hp & Hm) _ (IHv & IHp & IHm)]; [now repeat split |].
  cbn [events map visits prompts mutations].
  rewrite Hv, Hp, Hm. now repeat split.
Qed.

Section FastForward.
Context {HO : HashOrder} {W : Type} (handle : W -> forall c : Cmd, Resp c * W).

Lemma aborts_throw {A : Type} (e : Exn) : aborts handle (@Throw A e).
Proof. intros w. split; [now exists e | constructor]. Qed.

Lemma aborts_bind {A B : Type} (p : Prog A) (f : A -> Prog B) :
  always handle quiet p -> (forall a, aborts handle (f a)) ->
  aborts handle (bind p f).
Proof.
  intros Hp Hf w. rewrite run_bind. unfold then_run.
  destruct (result (run handle p w)) as [e | a]; cbn [trace result].
  - split; [now exists e | apply Hp].
  - destruct (Hf a (final (run handle p w))) as [He Hq].
    split; [exact He | apply Forall_app; split; [apply Hp | exact Hq]].
Qed.

Lemma createPermanent_quiet (name : string) (remotes : list string) :
  always handle quiet (_createPermanent name remotes).
Proof.
  unfold _createPermanent, secho.
  repeat always_step; repeat split.
Qed.

Lemma fast_forward_aborts (fetch : option bool) (permanent remotes : list string)
  (conf : Config) :
  fast_forward_due conf remotes permanent = true ->
  aborts handle (after_config fetch permanent remotes conf).
Proof.
  intros Hdue. unfold after_config.
  destruct remotes as [| r0 rs0] eqn:E; [apply aborts_throw |].
  cbv zeta. apply aborts_bind.
  { unfold secho, _run. repeat always_step; repeat split. }
  intros _. apply aborts_bind.
  { destruct (always_create_permanent_branches conf); [| apply always_ret].
    apply always_for_each. intros name _.
    apply always_bind; [repeat always_step; repeat split |].
    intros heads. destruct (mem name heads); [apply always_ret |].
    apply createPermanent_quiet. }
  intros _. unfold fast_forward_due in Hdue.
  destruct (String.eqb (auto_fast_forward conf) "ff_all") eqn:Hall.
  - rewrite orb_true_r.
    apply aborts_bind; [| intros _; apply aborts_throw].
    destruct rs0; [| apply always_ret].
    apply always_for_each. intros name _. apply always_throw.
  - rewrite orb_false_r. cbn [orb] in Hdue.
    apply andb_prop in Hdue. destruct Hdue as [Hdue Hperm].
    apply andb_prop in Hdue. destruct Hdue as [-> Hone].
    destruct rs0; [| discriminate].
    destruct permanent as [| p ps]; [discriminate |].
    cbn [for_each bind _do_fast_forward]. apply aborts_throw.
Qed.

End FastForward.

(** X7: when the fast-forward step has something to do, the part of [main]
    that follows the reading of the configuration ends with an exception,
    and has visited no branch, shown no prompt and changed nothing. *)
Theorem fast_forward_ends_run {HO : HashOrder} {W : Type}
  (handle : W -> forall c : Cmd, Resp c * W) (w : W)
  (fetch : option bool) (permanent remotes : list string) (conf : Config) :
  let o := run handle (after_config fetch permanent remotes conf) w in
  fast_forward_due conf remotes permanent = true ->
  (exists e, result o = inl e)
  /\ visits (events (trace o)) = []
  /\ prompts (events (trace o)) = []
  /\ mutations (events (trace o)) = [].
Proof.
  cbv zeta. intros Hdue.
  destruct (fast_forward_aborts handle fetch permanent remotes conf Hdue w)
    as [He Hq].
  split; [exact He | now apply quiet_trace].
Qed.

Lemma fast_forward_ends_run_witness :
  let conf := mkConfig ["main"] true true true true "ff_permanent" ["origin"] in
  let o := run Repo.handle (after_config None ["main"] ["origin"] conf)
               (merged_repo None [AnsYes]) in
  fast_forward_due conf ["origin"] ["main"] = true
  /\ result o = inl (PyException "TODO: not complete")
  /\ (exists e, result o = inl e)
  /\ visits (events (trace o)) = []
  /\ prompts (events (trace o)) = []
  /\ mutations (events (trace o)) = [].
Proof.
  cbv zeta. split; [reflexivity |]. split; [vm_compute; reflexivity |].
  exact (fast_forward_ends_run Repo.handle (merged_repo None [AnsYes]) None
           ["main"] ["origin"]
           (mkConfig ["main"] true true true true "ff_permanent" ["origin"])
           eq_refl).
Defined.

(** X8: a run of [main] that reads the setting [ff_all] ends with an
    exception, and has visited no branch, shown no prompt and changed
    nothing. *)
Theorem fast_forward_all_ends_main {HO : HashOrder} {W : Type}
  (handle : W -> forall c : Cmd, Resp c * W) (w : W)
  (fetch : option bool) (permanent remote_arg : list string) (conf : Config) :
  let o := run handle (main fetch permanent remote_arg) w in
  In (EvGetConfig conf) (events (trace o)) ->
  auto_fast_forward conf = "ff_all" ->
  (exists e, result o = inl e)
  /\ visits (events (trace o)) = []
  /\ prompts (events (trace o)) = []
  /\ mutations (events (trace o)) = [].
Proof.
  cbv zeta. intros Hc Hall.
  destruct (main_splits handle w fetch permanent remote_arg conf Hc)
    as (pre & w1 & refs & He & Ht & Hr & _).
  cbv zeta in Ht, Hr.
  assert (Hdue : fast_forward_due conf (remotes_in_force refs conf)
                   (permanent_in_force permanent conf) = true).
  { unfold fast_forward_due. now rewrite Hall. }
  destruct (fast_forward_aborts handle fetch _ _ conf Hdue
              (snd (handle w1 GetConfig))) as [Hex Hq].
  rewrite Hr, Ht. split; [exact Hex |].
  apply quiet_trace. apply Forall_app. split.
  - eapply Forall_impl; [| exact He].
    intros x Hx. destruct x as [w' e]. cbn [snd] in Hx.
    destruct Hx; now repeat split.
  - constructor; [now repeat split | exact Hq].
Qed.

Lemma fast_forward_all_ends_main_witness :
  let o := run Repo.handle (main None [] []) eager_repo in
  In (EvGetConfig (Repo.config eager_repo)) (events (trace o))
  /\ auto_fast_forward (Repo.config eager_repo) = "ff_all"
  /\ (exists e, result o = inl e)
  /\ visits (events (trace o)) = []
  /\ prompts (events (trace o)) = []
  /\ mutations (events (trace o)) = [].
Proof.
  cbv zeta.
  assert (Hc : In (EvGetConfig (Repo.config eager_repo))
                  (events (trace (run Repo.handle (main None [] []) eager_repo))))
    by (vm_compute; repeat first [left; reflexivity | right]).
  split; [exact Hc |]. split; [reflexivity |].
  exact (fast_forward_all_ends_main Repo.handle _ None [] [] _ Hc eq_refl).
Defined.

(** ** Fetching *)

Section Fetch.
Context {HO : HashOrder} {W : Type} (handle : W -> forall c : Cmd, Resp c * W).

Lemma after_config_no_fetch (fetch : option bool) (permanent remotes : list string)
  (conf : Config) :
  fetch_in_force fetch conf = false ->
  always handle (fun x => is_fetch (snd x) = false)
         (after_config fetch permanent remotes conf).
Proof.
  unfold fetch_in_force. intros Hf.
  unfold after_config. rewrite Hf.
  unfold _do_fast_forward, _createPermanent, cleanup_loop, secho, _run.
  cbv zeta.
  repeat first
    [ apply always_examine_branch;
      [ intros ? ?; reflexivity
      | intros ? ? _;
        unfold _request_removal, current_branch, confirm, echo, _run;
        repeat always_step ]
    | always_step ].
Qed.

End Fetch.

(** X9: [main] runs no [git fetch] when fetching is not in force: with
    [--no-fetch], or without the flag when the configuration has
    [fetch_first] false. *)
Theorem no_fetch_unless_in_force {HO : HashOrder} {W : Type}
  (handle : W -> forall c : Cmd, Resp c * W) (w : W)
  (fetch : option bool) (permanent remote_arg : list string) :
  let o := run handle (main fetch permanent remote_arg) w in
  (forall conf, In (EvGetConfig conf) (events (trace o)) ->
                fetch_in_force fetch conf = false) ->
  Forall (fun e => is_fetch e = false) (events (trace o)).
Proof.
  cbv zeta. intros Hf.
  assert (Hearly : forall pre : list (W * Event),
             Forall (fun x => early_event (snd x)) pre ->
             Forall (fun e => is_fetch e = false) (events pre)).
  { intros pre He. unfold events. apply Forall_map.
    eapply Forall_impl; [| exact He].
    intros x Hx. now destruct Hx. }
  destruct (main_run handle w fetch permanent remote_arg)
    as [[_ He] | (pre & w1 & refs & conf & He & Ht & _)].
  - now apply Hearly.
  - cbv zeta in Ht.
    assert (Hin : In (EvGetConfig conf)
                     (events (trace (run handle (main fetch permanent remote_arg) w)))).
    { rewrite Ht, events_app. apply in_or_app. right. now left. }
    specialize (Hf conf Hin).
    rewrite Ht, events_app. apply Forall_app. split; [now apply Hearly |].
    cbn [events map snd]. constructor; [reflexivity |].
    apply Forall_map.
    exact (after_config_no_fetch handle fetch _ _ conf Hf (snd (handle w1 GetConfig))).
Qed.

Lemma no_fetch_unless_in_force_witness :
  let o := run Repo.handle (main (Some false) [] [])
               (merged_repo None [AnsNo]) in
  (forall conf, In (EvGetConfig conf) (events (trace o)) ->
                fetch_in_force (Some false) conf = false)
  /\ List.length (events (trace o)) = 12
  /\ Forall (fun e => is_fetch e = false) (events (trace o)).
Proof.
  cbv zeta.
  assert (H : forall conf,
             In (EvGetConfig conf)
                (events (trace (run Repo.handle (main (Some false) [] [])
                                    (merged_repo None [AnsNo])))) ->
             fetch_in_force (Some false) conf = false)
    by (intros conf _; reflexivity).
  split; [exact H |]. split; [vm_compute; reflexivity |].
  exact (no_fetch_unless_in_force Repo.handle _ (Some false) [] [] H).
Defined.

(** ** One examination, one change *)

Section OneChange.
Context {HO : HashOrder} {W : Type} (handle : W -> forall c : Cmd, Resp c * W).
Variables (head p0 : string).

Lemma request_removal_one_change (target : string) (w : W) :
  let o := run handle (_request_removal head target p0) w in
  one_change head p0 (mutations (events (trace o)))
  /\ (result o = inr false -> mutations (events (trace o)) = []).
Proof.
  cbv zeta. split.
  - rewrite request_removal_mutations. unfold one_change.
    destruct (accepted false _); [| now left].
    destruct (is_current head _); [| now right; left].
    destruct (fst (handle _ (Run ["git"; "checkout"; p0]))); tauto.
  - intros Hr.
    destruct (request_removal_outcome handle head p0 target w) as (a & _ & Hd & Hf).
    cbv zeta in Hd, Hf. now apply Hd, Hf.
Qed.

Lemma offer_in_turn_one_change (candidates : list string) (w : W) :
  let o := run handle (offer_in_turn head p0 candidates) w in
  one_change head p0 (mutations (events (trace o)))
  /\ (result o = inr false -> mutations (events (trace o)) = []).
Proof.
  cbv zeta. revert w. unfold offer_in_turn.
  induction candidates as [| c rest IH]; intros w; cbn [for_until].
  - cbn. split; [now left | reflexivity].
  - rewrite run_bind. unfold then_run.
    destruct (request_removal_one_change c w) as [H1 H2]. cbv zeta in H1, H2.
    destruct (result (run handle (_request_removal head c p0) w))
      as [e | [|]] eqn:Hr; cbn [trace result].
    + split; [exact H1 | discriminate].
    + cbn [run trace result]. rewrite app_nil_r. split; [exact H1 | discriminate].
    + rewrite events_app, mutations_app, (H2 eq_refl). cbn [app]. apply IH.
Qed.

End OneChange.

Lemma trace_ignore_value {W A : Type} (o : Outcome W A) :
  trace (ignore_value o) = trace o.
Proof. reflexivity. Qed.

Section OneChangeBranch.
Context {HO : HashOrder} {W : Type} (handle : W -> forall c : Cmd, Resp c * W).

Lemma examine_descendants_one_change (head : string)
  (remotes permanent descendants : list string) (w : W) :
  one_change head (hd "" permanent)
    (mutations (events (trace
       (run handle (examine_descendants head remotes permanent descendants) w)))).
Proof.
  destruct (first_permanent_match remotes permanent descendants) as [t |] eqn:Hm.
  - rewrite (run_examine_matched handle w head remotes permanent descendants t Hm).
    rewrite trace_ignore_value. apply request_removal_one_change.
  - destruct permanent as [| p0 others].
    + destruct descendants as [| d ds].
      * rewrite examine_nothing. now left.
      * rewrite examine_unprotected by discriminate. now left.
    + rewrite (run_examine_unmatched handle head p0 others remotes descendants w Hm).
      rewrite trace_ignore_value. apply offer_in_turn_one_change.
Qed.

End OneChangeBranch.

(** X10: the examination of a branch issues at most one checkout, of the
    first permanent branch, and at most one deletion, of the branch itself,
    the checkout first. *)
Theorem examination_changes_one_branch {HO : HashOrder} {W : Type}
  (handle : W -> forall c : Cmd, Resp c * W) (w : W)
  (head : string) (remotes permanent : list string) :
  let ms := mutations (events (trace
              (run handle (_examine_branch head remotes permanent) w))) in
  ms = [] \/ ms = [Delete head] \/ ms = [Checkout (hd "" permanent)]
  \/ ms = [Checkout (hd "" permanent); Delete head].
Proof.
  cbv zeta. rewrite run_examine_branch.
  destruct (fst (handle w (Run (contains_query head)))) as [lines |];
    [| now left].
  destruct (mem head (containing_set lines)); [| now left].
  cbn [prepend trace events map snd mutations mutation_of contains_query].
  apply examine_descendants_one_change.
Qed.

(** ** Deletions follow the listing *)

Lemma subseq_nil (l : list string) : subseq [] l = true.
Proof. now destruct l. Qed.

Lemma subseq_tail (x : string) (s l : list string) :
  subseq (x :: s) l = true -> subseq s l = true.
Proof.
  revert x s. induction l as [| y l IH]; intros x s H; [discriminate |].
  assert (H' : subseq s l = true).
  { cbn [subseq] in H. destruct (String.eqb x y); [exact H | exact (IH x s H)]. }
  destruct s as [| x' s']; [reflexivity |].
  cbn [subseq]. destruct (String.eqb x' y); [exact (IH x' s' H') | exact H'].
Qed.

Lemma subseq_skip (y : string) (s l : list string) :
  subseq s l = true -> subseq s (y :: l) = true.
Proof.
  intros H. destruct s as [| x s]; [reflexivity |].
  cbn [subseq]. destruct (String.eqb x y); [exact (subseq_tail x s l H) | exact H].
Qed.

Lemma subseq_cons (x : string) (s l : list string) :
  subseq s l = true -> subseq (x :: s) (x :: l) = true.
Proof. intros H. cbn [subseq]. now rewrite String.eqb_refl. Qed.

Lemma subseq_In (s l : list string) (x : string) :
  subseq s l = true -> In x s -> In x l.
Proof.
  revert s. induction l as [| y l IH]; intros s H Hx.
  - destruct s; [destruct Hx | discriminate].
  - destruct s as [| x' s]; [destruct Hx |].
    cbn [subseq] in H. destruct (String.eqb_spec x' y) as [-> | Hne].
    + destruct Hx as [<- | Hx]; [now left | right; exact (IH s H Hx)].
    + right. exact (IH (x' :: s) H Hx).
Qed.

Lemma deletions_of_mutations (es : list Event) :
  deletions es
  = flat_map (fun m => match m with Delete b => [b] | Checkout _ => [] end)
             (mutations es).
Proof.
  induction es as [| e es IH]; [reflexivity |].
  cbn [deletions mutations]. unfold deletion_of.
  destruct (mutation_of e) as [[r | b] |]; cbn [flat_map app]; now rewrite IH.
Qed.

Section ListingOrder.
Context {HO : HashOrder} {W : Type} (handle : W -> forall c : Cmd, Resp c * W).

Lemma examine_branch_deletions (head : string) (remotes permanent : list string)
  (w : W) :
  let ds := deletions (events (trace
              (run handle (_examine_branch head remotes permanent) w))) in
  ds = [] \/ ds = [head].
Proof.
  cbv zeta. rewrite run_examine_branch.
  destruct (fst (handle w (Run (contains_query head)))) as [lines |];
    [| now left].
  destruct (mem head (containing_set lines)); [| now left].
  cbn [prepend trace events map snd deletions].
  change (deletion_of (EvRun (contains_query head) (Some lines)))
    with (@None string).
  cbv iota. change (map snd ?t) with (events t).
  rewrite deletions_of_mutations.
  destruct (examine_descendants_one_change handle head remotes permanent
              (discard head (containing_set lines))
              (snd (handle w (Run (contains_query head)))))
    as [-> | [-> | [-> | ->]]]; cbn; tauto.
Qed.

Lemma cleanup_loop_deletions (heads remotes permanent : list string) (w : W) :
  subseq (deletions (events (trace
            (run handle (cleanup_loop heads remotes permanent) w))))
         (examinable permanent heads) = true.
Proof.
  revert w. unfold cleanup_loop.
  induction heads as [| head heads IH]; intros w; [reflexivity |].
  cbn [for_each examinable filter]. rewrite run_bind. unfold then_run.
  destruct (mem head permanent) eqn:Hm; cbn [negb].
  - unfold secho. cbn [bind run trace result final app events map snd
                       deletions event_of].
    change (deletion_of (EvEcho _ _)) with (@None string). cbv iota.
    apply IH.
  - destruct (examine_branch_deletions head remotes permanent w) as [Hd | Hd];
      cbv zeta in Hd;
      destruct (result (run handle (_examine_branch head remotes permanent) w));
      cbn [trace]; rewrite ?events_app, ?deletions_app, Hd; cbn [app].
    + apply subseq_nil.
    + apply subseq_skip, IH.
    + apply subseq_cons, subseq_nil.
    + apply subseq_cons, IH.
Qed.

End ListingOrder.

(** X11: the branches the loop of [main] issues deletions for are listed
    branches that are not permanent, in the order of the listing, each at
    most as often as it is listed. *)
Theorem deletions_follow_listing {HO : HashOrder} {W : Type}
  (handle : W -> forall c : Cmd, Resp c * W) (w : W)
  (heads remotes permanent : list string) :
  let ds := deletions (events (trace
              (run handle (cleanup_loop heads remotes permanent) w))) in
  subseq ds (examinable permanent heads) = true
  /\ (forall b, In b ds -> In b heads /\ ~ In b permanent)
  /\ (NoDup heads -> NoDup ds).
Proof.
  cbv zeta.
  pose proof (cleanup_loop_deletions handle heads remotes permanent w) as H.
  split; [exact H |]. split.
  - intros b Hb. apply (subseq_In _ _ b H) in Hb.
    unfold examinable in Hb. apply filter_In in Hb. destruct Hb as [Hb Hn].
    split; [exact Hb |]. apply mem_false. now destruct (mem b permanent).
  - intros Hnd.
    assert (Hnd' : NoDup (examinable permanent heads))
      by now apply NoDup_filter.
    revert H Hnd'. generalize (examinable permanent heads).
    generalize (deletions (events (trace
                  (run handle (cleanup_loop heads remotes permanent) w)))).
    intros s l. revert s. induction l as [| y l IH]; intros s H Hl.
    + destruct s; [constructor | discriminate].
    + destruct s as [| x s]; [constructor |].
      inversion Hl as [| ? ? Hy Hl']; subst.
      cbn [subseq] in H. destruct (String.eqb_spec x y) as [-> | Hne].
      * constructor; [| now apply IH].
        intros Hin. apply Hy. exact (subseq_In s l y H Hin).
      * now apply IH.
Qed.

(** ** No prompt twice *)

Lemma removal_msg_inj (head c1 c2 : string) :
  removal_msg head c1 = removal_msg head c2 -> c1 = c2.
Proof. unfold removal_msg, style. intros H. now injection H. Qed.

Lemma shown_in_turn_messages (head : string) (candidates : list string)
  (ps : list (Message * bool * Answer)) :
  shown_in_turn head candidates ps ->
  exists k,
    map (fun p : Message * bool * Answer => fst (fst p)) ps
    = map (removal_msg head) (firstn k candidates).
Proof.
  revert candidates. induction ps as [| [[msg d] a] ps IH]; intros candidates H.
  - now exists 0.
  - destruct candidates as [| c rest]; [destruct H |].
    cbn [shown_in_turn] in H. destruct H as (-> & _ & H).
    destruct (accepted false a).
    + subst ps. now exists 1.
    + destruct (IH rest H) as (k & Hk). exists (S k).
      cbn [map firstn fst]. now rewrite Hk.
Qed.

Lemma NoDup_firstn {X : Type} (k : nat) (l : list X) :
  NoDup l -> NoDup (firstn k l).
Proof.
  revert l. induction k as [| k IH]; intros l H; [constructor |].
  destruct l as [| x l]; [constructor |].
  inversion H as [| ? ? Hx Hl]; subst. cbn [firstn]. constructor; [| now apply IH].
  intros Hin. apply Hx. revert Hin. clear. revert l.
  induction k as [| k IH]; intros l Hin; [destruct Hin |].
  destruct l as [| y l]; [destruct Hin |].
  destruct Hin as [-> | Hin]; [now left | right; now apply IH].
Qed.

Lemma NoDup_map_removal_msg (head : string) (l : list string) :
  NoDup l -> NoDup (map (removal_msg head) l).
Proof.
  induction 1 as [| c l Hc _ IH]; cbn [map]; constructor; [| exact IH].
  intros Hin. apply in_map_iff in Hin. destruct Hin as (c' & Heq & Hin).
  apply removal_msg_inj in Heq. now subst c'.
Qed.

(** X12: within the examination of one branch no prompt is shown twice. *)
Theorem no_prompt_twice {HO : HashOrder} {W : Type}
  (handle : W -> forall c : Cmd, Resp c * W) (w : W)
  (head : string) (remotes permanent : list string) :
  NoDup (shown (run handle (_examine_branch head remotes permanent) w)).
Proof.
  unfold shown. rewrite run_examine_branch.
  destruct (fst (handle w (Run (contains_query head)))) as [lines |];
    [| constructor].
  destruct (mem head (containing_set lines)); [| constructor].
  cbn [prepend trace events map snd prompts prompt_of].
  set (descendants := discard head (containing_set lines)).
  set (w1 := snd (handle w (Run (contains_query head)))).
  assert (Hnd : NoDup descendants)
    by (apply discard_NoDup, set_of_NoDup).
  change (map snd ?t) with (events t).
  destruct (first_permanent_match remotes permanent descendants) as [t |] eqn:Hm.
  - rewrite (run_examine_matched handle w1 head remotes permanent descendants t Hm).
    rewrite trace_ignore_value, request_removal_prompts.
    repeat constructor. intros [].
  - destruct permanent as [| p0 others].
    + destruct descendants as [| d ds].
      * rewrite examine_nothing. constructor.
      * rewrite examine_unprotected by discriminate. constructor.
    + rewrite (run_examine_unmatched handle head p0 others remotes descendants w1 Hm).
      rewrite trace_ignore_value.
      destruct (shown_in_turn_messages head (fallback_candidates descendants) _
                  (offer_in_turn_shown handle head p0
                     (fallback_candidates descendants) w1)) as (k & ->).
      apply NoDup_map_removal_msg, NoDup_firstn.
      now apply fallback_candidates_NoDup.
Qed.

(** ** Creating a permanent branch *)

(** X13: [_createPermanent] calls [git branch --track] only when exactly
    one of the remotes GitPython lists is nominated and has a ref for the
    branch; the branch then tracks that ref, and a failure of the call is
    the [GitCommandError] the function ends with. *)
Theorem permanent_branch_from_unique_remote {W : Type}
  (handle : W -> forall c : Cmd, Resp c * W) (w : W)
  (name : string) (remotes : list string)
  (args : list string) (out : option string) :
  let o := run handle (_createPermanent name remotes) w in
  In (EvGitBranch args out) (events (trace o)) ->
  exists rs r,
    In (EvRepoRemotes rs) (events (trace o))
    /\ candidate_remotes name remotes rs = [r]
    /\ In r rs
    /\ In (fst r) remotes
    /\ In (fst r ++ "/" ++ name) (snd r)
    /\ args = ["--track"; name; fst r ++ "/" ++ name]
    /\ result o = match out with
                  | Some _ => inr tt
                  | None => inl (GitCommandError args)
                  end.
Proof.
  cbv zeta. unfold _createPermanent, secho. cbv zeta.
  cbn [bind]. rewrite run_vis_eq.
  destruct (handle w (Echo _ true)) as [u w0]. cbn [fst snd event_of].
  destruct remotes as [| r0 rs0] eqn:E.
  { cbn. intros [H | [H | []]]; discriminate. }
  rewrite <- E. clear E r0 rs0.
  cbn [bind]. rewrite run_vis_eq.
  destruct (handle w0 RepoRemotes) as [rs w1]. cbn [fst snd event_of].
  fold (candidate_remotes name remotes rs).
  destruct (candidate_remotes name remotes rs) as [| r [| r' l]] eqn:Hc.
  - cbn. intros [H | [H | [H | []]]]; discriminate.
  - rewrite run_vis_eq.
    destruct (handle w1 (GitBranch _)) as [o w2]. cbn [fst snd event_of].
    intros Hin.
    assert (Hr : In r (candidate_remotes name remotes rs))
      by (rewrite Hc; now left).
    unfold candidate_remotes in Hr. apply filter_In in Hr.
    destruct Hr as [Hrs Hr]. apply andb_prop in Hr. destruct Hr as [Hn Href].
    apply mem_In in Hn. apply existsb_exists in Href.
    destruct Href as (ref & Href & Heq). apply String.eqb_eq in Heq. subst ref.
    exists rs, r.
    assert (Hargs : args = ["--track"; name; fst r ++ "/" ++ name] /\ out = o).
    { destruct o; cbn in Hin;
        destruct Hin as [H | [H | [H | []]]]; try discriminate;
        injection H as <- <-; now split. }
    destruct Hargs as [-> ->].
    repeat split; try assumption.
    + destruct o; cbn; tauto.
    + now destruct o.
  - cbn. intros [H | [H | [H | []]]]; discriminate.
Qed.

Lemma permanent_branch_from_unique_remote_witness :
  let o := run Repo.handle (_createPermanent "develop" ["origin"]) fresh_clone in
  In (EvGitBranch ["--track"; "develop"; "origin/develop"] (Some ""))
     (events (trace o))
  /\ exists rs r,
       In (EvRepoRemotes rs) (events (trace o))
       /\ candidate_remotes "develop" ["origin"] rs = [r]
       /\ In r rs
       /\ In (fst r) ["origin"]
       /\ In (fst r ++ "/" ++ "develop") (snd r)
       /\ ["--track"; "develop"; "origin/develop"]
          = ["--track"; "develop"; fst r ++ "/" ++ "develop"]
       /\ result o = inr tt.
Proof.
  cbv zeta.
  assert (H : In (EvGitBranch ["--track"; "develop"; "origin/develop"] (Some ""))
                 (events (trace (run Repo.handle
                                     (_createPermanent "develop" ["origin"])
                                     fresh_clone))))
    by (vm_compute; repeat first [left; reflexivity | right]).
  split; [exact H |].
  exact (permanent_branch_from_unique_remote Repo.handle fresh_clone
           "develop" ["origin"] _ _ H).
Defined.

(** ** The return value of [_attempt_removal] *)

(** X14: [_attempt_removal] returns [True] for a merged branch also when
    the user declines the prompt, and then changes nothing. *)
Theorem attempt_removal_true_when_declined {W : Type}
  (handle : W -> forall c : Cmd, Resp c * W) (w : W)
  (local : string) (remotename : option string) (other : string)
  (msg : Message) (d : bool) (a : Answer) :
  let o := run handle (_attempt_removal local remotename other) w in
  In (EvConfirm msg d a) (events (trace o)) ->
  accepted d a = false ->
  result o = inr true /\ mutations (events (trace o)) = [].
Proof.
  cbv zeta.
  set (Q := fun o : Outcome W bool =>
              In (EvConfirm msg d a) (events (trace o)) ->
              accepted d a = false ->
              result o = inr true /\ mutations (events (trace o)) = []).
  change (Q (run handle (_attempt_removal local remotename other) w)).
  unfold _attempt_removal, current_branch, confirm, echo, _run. cbv zeta.
  set (otherref := match remotename with None => other | Some r => _ end).
  repeat (exec handle;
          try match goal with
            | |- context [if ?c then _ else _] => destruct c eqn:?
            end).
  all: subst Q; unfold prepend; cbn [run trace result events map snd event_of];
    intros Hin Hacc.
  all: repeat (destruct Hin as [Hin | Hin]; [try discriminate |]);
    try (now destruct Hin).
  all: injection Hin as <- <- <-; congruence.
Qed.

Lemma attempt_removal_true_when_declined_witness :
  let o := run Repo.handle (_attempt_removal "feature-x" None "main")
               (merged_repo None [AnsNo]) in
  In (EvConfirm [Plain "feature-x is merged to main. Delete it?"] false AnsNo)
     (events (trace o))
  /\ accepted false AnsNo = false
  /\ result o = inr true /\ mutations (events (trace o)) = [].
Proof.
  cbv zeta.
  assert (H : In (EvConfirm [Plain "feature-x is merged to main. Delete it?"]
                            false AnsNo)
                 (events (trace (run Repo.handle
                                     (_attempt_removal "feature-x" None "main")
                                     (merged_repo None [AnsNo])))))
    by (vm_compute; repeat first [left; reflexivity | right]).
  split; [exact H |]. split; [reflexivity |].
  exact (attempt_removal_true_when_declined Repo.handle _ "feature-x" None "main"
           _ _ _ H eq_refl).
Defined.

(** ** Python strings *)












(** ** The inventory of a well-formed listing *)












(** ** The branches of a well-formed [git branch] listing *)




(** ** The return value of [_request_removal] *)

(** X17: [_request_removal] returns [True] exactly when its
    [git branch -D] command has succeeded. *)
Theorem request_removal_true_iff_deleted {W : Type}
  (handle : W -> forall c : Cmd, Resp c * W) (w : W)
  (head othername defaultJump : string) :
  let o := run handle (_request_removal head othername defaultJump) w in
  result o = inr true
  <-> exists out, In (EvRun ["git"; "branch"; "-D"; head] (Some out))
                     (events (trace o)).
Proof.
  cbv zeta.
  set (Q := fun o : Outcome W bool =>
              result o = inr true
              <-> exists out, In (EvRun ["git"; "branch"; "-D"; head] (Some out))
                                 (events (trace o))).
  change (Q (run handle (_request_removal head othername defaultJump) w)).
  unfold _request_removal, current_branch, confirm, echo, _run.
  exec handle.
  destruct r0; cbn [accepted]; [destruct (is_current head r) | |];
    exec handle; subst Q; unfold prepend;
    cbn [run trace result events map snd event_of];
    (split;
     [ intros H; try discriminate; eexists;
       repeat first [left; reflexivity | right]
     | intros (out & Hin);
       repeat (destruct Hin as [Hin | Hin]; [try discriminate |]);
       try (now destruct Hin) ]).
Qed.

(** ** A fetch that fails *)

Section FailedFetch.
Context {HO : HashOrder} {W : Type} (handle : W -> forall c : Cmd, Resp c * W).

Lemma after_config_failed_fetch (fetch : option bool)
  (permanent remotes : list string) (conf : Config) (w : W) (argv : list string) :
  let o := run handle (after_config fetch permanent remotes conf) w in
  is_fetch (EvRun argv None) = true ->
  In (EvRun argv None) (events (trace o)) ->
  result o = inl (CalledProcessError argv) /\ Forall quiet (trace o).
Proof.
  cbv zeta. intros Hfetch.
  destruct (fetch_in_force fetch conf) eqn:Hf.
  - set (Q := fun o : Outcome W unit =>
                In (EvRun argv None) (events (trace o)) ->
                result o = inl (CalledProcessError argv) /\ Forall quiet (trace o)).
    change (Q (run handle (after_config fetch permanent remotes conf) w)).
    unfold after_config.
    destruct remotes as [| r0 rs0]; [intros [] |].
    unfold fetch_in_force in Hf. rewrite Hf. cbv zeta.
    unfold secho at 1. unfold _run at 1. cbn [bind].
    rewrite run_vis_eq. destruct (handle w (Echo _ true)) as [u w0].
    cbn [fst snd event_of]. rewrite run_vis_eq.
    destruct (handle w0 (Run (fetch_cmd conf (r0 :: rs0)))) as [[out |] w1];
      cbn [fst snd event_of bind].
    + match goal with
      | |- context [run handle ?p w1] =>
          change p with (after_config (Some false) permanent (r0 :: rs0) conf)
      end.
      subst Q. cbn [prepend trace events map snd].
      intros [H | [H | H]]; try discriminate.
      exfalso.
      pose proof (after_config_no_fetch handle (Some false) permanent
                    (r0 :: rs0) conf eq_refl w1) as Hn.
      unfold events in H. apply in_map_iff in H. destruct H as (x & Hx & H).
      rewrite Forall_forall in Hn. specialize (Hn x H).
      rewrite Hx in Hn. congruence.
    + subst Q. cbn [prepend run trace result events map snd].
      intros [H | [H | []]]; [discriminate |]. injection H as <-.
      split; [reflexivity |]. repeat constructor.
  - intros Hin. exfalso.
    pose proof (after_config_no_fetch handle fetch permanent remotes conf Hf w)
      as Hn.
    unfold events in Hin. apply in_map_iff in Hin. destruct Hin as (x & Hx & Hin).
    rewrite Forall_forall in Hn. specialize (Hn x Hin).
    rewrite Hx in Hn. congruence.
Qed.

End FailedFetch.

(** X18: a [git fetch] that fails ends [main] with its
    [CalledProcessError] before any branch is visited, any prompt shown or
    anything changed. *)
Theorem failed_fetch_ends_main {HO : HashOrder} {W : Type}
  (handle : W -> forall c : Cmd, Resp c * W) (w : W)
  (fetch : option bool) (permanent remote_arg : list string)
  (argv : list string) :
  let o := run handle (main fetch permanent remote_arg) w in
  is_fetch (EvRun argv None) = true ->
  In (EvRun argv None) (events (trace o)) ->
  result o = inl (CalledProcessError argv)
  /\ visits (events (trace o)) = []
  /\ prompts (events (trace o)) = []
  /\ mutations (events (trace o)) = [].
Proof.
  cbv zeta. intros Hfetch Hin.
  assert (Hearly : forall x : W * Event, early_event (snd x) -> quiet x).
  { intros [w' e] He. cbn [snd] in He. destruct He; now repeat split. }
  destruct (main_run handle w fetch permanent remote_arg)
    as [[_ He] | (pre & w1 & refs & conf & He & Ht & Hr & _)].
  - exfalso. unfold events in Hin. apply in_map_iff in Hin.
    destruct Hin as (x & Hx & Hin).
    rewrite Forall_forall in He. specialize (He x Hin). rewrite Hx in He.
    inversion He; subst. discriminate.
  - cbv zeta in Ht, Hr. rewrite Ht in Hin. rewrite events_app in Hin.
    apply in_app_or in Hin. destruct Hin as [Hin | [Hin | Hin]].
    + exfalso. unfold events in Hin. apply in_map_iff in Hin.
      destruct Hin as (x & Hx & Hin).
      rewrite Forall_forall in He. specialize (He x Hin). rewrite Hx in He.
      inversion He; subst. discriminate.
    + discriminate.
    + destruct (after_config_failed_fetch handle fetch _ _ conf _ argv Hfetch Hin)
        as [Hres Hq].
      rewrite Hr, Ht. split; [exact Hres |].
      apply quiet_trace. apply Forall_app. split.
      * eapply Forall_impl; [| exact He]. exact Hearly.
      * constructor; [now repeat split | exact Hq].
Qed.

Lemma failed_fetch_ends_main_witness :
  let o := run Repo.handle (main None [] []) offline_repo in
  let argv := ["git"; "fetch"; "--multiple"; "--prune"; "--tags"; "origin"] in
  is_fetch (EvRun argv None) = true
  /\ In (EvRun argv None) (events (trace o))
  /\ result o = inl (CalledProcessError argv)
  /\ visits (events (trace o)) = []
  /\ prompts (events (trace o)) = []
  /\ mutations (events (trace o)) = [].
Proof.
  cbv zeta. split; [reflexivity |].
  assert (H : In (EvRun ["git"; "fetch"; "--multiple"; "--prune"; "--tags"; "origin"]
                        None)
                 (events (trace (run Repo.handle (main None [] []) offline_repo))))
    by (vm_compute; repeat first [left; reflexivity | right]).
  split; [exact H |].
  exact (failed_fetch_ends_main Repo.handle offline_repo None [] []
           ["git"; "fetch"; "--multiple"; "--prune"; "--tags"; "origin"]
           eq_refl H).
Defined.
